(** * Hong Kong weather assistant: tool server, response normaliser and
      query dispatch

    A shallow embedding of
      - hk-weather-mcp-and-nova-act-llm/hk_weather_mcp_server.py
      - hk-weather-mcp-and-nova-act-llm/agentic_weather_assistant.py
      - hk-weather-mcp-and-nova-act/hk_weather_mcp_client.py

    Conventions.
      - A Python [str] is a Rocq [string] holding its UTF-8 bytes.
      - The values that travel through the program (tool payloads, tool
        arguments, what [json.loads] returns) are the type [json].  A dict
        is an association list in insertion order with distinct keys.
      - An exception is represented by its message, [str(e)].  Only
        instances of [Exception] are modelled: they are what the
        [except Exception] handlers of the program catch.
      - The browser engine, the tool session and the model endpoint are
        external: each call to them is answered by an environment record
        and written to an event log, and every such call may raise.
      - [logger.*] and [print] calls are diagnostics and are left out. *)

From Stdlib Require Import ZArith List String Ascii Bool Lia.
From Stdlib Require Import DecimalFacts DecimalPos DecimalN DecimalZ.
Import ListNotations.

Local Open Scope string_scope.
Local Open Scope list_scope.

(* ================================================================= *)
(** ** Python values *)

Module Py.

(** [str(e)] of a caught exception. *)
Definition exn : Type := string.

(** Result of evaluating an expression that may raise. *)
Inductive outcome (A : Type) : Type :=
| Ret (a : A)
| Raise (e : exn).
Arguments Ret {A} a.
Arguments Raise {A} e%_string.

Unset Elimination Schemes.
Inductive json : Type :=
| JNull
| JBool (b : bool)
| JInt (z : Z)
| JFloat (lexeme : string)
| JStr (s : string)
| JList (l : list json)
| JDict (m : list (string * json)).
Set Elimination Schemes.
Arguments JFloat lexeme%_string.
Arguments JStr s%_string.

Definition dquote : ascii := "034"%char.
Definition squote : ascii := "039"%char.
Definition backslash : ascii := "092"%char.
Definition newline : ascii := "010"%char.

Definition chars (s : string) : list ascii := list_ascii_of_string s.
Arguments chars s%_string.
Definition str_of (l : list ascii) : string := string_of_list_ascii l.

(** *** dict operations *)

Fixpoint dict_get (k : string) (m : list (string * json)) : option json :=
  match m with
  | [] => None
  | (k', v) :: rest => if String.eqb k k' then Some v else dict_get k rest
  end.

(** [d.get(k, default)] *)
Definition dict_get_default (k : string) (default : json)
  (m : list (string * json)) : json :=
  match dict_get k m with
  | Some v => v
  | None => default
  end.

(** [k in d] *)
Definition dict_has (k : string) (m : list (string * json)) : bool :=
  match dict_get k m with
  | Some _ => true
  | None => false
  end.

(** [d[k] = v]: an existing key keeps its place, a new key goes last. *)
Fixpoint dict_set (k : string) (v : json) (m : list (string * json))
  : list (string * json) :=
  match m with
  | [] => [(k, v)]
  | (k', v') :: rest =>
      if String.eqb k k' then (k', v) :: rest
      else (k', v') :: dict_set k v rest
  end.


(** *** str operations *)

(** [sep.join(parts)] *)
Fixpoint join (sep : string) (parts : list string) : string :=
  match parts with
  | [] => ""
  | [p] => p
  | p :: rest => p ++ sep ++ join sep rest
  end.

Fixpoint prefixb (p s : list ascii) : bool :=
  match p, s with
  | [], _ => true
  | a :: p', b :: s' => Ascii.eqb a b && prefixb p' s'
  | _ :: _, [] => false
  end.

(** [needle in hay] on the characters of two strings *)
Fixpoint infixb (needle hay : list ascii) : bool :=
  prefixb needle hay ||
  match hay with
  | [] => false
  | _ :: hay' => infixb needle hay'
  end.

Definition contains (needle hay : string) : bool :=
  infixb (chars needle) (chars hay).

Definition is_upper (c : ascii) : bool :=
  (65 <=? N_of_ascii c)%N && (N_of_ascii c <=? 90)%N.

Definition lower_ascii (c : ascii) : ascii :=
  if is_upper c then ascii_of_N (N_of_ascii c + 32) else c.

(** [s.lower()] on UTF-8 bytes.  ASCII capitals are lowered.  Two other
    code points have a lowercase form that contains an ASCII letter, and
    are lowered too: U+212A KELVIN SIGN (to k) and U+0130 (to i followed
    by U+0307).  The remaining cased code points map to code points
    outside ASCII; they are left as they are, which no test against an
    ASCII keyword can observe. *)
Fixpoint lower_chars (s : list ascii) : list ascii :=
  match s with
  | [] => []
  | c :: r =>
      match r with
      | c1 :: ((c2 :: r2) as r1) =>
          if Ascii.eqb c "226" && Ascii.eqb c1 "132" && Ascii.eqb c2 "170"
          then "k"%char :: lower_chars r2
          else if Ascii.eqb c "196" && Ascii.eqb c1 "176"
          then "i"%char :: "204"%char :: "135"%char :: lower_chars r1
          else lower_ascii c :: lower_chars r
      | [c1] =>
          if Ascii.eqb c "196" && Ascii.eqb c1 "176"
          then ["i"%char; "204"%char; "135"%char]
          else lower_ascii c :: lower_chars r
      | [] => [lower_ascii c]
      end
  end.

Definition lower (s : string) : string := str_of (lower_chars (chars s)).

(** *** Decimal numerals *)

Fixpoint uint_chars (u : Decimal.uint) : list ascii :=
  match u with
  | Decimal.Nil => []
  | Decimal.D0 u' => "0"%char :: uint_chars u'
  | Decimal.D1 u' => "1"%char :: uint_chars u'
  | Decimal.D2 u' => "2"%char :: uint_chars u'
  | Decimal.D3 u' => "3"%char :: uint_chars u'
  | Decimal.D4 u' => "4"%char :: uint_chars u'
  | Decimal.D5 u' => "5"%char :: uint_chars u'
  | Decimal.D6 u' => "6"%char :: uint_chars u'
  | Decimal.D7 u' => "7"%char :: uint_chars u'
  | Decimal.D8 u' => "8"%char :: uint_chars u'
  | Decimal.D9 u' => "9"%char :: uint_chars u'
  end.

(** [str(n)] for an int *)
Definition int_chars (z : Z) : list ascii :=
  match Z.to_int z with
  | Decimal.Pos u => uint_chars u
  | Decimal.Neg u => "-"%char :: uint_chars u
  end.

(** *** Truth value *)

Definition is_digit (c : ascii) : bool :=
  (48 <=? N_of_ascii c)%N && (N_of_ascii c <=? 57)%N.

(** A float literal denotes zero when its mantissa has no digit other
    than 0 (rounding of the literal to a double is not modelled). *)
Fixpoint mantissa_is_zero (s : list ascii) : bool :=
  match s with
  | [] => true
  | c :: r =>
      if Ascii.eqb c "e" || Ascii.eqb c "E" then true
      else if is_digit c && negb (Ascii.eqb c "0") then false
      else if Ascii.eqb c "N" || Ascii.eqb c "I" then false
      else mantissa_is_zero r
  end.

(** [bool(v)] *)
Definition truthy (v : json) : bool :=
  match v with
  | JNull => false
  | JBool b => b
  | JInt z => negb (Z.eqb z 0)
  | JFloat lex => negb (mantissa_is_zero (chars lex))
  | JStr s => negb (String.eqb s "")
  | JList l => match l with [] => false | _ => true end
  | JDict m => match m with [] => false | _ => true end
  end.

(** *** [repr] and [str] *)

Definition hex_digit (n : N) : ascii :=
  if (n <? 10)%N then ascii_of_N (48 + n) else ascii_of_N (87 + n).

(** [repr] of one character of a str: the quote in use and the backslash
    are escaped, control characters are written [\n], [\r], [\t] or
    [\xNN]; bytes of code points outside ASCII are kept. *)
Definition repr_char (q c : ascii) : list ascii :=
  if Ascii.eqb c q then [backslash; c]
  else if Ascii.eqb c backslash then [backslash; backslash]
  else if Ascii.eqb c newline then [backslash; "n"%char]
  else if Ascii.eqb c "013" then [backslash; "r"%char]
  else if Ascii.eqb c "009" then [backslash; "t"%char]
  else if (N_of_ascii c <? 32)%N || Ascii.eqb c "127" then
    [backslash; "x"%char; hex_digit (N_of_ascii c / 16);
     hex_digit (N_of_ascii c mod 16)]
  else [c].

Definition has_char (c : ascii) (s : list ascii) : bool :=
  existsb (Ascii.eqb c) s.

(** [repr(s)]: single quotes, unless the text has a single quote and no
    double quote. *)
Definition repr_str (s : string) : list ascii :=
  let cs := chars s in
  let q := if has_char squote cs && negb (has_char dquote cs)
           then dquote else squote in
  q :: flat_map (repr_char q) cs ++ [q].

Fixpoint sep_by (sep : list ascii) (parts : list (list ascii)) : list ascii :=
  match parts with
  | [] => []
  | [p] => p
  | p :: rest => p ++ sep ++ sep_by sep rest
  end.

Fixpoint repr_chars (v : json) : list ascii :=
  match v with
  | JNull => chars "None"
  | JBool true => chars "True"
  | JBool false => chars "False"
  | JInt z => int_chars z
  | JFloat lex => chars lex
  | JStr s => repr_str s
  | JList l => "["%char :: sep_by (chars ", ") (map repr_chars l) ++ ["]"%char]
  | JDict m =>
      "{"%char ::
      sep_by (chars ", ")
        (map (fun kv => repr_str (fst kv) ++ chars ": " ++ repr_chars (snd kv)) m)
      ++ ["}"%char]
  end.

(** [str(v)], as an f-string placeholder renders it *)
Definition py_str (v : json) : string :=
  match v with
  | JStr s => s
  | _ => str_of (repr_chars v)
  end.

End Py.
Export Py.

(* ================================================================= *)
(** ** The [json] module of the Python standard library

    [json.loads] and [json.dumps] are library code.  They are modelled
    here on the JSON grammar the library implements: literals, numbers,
    strings with their escapes, arrays and objects, with the library's
    whitespace and its last-binding-wins rule for repeated keys.  The
    message of a [JSONDecodeError] is given without the position that
    the library appends to it.  [dumps] writes bytes outside ASCII
    unescaped. *)

Module Json.

Local Open Scope char_scope.

Definition is_ws (c : ascii) : bool :=
  Ascii.eqb c " " || Ascii.eqb c "009" || Ascii.eqb c "010" || Ascii.eqb c "013".

Fixpoint skip_ws (s : list ascii) : list ascii :=
  match s with
  | c :: r => if is_ws c then skip_ws r else s
  | [] => []
  end.

(** **** Strings *)

Definition escape_char (c : ascii) : list ascii :=
  if Ascii.eqb c dquote then [backslash; dquote]
  else if Ascii.eqb c backslash then [backslash; backslash]
  else if Ascii.eqb c "010" then [backslash; "n"]
  else if Ascii.eqb c "013" then [backslash; "r"]
  else if Ascii.eqb c "009" then [backslash; "t"]
  else if Ascii.eqb c "008" then [backslash; "b"]
  else if Ascii.eqb c "012" then [backslash; "f"]
  else if (N_of_ascii c <? 32)%N then
    [backslash; "u"; "0"; "0"; hex_digit (N_of_ascii c / 16);
     hex_digit (N_of_ascii c mod 16)]
  else [c].

Definition dumps_str (s : string) : list ascii :=
  dquote :: flat_map escape_char (chars s) ++ [dquote].

Definition hex_value (c : ascii) : option N :=
  let n := N_of_ascii c in
  if is_digit c then Some (n - 48)%N
  else if (97 <=? n)%N && (n <=? 102)%N then Some (n - 87)%N
  else if (65 <=? n)%N && (n <=? 70)%N then Some (n - 55)%N
  else None.

Definition hex4 (a b c d : ascii) : option N :=
  match hex_value a, hex_value b, hex_value c, hex_value d with
  | Some x, Some y, Some z, Some w => Some (((x * 16 + y) * 16 + z) * 16 + w)%N
  | _, _, _, _ => None
  end.

(** UTF-8 bytes of a code point (a lone surrogate gets the three-byte
    form). *)
Definition utf8 (n : N) : list ascii :=
  if (n <? 128)%N then [ascii_of_N n]
  else if (n <? 2048)%N then
    [ascii_of_N (192 + n / 64); ascii_of_N (128 + n mod 64)]
  else if (n <? 65536)%N then
    [ascii_of_N (224 + n / 4096); ascii_of_N (128 + (n / 64) mod 64);
     ascii_of_N (128 + n mod 64)]
  else
    [ascii_of_N (240 + n / 262144); ascii_of_N (128 + (n / 4096) mod 64);
     ascii_of_N (128 + (n / 64) mod 64); ascii_of_N (128 + n mod 64)].

Definition unescape (e : ascii) : option ascii :=
  if Ascii.eqb e dquote then Some dquote
  else if Ascii.eqb e backslash then Some backslash
  else if Ascii.eqb e "/" then Some "/"
  else if Ascii.eqb e "b" then Some "008"
  else if Ascii.eqb e "f" then Some "012"
  else if Ascii.eqb e "n" then Some "010"
  else if Ascii.eqb e "r" then Some "013"
  else if Ascii.eqb e "t" then Some "009"
  else None.

Definition is_high_surrogate (n : N) : bool := (55296 <=? n)%N && (n <=? 56319)%N.
Definition is_low_surrogate (n : N) : bool := (56320 <=? n)%N && (n <=? 57343)%N.

(** The low half of a surrogate pair, when the input goes on with one. *)
Definition low_surrogate_ahead (s : list ascii) : option (N * list ascii) :=
  match s with
  | b :: u :: a1 :: a2 :: a3 :: a4 :: r =>
      if Ascii.eqb b backslash && Ascii.eqb u "u" then
        match hex4 a1 a2 a3 a4 with
        | Some n => if is_low_surrogate n then Some (n, r) else None
        | None => None
        end
      else None
  | _ => None
  end.

(** [scanstring], from the character after the opening quote; [acc] holds
    the characters read so far, last first. *)
Fixpoint scan_string (s : list ascii) (acc : list ascii)
  : outcome (string * list ascii) :=
  match s with
  | [] => Raise "Unterminated string starting at"
  | c :: r =>
      if Ascii.eqb c dquote then Ret (str_of (rev acc), r)
      else if Ascii.eqb c backslash then
        match r with
        | [] => Raise "Unterminated string starting at"
        | e :: r1 =>
            if Ascii.eqb e "u" then
              match r1 with
              | a1 :: a2 :: a3 :: a4 :: r2 =>
                  match hex4 a1 a2 a3 a4 with
                  | Some n =>
                      if is_high_surrogate n then
                        match r2 with
                        | b :: u :: b1 :: b2 :: b3 :: b4 :: r3 =>
                            match low_surrogate_ahead r2 with
                            | Some (n2, _) =>
                                scan_string r3
                                  (rev (utf8 (65536 + (n - 55296) * 1024
                                              + (n2 - 56320))) ++ acc)
                            | None => scan_string r2 (rev (utf8 n) ++ acc)
                            end
                        | _ => scan_string r2 (rev (utf8 n) ++ acc)
                        end
                      else scan_string r2 (rev (utf8 n) ++ acc)
                  | None => Raise "Invalid \uXXXX escape"
                  end
              | _ => Raise "Invalid \uXXXX escape"
              end
            else
              match unescape e with
              | Some ch => scan_string r1 (ch :: acc)
              | None => Raise "Invalid \escape"
              end
        end
      else if (N_of_ascii c <? 32)%N then Raise "Invalid control character at"
      else scan_string r (c :: acc)
  end.

(** **** Numbers *)

Definition digit_cons (c : ascii) : option (Decimal.uint -> Decimal.uint) :=
  if Ascii.eqb c "0" then Some Decimal.D0
  else if Ascii.eqb c "1" then Some Decimal.D1
  else if Ascii.eqb c "2" then Some Decimal.D2
  else if Ascii.eqb c "3" then Some Decimal.D3
  else if Ascii.eqb c "4" then Some Decimal.D4
  else if Ascii.eqb c "5" then Some Decimal.D5
  else if Ascii.eqb c "6" then Some Decimal.D6
  else if Ascii.eqb c "7" then Some Decimal.D7
  else if Ascii.eqb c "8" then Some Decimal.D8
  else if Ascii.eqb c "9" then Some Decimal.D9
  else None.

(** The longest run of digits at the head of the input. *)
Fixpoint scan_digits (s : list ascii) : Decimal.uint * list ascii :=
  match s with
  | c :: r =>
      match digit_cons c with
      | Some d => let (u, r') := scan_digits r in (d u, r')
      | None => (Decimal.Nil, s)
      end
  | [] => (Decimal.Nil, [])
  end.

(** The integer part [0|[1-9][0-9]*] of a number. *)
Definition scan_int_part (s : list ascii) : option (Decimal.uint * list ascii) :=
  match s with
  | c :: r =>
      if Ascii.eqb c "0" then Some (Decimal.D0 Decimal.Nil, r)
      else if is_digit c then Some (scan_digits s)
      else None
  | [] => None
  end.

(** The fraction [.[0-9]+], when there is one. *)
Definition scan_frac (s : list ascii) : option (Decimal.uint * list ascii) :=
  match s with
  | p :: ((d :: _) as r) =>
      if Ascii.eqb p "." && is_digit d then Some (scan_digits r) else None
  | _ => None
  end.

(** The exponent [[eE][-+]?[0-9]+], when there is one. *)
Definition scan_exp (s : list ascii) : option (list ascii * list ascii) :=
  match s with
  | e :: r =>
      if Ascii.eqb e "e" || Ascii.eqb e "E" then
        match r with
        | sg :: ((d :: _) as r1) =>
            if (Ascii.eqb sg "-" || Ascii.eqb sg "+") && is_digit d then
              let (u, r') := scan_digits r1 in
              Some (e :: sg :: uint_chars u, r')
            else if is_digit sg then
              let (u, r') := scan_digits r in Some (e :: uint_chars u, r')
            else None
        | [d] =>
            if is_digit d then
              let (u, r') := scan_digits r in Some (e :: uint_chars u, r')
            else None
        | [] => None
        end
      else None
  | [] => None
  end.

(** The digits of a number, after its sign. *)
Definition scan_magnitude (neg : bool) (s1 : list ascii)
  : option (json * list ascii) :=
  match scan_int_part s1 with
  | None => None
  | Some (u, r) =>
      let sign := if neg then ["-"] else [] in
      match scan_frac r, scan_exp match scan_frac r with
                                  | Some (_, r1) => r1
                                  | None => r
                                  end with
      | None, None =>
          Some (JInt (Z.of_int (if neg then Decimal.Neg u else Decimal.Pos u)), r)
      | Some (f, r1), None =>
          Some (JFloat (str_of (sign ++ uint_chars u ++ "." :: uint_chars f)), r1)
      | None, Some (ex, r2) =>
          Some (JFloat (str_of (sign ++ uint_chars u ++ ex)), r2)
      | Some (f, _), Some (ex, r2) =>
          Some (JFloat (str_of (sign ++ uint_chars u ++ "." :: uint_chars f ++ ex)), r2)
      end
  end.

Definition scan_number (s : list ascii) : option (json * list ascii) :=
  match s with
  | c :: r => if Ascii.eqb c "-" then scan_magnitude true r
              else scan_magnitude false s
  | [] => None
  end.

(** **** Values *)

Definition starts_with (p : string) (s : list ascii) : option (list ascii) :=
  if prefixb (chars p) s then Some (skipn (List.length (chars p)) s) else None.
Arguments starts_with p%_string s.

(** [scan_once]: one value at the head of the input, and what follows it.
    [parse_array] and [parse_object] read the rest of an array or object
    whose first element or key starts the input.  The fuel bounds the
    number of values read. *)
Fixpoint parse_value (fuel : nat) (s : list ascii) : outcome (json * list ascii) :=
  match fuel with
  | O => Raise "maximum recursion depth exceeded while decoding a JSON document"
  | S f =>
      match s with
      | [] => Raise "Expecting value"
      | c :: r =>
          if Ascii.eqb c dquote then
            match scan_string r [] with
            | Ret (t, r') => Ret (JStr t, r')
            | Raise e => Raise e
            end
          else if Ascii.eqb c "{" then
            match skip_ws r with
            | c1 :: r1 =>
                if Ascii.eqb c1 "}" then Ret (JDict [], r1)
                else if Ascii.eqb c1 dquote then parse_object f r1 []
                else Raise "Expecting property name enclosed in double quotes"
            | [] => Raise "Expecting property name enclosed in double quotes"
            end
          else if Ascii.eqb c "[" then
            match skip_ws r with
            | c1 :: r1 =>
                if Ascii.eqb c1 "]" then Ret (JList [], r1)
                else parse_array f (c1 :: r1) []
            | [] => Raise "Expecting value"
            end
          else
            match starts_with "null" s, starts_with "true" s,
                  starts_with "false" s with
            | Some r', _, _ => Ret (JNull, r')
            | _, Some r', _ => Ret (JBool true, r')
            | _, _, Some r' => Ret (JBool false, r')
            | _, _, _ =>
                match scan_number s with
                | Some res => Ret res
                | None =>
                    match starts_with "NaN" s, starts_with "Infinity" s,
                          starts_with "-Infinity" s with
                    | Some r', _, _ => Ret (JFloat "NaN", r')
                    | _, Some r', _ => Ret (JFloat "Infinity", r')
                    | _, _, Some r' => Ret (JFloat "-Infinity", r')
                    | _, _, _ => Raise "Expecting value"
                    end
                end
            end
      end
  end

with parse_array (fuel : nat) (s : list ascii) (acc : list json)
  : outcome (json * list ascii) :=
  match fuel with
  | O => Raise "maximum recursion depth exceeded while decoding a JSON document"
  | S f =>
      match parse_value f s with
      | Raise e => Raise e
      | Ret (v, r) =>
          match skip_ws r with
          | c :: r1 =>
              if Ascii.eqb c "]" then Ret (JList (acc ++ [v]), r1)
              else if Ascii.eqb c "," then parse_array f (skip_ws r1) (acc ++ [v])
              else Raise "Expecting ',' delimiter"
          | [] => Raise "Expecting ',' delimiter"
          end
      end
  end

with parse_object (fuel : nat) (s : list ascii) (acc : list (string * json))
  : outcome (json * list ascii) :=
  match fuel with
  | O => Raise "maximum recursion depth exceeded while decoding a JSON document"
  | S f =>
      match scan_string s [] with
      | Raise e => Raise e
      | Ret (k, r) =>
          match skip_ws r with
          | c :: r1 =>
              if Ascii.eqb c ":" then
                match parse_value f (skip_ws r1) with
                | Raise e => Raise e
                | Ret (v, r2) =>
                    match skip_ws r2 with
                    | c2 :: r3 =>
                        if Ascii.eqb c2 "}" then Ret (JDict (dict_set k v acc), r3)
                        else if Ascii.eqb c2 "," then
                          match skip_ws r3 with
                          | c3 :: r4 =>
                              if Ascii.eqb c3 dquote
                              then parse_object f r4 (dict_set k v acc)
                              else Raise "Expecting property name enclosed in double quotes"
                          | [] => Raise "Expecting property name enclosed in double quotes"
                          end
                        else Raise "Expecting ',' delimiter"
                    | [] => Raise "Expecting ',' delimiter"
                    end
                end
              else Raise "Expecting ':' delimiter"
          | [] => Raise "Expecting ':' delimiter"
          end
      end
  end.

(** [json.loads(s)] for a str [s]. *)
Definition loads (s : string) : outcome json :=
  let cs := chars s in
  if prefixb ["239"; "187"; "191"] cs
  then Raise "Unexpected UTF-8 BOM (decode using utf-8-sig)"
  else
    match parse_value (S (List.length cs)) (skip_ws cs) with
    | Raise e => Raise e
    | Ret (v, r) =>
        match skip_ws r with
        | [] => Ret v
        | _ :: _ => Raise "Extra data"
        end
    end.

(** [json.dumps(v)]; [compact] selects the separators [(",", ":")]
    instead of the default [(", ", ": ")]. *)
Fixpoint dumps_chars (compact : bool) (v : json) : list ascii :=
  let item_sep := if compact then [","] else [","; " "] in
  let key_sep := if compact then [":"] else [":"; " "] in
  match v with
  | JNull => chars "null"
  | JBool true => chars "true"
  | JBool false => chars "false"
  | JInt z => int_chars z
  | JFloat lex => chars lex
  | JStr t => dumps_str t
  | JList l => "[" :: sep_by item_sep (map (dumps_chars compact) l) ++ ["]"]
  | JDict m =>
      "{" ::
      sep_by item_sep
        (map (fun kv => dumps_str (fst kv) ++ key_sep
                        ++ dumps_chars compact (snd kv)) m)
      ++ ["}"]
  end.

Definition dumps (compact : bool) (v : json) : string :=
  str_of (dumps_chars compact v).

End Json.

(* ================================================================= *)
(** ** Effects

    Code that talks to the outside world is a function from the log of
    the calls made so far to an outcome and the extended log. *)

Module Eff.

Definition M (S A : Type) : Type := S -> outcome A * S.

Definition ret {S A} (a : A) : M S A := fun s => (Ret a, s).

Definition bind {S A B} (m : M S A) (k : A -> M S B) : M S B :=
  fun s =>
    match m s with
    | (Ret a, s') => k a s'
    | (Raise e, s') => (Raise e, s')
    end.

(** [try: body / except Exception as e: handler e] *)
Definition try_except {S A} (body : M S A) (handler : exn -> M S A) : M S A :=
  fun s =>
    match body s with
    | (Ret a, s') => (Ret a, s')
    | (Raise e, s') => handler e s'
    end.

(** An expression that may raise, evaluated inside a computation. *)
Definition lift {S A} (o : outcome A) : M S A := fun s => (o, s).

End Eff.
Import Eff.

Declare Scope eff_scope.
Delimit Scope eff_scope with eff.
Notation "x <- m ;; k" := (bind m (fun x => k))
  (at level 61, m at next level, right associativity) : eff_scope.
Notation "m ;;; k" := (bind m (fun _ => k))
  (at level 61, right associativity) : eff_scope.

Definition nl : string := String newline "".

(* ================================================================= *)
(** ** hk_weather_mcp_server.py *)

Module Server.

(** The browser engine and the process around one fetch.  Each field is
    the answer to one call of the fetch; [None] is a normal return. *)
Record browser : Type := {
  (** [NovaAct(starting_page=.., headless=..)] and its [__enter__] *)
  nova_start : string -> bool -> option exn;
  (** [nova_act.act(instruction).response] *)
  nova_act_response : string -> outcome json;
  (** [nova_act.page.screenshot(path=..)] *)
  page_screenshot : string -> option exn;
  (** [NovaAct.__exit__], which stops the browser *)
  nova_stop : option exn;
  (** [tempfile.gettempdir()] *)
  gettempdir : string;
  (** [uuid.uuid4().hex[:8]] *)
  uuid_hex8 : string;
  (** [thread_pool.submit(..)] *)
  pool_submit : option exn
}.

Inductive event : Type :=
| EStart (starting_page : string) (headless : bool)
| EAct (instruction : string)
| EScreenshot (path : string)
| EStop
| ESubmit.

Definition log : Type := list event.

Definition signal (ev : event) (answer : option exn) : M log unit :=
  fun l =>
    match answer with
    | None => (Ret tt, l ++ [ev])
    | Some e => (Raise e, l ++ [ev])
    end.

(** [os.path.join(a, b)] (POSIX) *)
Definition path_join (a b : string) : string :=
  if prefixb ["/"%char] (chars b) then b
  else if String.eqb a "" || prefixb ["/"%char] (rev (chars a)) then a ++ b
  else a ++ "/" ++ b.

Section WithBrowser.

Variable b : browser.

Local Open Scope eff_scope.

(** [with NovaAct(starting_page=.., headless=..) as nova_act: body].
    [__exit__] runs on every way out of the body and does not swallow an
    exception of the body; an exception of [__exit__] itself replaces the
    result. *)
Definition with_NovaAct {A} (starting_page : string) (headless : bool)
  (body : M log A) : M log A :=
  signal (EStart starting_page headless) (nova_start b starting_page headless) ;;;
  (fun l =>
     match body l with
     | (res, l1) =>
         match signal EStop (nova_stop b) l1 with
         | (Ret _, l2) => (res, l2)
         | (Raise e, l2) => (Raise e, l2)
         end
     end).

Definition act (instruction : string) : M log json :=
  fun l => (nova_act_response b instruction, l ++ [EAct instruction]).

Definition capture_screenshot (name : string) : M log (list (string * json)) :=
  try_except
    (let temp_dir := gettempdir b in
     let screenshot_path :=
       path_join temp_dir (name ++ "_" ++ uuid_hex8 b ++ ".png") in
     signal (EScreenshot screenshot_path) (page_screenshot b screenshot_path) ;;;
     ret [("screenshot_path", JStr screenshot_path); ("success", JBool true)])
    (fun e => ret [("error", JStr e); ("success", JBool false)]).

(** [screenshot_result.get("screenshot_path") if screenshot_result else None] *)
Definition screenshot_path_of (screenshot_result : option (list (string * json)))
  : json :=
  match screenshot_result with
  | Some d => if truthy (JDict d) then dict_get_default "screenshot_path" JNull d
              else JNull
  | None => JNull
  end.

Definition run_nova_act_current_weather (headless take_screenshot : bool)
  : M log json :=
  try_except
    (with_NovaAct "https://www.hko.gov.hk/en/wxinfo/currwx/current.htm" headless
       (result <- act "Read and extract the current weather information for Hong Kong including temperature, humidity, and weather conditions" ;;
        screenshot_result <-
          (if take_screenshot
           then r <- capture_screenshot "hk_current_weather" ;; ret (Some r)
           else ret None) ;;
        ret (JDict [("success", JBool true);
                    ("message", JStr "Successfully retrieved current weather in Hong Kong");
                    ("weather_data", result);
                    ("screenshot_path", screenshot_path_of screenshot_result)])))
    (fun e =>
       ret (JDict [("success", JBool false);
                   ("message", JStr ("Error retrieving current weather: " ++ e));
                   ("error", JStr e)])).

Definition run_nova_act_forecast (days : Z) (headless take_screenshot : bool)
  : M log json :=
  try_except
    (with_NovaAct "https://www.hko.gov.hk/en/wxinfo/currwx/fnd.htm" headless
       (result <- act "Read and extract the complete 9-day weather forecast information visible on this page" ;;
        screenshot_result <-
          (if take_screenshot
           then r <- capture_screenshot "hk_forecast" ;; ret (Some r)
           else ret None) ;;
        ret (JDict [("success", JBool true);
                    ("message", JStr ("Successfully retrieved "
                                      ++ str_of (int_chars days)
                                      ++ "-day forecast for Hong Kong"));
                    ("forecast_data", result);
                    ("screenshot_path", screenshot_path_of screenshot_result)])))
    (fun e =>
       ret (JDict [("success", JBool false);
                   ("message", JStr ("Error retrieving forecast: " ++ e));
                   ("error", JStr e)])).

Definition run_nova_act_warnings (headless take_screenshot : bool)
  : M log json :=
  try_except
    (with_NovaAct "https://www.hko.gov.hk/en/wxinfo/currwx/warning.htm" headless
       (result <- act "Read and extract any current weather warnings or alerts for Hong Kong" ;;
        screenshot_result <-
          (if take_screenshot
           then r <- capture_screenshot "hk_warnings" ;; ret (Some r)
           else ret None) ;;
        ret (JDict [("success", JBool true);
                    ("message", JStr "Successfully retrieved weather warnings for Hong Kong");
                    ("warnings_data", result);
                    ("screenshot_path", screenshot_path_of screenshot_result)])))
    (fun e =>
       ret (JDict [("success", JBool false);
                   ("message", JStr ("Error retrieving weather warnings: " ++ e));
                   ("error", JStr e)])).

(** [future = thread_pool.submit(fn, ..); result = future.result()]: the
    caller waits for the worker, so the call is sequential. *)
Definition in_thread_pool {A} (fn : M log A) : M log A :=
  signal ESubmit (pool_submit b) ;;; fn.

Definition get_hk_current_weather (headless take_screenshot : bool) : M log json :=
  try_except
    (result <- in_thread_pool (run_nova_act_current_weather headless take_screenshot) ;;
     ret result)
    (fun e =>
       let error_data :=
         JDict [("success", JBool false);
                ("message", JStr ("Error retrieving current weather: " ++ e));
                ("error", JStr e)] in
       ret error_data).

Definition get_hk_forecast (days : Z) (headless take_screenshot : bool) : M log json :=
  try_except
    (result <- in_thread_pool (run_nova_act_forecast days headless take_screenshot) ;;
     ret result)
    (fun e =>
       let error_data :=
         JDict [("success", JBool false);
                ("message", JStr ("Error retrieving forecast: " ++ e));
                ("error", JStr e)] in
       ret error_data).

Definition get_hk_weather_warnings (headless take_screenshot : bool) : M log json :=
  try_except
    (result <- in_thread_pool (run_nova_act_warnings headless take_screenshot) ;;
     ret result)
    (fun e =>
       let error_data :=
         JDict [("success", JBool false);
                ("message", JStr ("Error retrieving weather warnings: " ++ e));
                ("error", JStr e)] in
       ret error_data).

End WithBrowser.

End Server.

(* ================================================================= *)
(** ** The tool session and the model endpoint, as the two clients see
       them *)

Module Client.

(** What [session.call_tool] returns.  [content = None] is an object
    without a [content] attribute, [item_text = None] a content element
    without a [text] attribute (an image, say), [value = None] an object
    without a [value] attribute. *)
Record content_item : Type := { item_text : option string }.

Record tool_response : Type := {
  content : option (list content_item);
  value : option json
}.

(** A content block of a Bedrock message is a tagged union: text, a tool
    request, a tool result, or another member (image, document, ...),
    which has neither a ["text"] nor a ["toolUse"] key. *)
Record tool_use : Type := {
  name : string;
  input : json;
  toolUseId : string
}.

Inductive content_block : Type :=
| BText (text : string)
| BToolUse (toolUse : tool_use)
| BToolResult (toolUseId : string) (result_json : json)
| BOther.

Record message : Type := {
  role : string;
  blocks : list content_block
}.

Record tool_spec : Type := {
  spec_name : string;
  description : string;
  input_schema : json
}.

(** The remote parties.  The first argument is the number of earlier
    calls of the same kind: the same request may be answered differently
    each time.  [converse] stands for
    [bedrock_runtime.converse(..)["output"]["message"]]; the model
    identifier, inference settings, tool list and system prompt are the
    same in every request and are not recorded. *)
Record services : Type := {
  converse : nat -> list message -> outcome message;
  call_tool : nat -> string -> json -> outcome tool_response
}.

Inductive event : Type :=
| EConverse (messages : list message) (answer : outcome message)
| ECallTool (tool_name : string) (arguments : json)
            (answer : outcome tool_response).

Definition log : Type := list event.

Definition is_converse (ev : event) : bool :=
  match ev with EConverse _ _ => true | ECallTool _ _ _ => false end.

Definition is_call_tool (ev : event) : bool :=
  match ev with EConverse _ _ => false | ECallTool _ _ _ => true end.

Definition count_converse (l : log) : nat := List.length (filter is_converse l).
Definition count_call_tool (l : log) : nat := List.length (filter is_call_tool l).

Definition bedrock_converse (env : services) (messages : list message)
  : M log message :=
  fun l =>
    let answer := converse env (count_converse l) messages in
    (answer, l ++ [EConverse messages answer]).

Definition session_call_tool (env : services) (tool_name : string)
  (arguments : json) : M log tool_response :=
  fun l =>
    let answer := call_tool env (count_call_tool l) tool_name arguments in
    (answer, l ++ [ECallTool tool_name arguments answer]).

(** [d.get(key, default)] on a value known to be a dict. *)
Definition get (v : json) (key : string) (default : json) : json :=
  match v with
  | JDict m => dict_get_default key default m
  | _ => default
  end.

Definition is_dict (v : json) : bool :=
  match v with JDict _ => true | _ => false end.

(** [isinstance(v, dict) and v.get("success")] *)
Definition reports_success (v : json) : bool :=
  is_dict v && truthy (get v "success" JNull).

(** [v.get("error", "") if isinstance(v, dict) else str(v)] *)
Definition error_msg_of (v : json) : json :=
  if is_dict v then get v "error" (JStr "") else JStr (py_str v).

(** The arguments both keyword dispatchers pass to every tool. *)
Definition default_arguments : json :=
  JDict [("headless", JBool false); ("take_screenshot", JBool true)].

End Client.
Export Client.

(* ================================================================= *)
(** ** agentic_weather_assistant.py *)

Module AgenticWeatherAssistant.

Local Open Scope string_scope.

Record assistant : Type := { available_tools : list tool_spec }.

Definition extract_response_data (tool_response : tool_response) : json :=
  let other_approaches : outcome json :=
    match value tool_response with
    | Some v => Ret v
    | None =>
        Ret (JDict [("success", JBool false);
                    ("error", JStr "Could not extract response data")])
    end in
  let body : outcome json :=
    match content tool_response with
    | Some (text_content :: _) =>
        match item_text text_content with
        | Some t => if negb (String.eqb t "") then Json.loads t
                    else other_approaches
        | None => other_approaches
        end
    | Some [] | None => other_approaches
    end in
  match body with
  | Ret v => v
  | Raise e => JDict [("success", JBool false); ("error", JStr e)]
  end.

Section WithServices.

Variable env : services.

Local Open Scope eff_scope.

Definition process_query_direct (query : string) : M log string :=
  try_except
    (if contains "current" (lower query) || contains "now" (lower query)
        || contains "today" (lower query)
     then
       tool_response <-
         session_call_tool env "get_hk_current_weather" default_arguments ;;
       let response_data := extract_response_data tool_response in
       if reports_success response_data then
         let weather_data :=
           get response_data "weather_data" (JStr "No weather data available") in
         let screenshot_path :=
           get response_data "screenshot_path" (JStr "No screenshot available") in
         ret ("Current Weather in Hong Kong:" ++ nl ++ nl
              ++ py_str weather_data ++ nl ++ nl
              ++ "A screenshot has been saved to: " ++ py_str screenshot_path)
       else
         let error_msg := error_msg_of response_data in
         ret ("Error retrieving current weather: " ++ py_str error_msg)
     else if contains "forecast" (lower query) || contains "week" (lower query)
             || contains "days" (lower query) || contains "tomorrow" (lower query)
     then
       tool_response <-
         session_call_tool env "get_hk_forecast" default_arguments ;;
       let response_data := extract_response_data tool_response in
       if reports_success response_data then
         let forecast_data :=
           get response_data "forecast_data" (JStr "No forecast data available") in
         let screenshot_path :=
           get response_data "screenshot_path" (JStr "No screenshot available") in
         ret ("9-Day Weather Forecast for Hong Kong:" ++ nl ++ nl
              ++ py_str forecast_data ++ nl ++ nl
              ++ "A screenshot has been saved to: " ++ py_str screenshot_path)
       else
         let error_msg := error_msg_of response_data in
         ret ("Error retrieving forecast: " ++ py_str error_msg)
     else if contains "warning" (lower query) || contains "alert" (lower query)
     then
       tool_response <-
         session_call_tool env "get_hk_weather_warnings" default_arguments ;;
       let response_data := extract_response_data tool_response in
       if reports_success response_data then
         let warnings_data :=
           get response_data "warnings_data" (JStr "No warnings data available") in
         let screenshot_path :=
           get response_data "screenshot_path" (JStr "No screenshot available") in
         ret ("Weather Warnings for Hong Kong:" ++ nl ++ nl
              ++ py_str warnings_data ++ nl ++ nl
              ++ "A screenshot has been saved to: " ++ py_str screenshot_path)
       else
         let error_msg := error_msg_of response_data in
         ret ("Error retrieving weather warnings: " ++ py_str error_msg)
     else
       tool_response <-
         session_call_tool env "get_hk_current_weather" default_arguments ;;
       let response_data := extract_response_data tool_response in
       if reports_success response_data then
         let weather_data :=
           get response_data "weather_data" (JStr "No weather data available") in
         ret ("Current Weather in Hong Kong:" ++ nl ++ nl ++ py_str weather_data)
       else
         let error_msg := error_msg_of response_data in
         ret ("Error retrieving weather information: " ++ py_str error_msg))
    (fun e => ret ("Error processing query: " ++ e)).

(** The dict handed back to the model for one tool result. *)
Definition result_for_bedrock (tool_name : string) (result_content : json) : json :=
  if is_dict result_content
     && match result_content with JDict m => dict_has "success" m | _ => false end
  then
    if truthy (get result_content "success" JNull) then
      if String.eqb tool_name "get_hk_current_weather" then
        JDict [("result", get result_content "weather_data"
                            (JStr "No weather data available"));
               ("screenshot", get result_content "screenshot_path"
                                (JStr "No screenshot available"))]
      else if String.eqb tool_name "get_hk_forecast" then
        JDict [("result", get result_content "forecast_data"
                            (JStr "No forecast data available"));
               ("screenshot", get result_content "screenshot_path"
                                (JStr "No screenshot available"))]
      else if String.eqb tool_name "get_hk_weather_warnings" then
        JDict [("result", get result_content "warnings_data"
                            (JStr "No warnings data available"));
               ("screenshot", get result_content "screenshot_path"
                                (JStr "No screenshot available"))]
      else JDict [("result", result_content)]
    else JDict [("error", get result_content "error" (JStr "Unknown error"))]
  else JDict [("result", result_content)].

(** [follow_up_response["output"]["message"]["content"][0]["text"]] *)
Definition first_text (follow_up : message) : outcome string :=
  match blocks follow_up with
  | [] => Raise "list index out of range"
  | BText t :: _ => Ret t
  | _ :: _ => Raise "'text'"
  end.

(** The loop over the content blocks of the first reply.  [messages] is
    the list object that every follow-up call is given and that each
    tool round extends. *)
Fixpoint process_blocks (response_message : message)
  (content_blocks : list content_block)
  (final_responses : list string) (messages : list message)
  : M log (list string) :=
  match content_blocks with
  | [] => ret final_responses
  | BText t :: rest =>
      process_blocks response_message rest (final_responses ++ [t])%list messages
  | BToolUse tool_use :: rest =>
      let tool_name := name tool_use in
      let tool_input := input tool_use in
      let tool_use_id := toolUseId tool_use in
      let calling : string := "[Calling tool " ++ tool_name ++ "]" in
      let final_responses := (final_responses ++ [calling])%list in
      tool_result <- session_call_tool env tool_name tool_input ;;
      let result_content := extract_response_data tool_result in
      let tool_result_message :=
        {| role := "user";
           blocks := [BToolResult tool_use_id
                        (result_for_bedrock tool_name result_content)] |} in
      let messages :=
        (messages ++ [response_message; tool_result_message])%list in
      follow_up_response <- bedrock_converse env messages ;;
      follow_up_text <- lift (first_text follow_up_response) ;;
      process_blocks response_message rest
        (final_responses ++ [follow_up_text])%list messages
  | _ :: rest =>
      process_blocks response_message rest final_responses messages
  end.

(** The inner [try] block of [process_query_with_llm]. *)
Definition converse_and_process (query : string) : M log string :=
  let messages := [{| role := "user"; blocks := [BText query] |}] in
  response_message <- bedrock_converse env messages ;;
  final_responses <-
    process_blocks response_message (blocks response_message) [] messages ;;
  ret (join nl final_responses).

Definition process_query_with_llm (self : assistant) (query : string)
  : M log string :=
  try_except
    (match available_tools self with
     | [] => ret "No tools available on the server."
     | _ :: _ =>
         try_except
           (converse_and_process query)
           (fun e => process_query_direct query)
     end)
    (fun e => ret ("Error processing query: " ++ e)).

End WithServices.

End AgenticWeatherAssistant.

(* ================================================================= *)
(** ** hk_weather_mcp_client.py *)

Module HKWeatherMCPClient.

Local Open Scope string_scope.

Definition extract_response_data (tool_response : tool_response) : json :=
  let other_approaches : outcome json :=
    match value tool_response with
    | Some v => Ret v
    | None =>
        Ret (JDict [("success", JBool false);
                    ("error", JStr "Could not extract response data")])
    end in
  let body : outcome json :=
    match content tool_response with
    | Some (text_content :: _) =>
        match item_text text_content with
        | Some t => if negb (String.eqb t "") then Json.loads t
                    else other_approaches
        | None => other_approaches
        end
    | Some [] | None => other_approaches
    end in
  match body with
  | Ret v => v
  | Raise e => JDict [("success", JBool false); ("error", JStr e)]
  end.

(** [json.loads(x)] for an arbitrary value [x] *)
Definition loads_any (x : json) : outcome json :=
  match x with
  | JStr s => Json.loads s
  | _ => Raise "the JSON object must be str, bytes or bytearray"
  end.

(** [key in v] *)
Definition py_in (key : string) (v : json) : outcome bool :=
  match v with
  | JDict m => Ret (dict_has key m)
  | JList l =>
      Ret (existsb (fun x => match x with
                             | JStr s => String.eqb s key
                             | _ => false
                             end) l)
  | JStr s => Ret (contains key s)
  | _ => Raise "argument is not iterable"
  end.

(** [v[key]] for a str [key] *)
Definition py_getitem (v : json) (key : string) : outcome json :=
  match v with
  | JDict m =>
      match dict_get key m with
      | Some x => Ret x
      | None => Raise (str_of (repr_str key))
      end
  | JList _ => Raise "list indices must be integers or slices, not str"
  | JStr _ => Raise "string indices must be integers"
  | _ => Raise "object is not subscriptable"
  end.

(** The items a [for] loop over [v] visits.  A str is visited character
    by character; each item is then a str, which is all the loop below
    can observe of it. *)
Definition py_iter (v : json) : outcome (list json) :=
  match v with
  | JList l => Ret l
  | JDict m => Ret (map (fun kv => JStr (fst kv)) m)
  | JStr s => Ret (map (fun c => JStr (String c "")) (chars s))
  | _ => Raise "object is not iterable"
  end.

(** [day.get(key, default)]; a value without [get] raises. *)
Definition py_get (v : json) (key : string) (default : json) : outcome json :=
  match v with
  | JDict m => Ret (dict_get_default key default m)
  | _ => Raise "object has no attribute 'get'"
  end.

Fixpoint repeat_string (s : string) (n : nat) : string :=
  match n with
  | O => ""
  | S n' => s ++ repeat_string s n'
  end.

(** The body of the loop over the days of a forecast. *)
Fixpoint format_days (days : list json) (formatted_text : string)
  : outcome string :=
  match days with
  | [] => Ret formatted_text
  | day :: rest =>
      match py_getitem day "date" with
      | Raise e => Raise e
      | Ret date =>
          match py_get day "daytime_temperature" (JStr "N/A"),
                py_get day "nighttime_temperature" (JStr "N/A"),
                py_get day "humidity" (JStr "N/A"),
                py_get day "weather" (JStr "N/A") with
          | Ret daytime, Ret nighttime, Ret humidity, Ret weather =>
              format_days rest
                (formatted_text
                 ++ "Date: " ++ py_str date ++ nl
                 ++ "Temperature: " ++ py_str daytime ++ "°C - "
                 ++ py_str nighttime ++ nl
                 ++ "Humidity: " ++ py_str humidity ++ nl
                 ++ "Weather: " ++ py_str weather ++ " chance of rain" ++ nl
                 ++ repeat_string "-" 40 ++ nl)
          | Raise e, _, _, _ => Raise e
          | _, Raise e, _, _ => Raise e
          | _, _, Raise e, _ => Raise e
          | _, _, _, Raise e => Raise e
          end
      end
  end.

Definition format_forecast_data (forecast_data_json : json) : json :=
  let body : outcome json :=
    match loads_any forecast_data_json with
    | Raise e => Raise e
    | Ret forecast_data =>
        match py_in "9-day_weather_forecast" forecast_data with
        | Raise e => Raise e
        | Ret true =>
            match py_getitem forecast_data "9-day_weather_forecast" with
            | Raise e => Raise e
            | Ret days =>
                match py_iter days with
                | Raise e => Raise e
                | Ret items =>
                    match format_days items "" with
                    | Raise e => Raise e
                    | Ret formatted_text => Ret (JStr formatted_text)
                    end
                end
            end
        | Ret false => Ret forecast_data_json
        end
    end in
  match body with
  | Ret v => v
  | Raise _ => forecast_data_json
  end.

Section WithServices.

Variable env : services.

Local Open Scope eff_scope.

Definition process_query (query : string) : M log string :=
  try_except
    (if contains "current" (lower query) || contains "now" (lower query)
        || contains "today" (lower query)
     then
       tool_response <-
         session_call_tool env "get_hk_current_weather" default_arguments ;;
       let response_data := extract_response_data tool_response in
       if reports_success response_data then
         let weather_data :=
           get response_data "weather_data" (JStr "No weather data available") in
         let screenshot_path :=
           get response_data "screenshot_path" (JStr "No screenshot available") in
         ret ("Current Weather in Hong Kong:" ++ nl ++ nl
              ++ py_str weather_data ++ nl ++ nl
              ++ "A screenshot has been saved to: " ++ py_str screenshot_path)
       else
         let error_msg := error_msg_of response_data in
         ret ("Error retrieving current weather: " ++ py_str error_msg)
     else if contains "forecast" (lower query) || contains "week" (lower query)
             || contains "days" (lower query) || contains "tomorrow" (lower query)
     then
       tool_response <-
         session_call_tool env "get_hk_forecast" default_arguments ;;
       let response_data := extract_response_data tool_response in
       if reports_success response_data then
         let forecast_data :=
           get response_data "forecast_data" (JStr "No forecast data available") in
         let screenshot_path :=
           get response_data "screenshot_path" (JStr "No screenshot available") in
         let formatted_forecast := format_forecast_data forecast_data in
         ret ("9-Day Weather Forecast for Hong Kong:" ++ nl ++ nl
              ++ py_str formatted_forecast ++ nl
              ++ "A screenshot has been saved to: " ++ py_str screenshot_path)
       else
         let error_msg := error_msg_of response_data in
         ret ("Error retrieving forecast: " ++ py_str error_msg)
     else if contains "warning" (lower query) || contains "alert" (lower query)
     then
       tool_response <-
         session_call_tool env "get_hk_weather_warnings" default_arguments ;;
       let response_data := extract_response_data tool_response in
       if reports_success response_data then
         let warnings_data :=
           get response_data "warnings_data" (JStr "No warnings data available") in
         let screenshot_path :=
           get response_data "screenshot_path" (JStr "No screenshot available") in
         ret ("Weather Warnings for Hong Kong:" ++ nl ++ nl
              ++ py_str warnings_data ++ nl ++ nl
              ++ "A screenshot has been saved to: " ++ py_str screenshot_path)
       else
         let error_msg := error_msg_of response_data in
         ret ("Error retrieving weather warnings: " ++ py_str error_msg)
     else
       tool_response <-
         session_call_tool env "get_hk_current_weather" default_arguments ;;
       let response_data := extract_response_data tool_response in
       if reports_success response_data then
         let weather_data :=
           get response_data "weather_data" (JStr "No weather data available") in
         ret ("Current Weather in Hong Kong:" ++ nl ++ nl ++ py_str weather_data)
       else
         let error_msg := error_msg_of response_data in
         ret ("Error retrieving weather information: " ++ py_str error_msg))
    (fun e => ret ("Error processing query: " ++ e)).

End WithServices.

End HKWeatherMCPClient.

(* ================================================================= *)
(** ** Vocabulary of the properties *)

(** *** JSON values that [dumps] and [loads] carry faithfully

    The keys of every dict are distinct, as in any Python dict.  A float
    is held by its literal: the literals are the texts that the number
    grammar reads whole as a float. *)

Definition float_literal (lex : string) : bool :=
  match Json.scan_number (chars lex) with
  | Some (JFloat l, []) => String.eqb l lex
  | _ => false
  end.

Fixpoint distinct_keys (m : list (string * json)) : bool :=
  match m with
  | [] => true
  | (k, _) :: rest => negb (dict_has k rest) && distinct_keys rest
  end.

Fixpoint json_ok (v : json) : bool :=
  match v with
  | JFloat lex => float_literal lex
  | JList l => forallb json_ok l
  | JDict m => distinct_keys m && forallb (fun kv => json_ok (snd kv)) m
  | _ => true
  end.

(** The number of values [loads] reads for [v]. *)
Fixpoint size (v : json) : nat :=
  match v with
  | JList l => 2 + list_sum (map size l)
  | JDict m => 2 + list_sum (map (fun kv => size (snd kv)) m)
  | _ => 1
  end.

Section JsonInduction.
Variable P : json -> Prop.
Hypothesis Hnull : P JNull.
Hypothesis Hbool : forall b, P (JBool b).
Hypothesis Hint : forall z, P (JInt z).
Hypothesis Hfloat : forall x, P (JFloat x).
Hypothesis Hstr : forall s, P (JStr s).
Hypothesis Hlist : forall l, Forall P l -> P (JList l).
Hypothesis Hdict : forall m, Forall (fun kv => P (snd kv)) m -> P (JDict m).

Fixpoint json_ind (v : json) : P v :=
  match v with
  | JNull => Hnull
  | JBool b => Hbool b
  | JInt z => Hint z
  | JFloat x => Hfloat x
  | JStr s => Hstr s
  | JList l =>
      Hlist l ((fix all (l : list json) : Forall P l :=
                  match l with
                  | [] => Forall_nil P
                  | x :: r => Forall_cons x (json_ind x) (all r)
                  end) l)
  | JDict m =>
      Hdict m ((fix all (m : list (string * json))
                 : Forall (fun kv => P (snd kv)) m :=
                  match m with
                  | [] => Forall_nil _
                  | kv :: r => Forall_cons kv (json_ind (snd kv)) (all r)
                  end) m)
  end.
End JsonInduction.

(** What may follow a number in a document. *)
Definition num_end (rest : list ascii) : bool :=
  match rest with
  | [] => true
  | c :: _ => negb (is_digit c) && negb (Ascii.eqb c ".")
              && negb (Ascii.eqb c "e") && negb (Ascii.eqb c "E")
  end.

(** The first character of a serialised value. *)
Definition value_head (c : ascii) : bool :=
  is_digit c || Ascii.eqb c "-" || Ascii.eqb c dquote || Ascii.eqb c "["
  || Ascii.eqb c "{" || Ascii.eqb c "n" || Ascii.eqb c "t" || Ascii.eqb c "f".

Definition item_sep (cp : bool) : list ascii :=
  if cp then [","%char] else [","%char; " "%char].

Definition key_sep (cp : bool) : list ascii :=
  if cp then [":"%char] else [":"%char; " "%char].

Definition entry_chars (cp : bool) (kv : string * json) : list ascii :=
  Json.dumps_str (fst kv) ++ key_sep cp ++ Json.dumps_chars cp (snd kv).

(** Reading back the serialisation of [v], whatever follows it. *)
Definition roundtrips (cp : bool) (v : json) : Prop :=
  json_ok v = true ->
  forall f rest, size v <= f -> num_end rest = true ->
  Json.parse_value f (Json.dumps_chars cp v ++ rest) = Ret (v, rest).

(** *** Normaliser *)

Definition tagged_failure (msg : string) : json :=
  JDict [("success", JBool false); ("error", JStr msg)].

(** An envelope whose first content element carries [t]. *)
Definition envelope (t : string) (more : list content_item)
  (v : option json) : tool_response :=
  {| content := Some ({| item_text := Some t |} :: more); value := v |}.

(** A raw result with a usable content list: its first element carries
    text that is not empty. *)
Definition usable_content (r : tool_response) : bool :=
  match content r with
  | Some ({| item_text := Some t |} :: _) => negb (String.eqb t "")
  | _ => false
  end.

(** *** Keyword dispatch, in the words of the specification *)

Inductive category : Type := Current | Forecast | Warnings.

Definition mentions (keywords : list string) (query : string) : bool :=
  existsb (fun kw => contains kw (lower query)) keywords.

Definition current_keywords : list string := ["current"; "now"; "today"].
Definition forecast_keywords : list string :=
  ["forecast"; "week"; "days"; "tomorrow"].
Definition warning_keywords : list string := ["warning"; "alert"].

(** The branch a query takes: a category named by a keyword, or none. *)
Definition keyword_match (query : string) : option category :=
  if mentions current_keywords query then Some Current
  else if mentions forecast_keywords query then Some Forecast
  else if mentions warning_keywords query then Some Warnings
  else None.

Definition keyword_category (query : string) : category :=
  match keyword_match query with
  | Some c => c
  | None => Current
  end.

Definition tool_of (c : category) : string :=
  match c with
  | Current => "get_hk_current_weather"
  | Forecast => "get_hk_forecast"
  | Warnings => "get_hk_weather_warnings"
  end.

Definition heading (c : category) : string :=
  match c with
  | Current => "Current Weather in Hong Kong:"
  | Forecast => "9-Day Weather Forecast for Hong Kong:"
  | Warnings => "Weather Warnings for Hong Kong:"
  end.

Definition data_key (c : category) : string :=
  match c with
  | Current => "weather_data"
  | Forecast => "forecast_data"
  | Warnings => "warnings_data"
  end.

Definition data_default (c : category) : string :=
  match c with
  | Current => "No weather data available"
  | Forecast => "No forecast data available"
  | Warnings => "No warnings data available"
  end.

Definition error_prefix (branch : option category) : string :=
  match branch with
  | Some Current => "Error retrieving current weather: "
  | Some Forecast => "Error retrieving forecast: "
  | Some Warnings => "Error retrieving weather warnings: "
  | None => "Error retrieving weather information: "
  end.

(** The answer of the tool session to the next call. *)
Definition next_tool_answer (env : services) (l : Client.log)
  (tool_name : string) : outcome tool_response :=
  call_tool env (count_call_tool l) tool_name default_arguments.

(** *** Model-directed dispatch *)

Fixpoint tool_uses (content_blocks : list content_block) : list tool_use :=
  match content_blocks with
  | [] => []
  | BToolUse tu :: rest => tu :: tool_uses rest
  | _ :: rest => tool_uses rest
  end.


Definition user_message (query : string) : message :=
  {| role := "user"; blocks := [BText query] |}.

(** An event that carries a fault of the remote party. *)
Definition fault_of (ev : Client.event) : option exn :=
  match ev with
  | EConverse _ (Raise e) => Some e
  | ECallTool _ _ (Raise e) => Some e
  | _ => None
  end.

(** A model endpoint and tool session without faults from the given
    call numbers on: no call raises and every reply of the model opens
    with a text block. *)
Definition text_first (m : message) : Prop :=
  exists t rest, blocks m = BText t :: rest.

Definition fault_free (env : services) (first_followup : nat) : Prop :=
  (forall n tool_name arguments,
      exists r, call_tool env n tool_name arguments = Ret r)
  /\ (forall n messages, first_followup <= n ->
        exists m, converse env n messages = Ret m /\ text_first m).

(** *** Fetches *)

Definition fetch_failure (prefix : string) (e : exn) : json :=
  JDict [("success", JBool false);
         ("message", JStr (prefix ++ e));
         ("error", JStr e)].

Definition fetch_success (message : string) (key : string) (data : json)
  (screenshot_path : json) : json :=
  JDict [("success", JBool true);
         ("message", JStr message);
         (key, data);
         ("screenshot_path", screenshot_path)].

(** Where a capture writes its file. *)
Definition capture_path (b : Server.browser) (name : string) : string :=
  Server.path_join (Server.gettempdir b)
    (name ++ "_" ++ Server.uuid_hex8 b ++ ".png").

Definition current_url := "https://www.hko.gov.hk/en/wxinfo/currwx/current.htm".
Definition forecast_url := "https://www.hko.gov.hk/en/wxinfo/currwx/fnd.htm".
Definition warnings_url := "https://www.hko.gov.hk/en/wxinfo/currwx/warning.htm".

Definition current_instruction :=
  "Read and extract the current weather information for Hong Kong including temperature, humidity, and weather conditions".
Definition forecast_instruction :=
  "Read and extract the complete 9-day weather forecast information visible on this page".
Definition warnings_instruction :=
  "Read and extract any current weather warnings or alerts for Hong Kong".

(** *** Worked examples *)





(** The claim that text which is not valid JSON always yields the
    parse error, read literally. *)
Definition parse_error_always_reported : Prop :=
  forall (r : tool_response) item more t e,
    content r = Some (item :: more) ->
    item_text item = Some t ->
    Json.loads t = Raise e ->
    AgenticWeatherAssistant.extract_response_data r = tagged_failure e.

(** The three category fetches under one name. *)
Inductive fetch : Type :=
| FCurrent
| FForecast (days : Z)
| FWarnings.

Definition run_fetch (b : Server.browser) (f : fetch)
  (headless take_screenshot : bool) : M Server.log json :=
  match f with
  | FCurrent => Server.run_nova_act_current_weather b headless take_screenshot
  | FForecast days => Server.run_nova_act_forecast b days headless take_screenshot
  | FWarnings => Server.run_nova_act_warnings b headless take_screenshot
  end.

(** The tool of the registry that wraps a fetch. *)
Definition run_tool (b : Server.browser) (f : fetch)
  (headless take_screenshot : bool) : M Server.log json :=
  match f with
  | FCurrent => Server.get_hk_current_weather b headless take_screenshot
  | FForecast days => Server.get_hk_forecast b days headless take_screenshot
  | FWarnings => Server.get_hk_weather_warnings b headless take_screenshot
  end.

Definition fetch_url (f : fetch) : string :=
  match f with
  | FCurrent => current_url
  | FForecast _ => forecast_url
  | FWarnings => warnings_url
  end.

Definition fetch_instruction (f : fetch) : string :=
  match f with
  | FCurrent => current_instruction
  | FForecast _ => forecast_instruction
  | FWarnings => warnings_instruction
  end.

Definition fetch_category (f : fetch) : category :=
  match f with
  | FCurrent => Current
  | FForecast _ => Forecast
  | FWarnings => Warnings
  end.

Definition fetch_shot_name (f : fetch) : string :=
  match f with
  | FCurrent => "hk_current_weather"
  | FForecast _ => "hk_forecast"
  | FWarnings => "hk_warnings"
  end.

Definition fetch_message (f : fetch) : string :=
  match f with
  | FCurrent => "Successfully retrieved current weather in Hong Kong"
  | FForecast days =>
      "Successfully retrieved " ++ str_of (int_chars days)
      ++ "-day forecast for Hong Kong"
  | FWarnings => "Successfully retrieved weather warnings for Hong Kong"
  end.

Definition fetch_error_prefix (f : fetch) : string :=
  error_prefix (Some (fetch_category f)).

(** The result of a fetch whose extraction returned [data]. *)
Definition fetch_succeeded (f : fetch) (data screenshot_path : json) : json :=
  fetch_success (fetch_message f) (data_key (fetch_category f)) data
    screenshot_path.

(** The claim that every fault of a fetch comes back as a failure with a
    non-empty error string, read literally. *)
Definition faults_give_nonempty_error : Prop :=
  forall b f headless take_screenshot l e,
    (Server.nova_start b (fetch_url f) headless = Some e
     \/ Server.nova_act_response b (fetch_instruction f) = Raise e
     \/ Server.page_screenshot b (capture_path b (fetch_shot_name f)) = Some e) ->
    exists d msg,
      fst (run_fetch b f headless take_screenshot l) = Ret (JDict d)
      /\ dict_get "success" d = Some (JBool false)
      /\ dict_get "error" d = Some (JStr msg)
      /\ msg <> "".


(** A browser that does what it is asked: the page reads [data], the
    capture and the other calls answer as given. *)
Definition a_browser (start : option exn) (response : outcome json)
  (shot stop : option exn) : Server.browser :=
  {| Server.nova_start := fun _ _ => start;
     Server.nova_act_response := fun _ => response;
     Server.page_screenshot := fun _ => shot;
     Server.nova_stop := stop;
     Server.gettempdir := "/tmp";
     Server.uuid_hex8 := "0123abcd";
     Server.pool_submit := None |}.

(** What a fetch returns and logs, by cases on the answers of the
    browser. *)
Definition fetch_result (b : Server.browser) (f : fetch)
  (headless take_screenshot : bool) : json :=
  match Server.nova_start b (fetch_url f) headless with
  | Some e => fetch_failure (fetch_error_prefix f) e
  | None =>
      match Server.nova_stop b with
      | Some e => fetch_failure (fetch_error_prefix f) e
      | None =>
          match Server.nova_act_response b (fetch_instruction f) with
          | Raise e => fetch_failure (fetch_error_prefix f) e
          | Ret data =>
              fetch_succeeded f data
                (if take_screenshot then
                   match Server.page_screenshot b
                           (capture_path b (fetch_shot_name f)) with
                   | None => JStr (capture_path b (fetch_shot_name f))
                   | Some _ => JNull
                   end
                 else JNull)
          end
      end
  end.

Definition fetch_events (b : Server.browser) (f : fetch)
  (headless take_screenshot : bool) : Server.log :=
  Server.EStart (fetch_url f) headless ::
  match Server.nova_start b (fetch_url f) headless with
  | Some _ => []
  | None =>
      Server.EAct (fetch_instruction f) ::
      match Server.nova_act_response b (fetch_instruction f) with
      | Raise _ => [Server.EStop]
      | Ret _ =>
          if take_screenshot
          then [Server.EScreenshot (capture_path b (fetch_shot_name f));
                Server.EStop]
          else [Server.EStop]
      end
  end.

(** *** What keyword dispatch answers *)

Definition screenshot_note (data : json) : string :=
  "A screenshot has been saved to: "
  ++ py_str (get data "screenshot_path" (JStr "No screenshot available")).

(** The answer of [process_query_direct] for the normalised payload
    [data], on the branch [branch] of the query. *)
Definition render_direct (branch : option category) (data : json) : string :=
  if reports_success data then
    match branch with
    | Some c =>
        heading c ++ nl ++ nl
        ++ py_str (get data (data_key c) (JStr (data_default c)))
        ++ nl ++ nl ++ screenshot_note data
    | None =>
        heading Current ++ nl ++ nl
        ++ py_str (get data (data_key Current) (JStr (data_default Current)))
    end
  else error_prefix branch ++ py_str (error_msg_of data).

(** The same for [HKWeatherMCPClient.process_query], which formats the
    forecast. *)
Definition render_client (branch : option category) (data : json) : string :=
  if reports_success data then
    match branch with
    | Some Forecast =>
        heading Forecast ++ nl ++ nl
        ++ py_str (HKWeatherMCPClient.format_forecast_data
                     (get data (data_key Forecast) (JStr (data_default Forecast))))
        ++ nl ++ screenshot_note data
    | _ => render_direct branch data
    end
  else error_prefix branch ++ py_str (error_msg_of data).

Definition answer_with (render : option category -> json -> string)
  (query : string) (answer : outcome tool_response) : string :=
  match answer with
  | Ret tool_response =>
      render (keyword_match query)
        (AgenticWeatherAssistant.extract_response_data tool_response)
  | Raise e => "Error processing query: " ++ e
  end.

(** Characters that [lower] leaves alone: ASCII, and not a capital. *)
Definition plain (c : ascii) : bool :=
  (N_of_ascii c <? 128)%N && negb (is_upper c).


(** A tool session that answers every call with the payload [payload],
    serialised, and a model endpoint that is never reached. *)
Definition session_answering (payload : json) : services :=
  {| converse := fun _ _ => Raise "not reached";
     call_tool := fun _ _ _ => Ret (envelope (Json.dumps false payload) [] None) |}.

Definition sunny_payload : json :=
  JDict [("success", JBool true); ("weather_data", JStr "Sunny, 28°C")].


(** Both keyword dispatchers answer [query] with exactly one call of the
    tool [tool], made with the default arguments. *)
Definition dispatches_to (env : services) (query : string) (l : Client.log)
  (tool : string) : Prop :=
  snd (AgenticWeatherAssistant.process_query_direct env query l)
  = l ++ [ECallTool tool default_arguments (next_tool_answer env l tool)]
  /\ snd (HKWeatherMCPClient.process_query env query l)
     = l ++ [ECallTool tool default_arguments (next_tool_answer env l tool)].

(** *** Runs of model-directed dispatch *)

(** The text blocks of a reply, in order. *)
Fixpoint texts (content_blocks : list content_block) : list string :=
  match content_blocks with
  | [] => []
  | BText t :: rest => t :: texts rest
  | _ :: rest => texts rest
  end.

(** A log made of one round per tool-use block, in order: the call of
    the tool the block names, with the input of the block, then one
    follow-up call of the model; both return. *)
Inductive rounds : list tool_use -> Client.log -> Prop :=
| rounds_nil : rounds [] []
| rounds_cons tu tus r messages m tr :
    rounds tus tr ->
    rounds (tu :: tus)
      (ECallTool (name tu) (input tu) (Ret r)
       :: EConverse messages (Ret m) :: tr).

Definition faulty_converse (ev : Client.event) : bool :=
  match ev with
  | EConverse _ (Raise _) => true
  | _ => false
  end.

Definition clean (ev : Client.event) : Prop := fault_of ev = None.

(** An assistant connected to the three tools of the server. *)
Definition weather_assistant : AgenticWeatherAssistant.assistant :=
  {| AgenticWeatherAssistant.available_tools :=
       [{| spec_name := "get_hk_current_weather";
           description := "Get the current weather in Hong Kong";
           input_schema := JDict [] |};
        {| spec_name := "get_hk_forecast";
           description := "Get the weather forecast for Hong Kong";
           input_schema := JDict [] |};
        {| spec_name := "get_hk_weather_warnings";
           description := "Get current weather warnings and alerts";
           input_schema := JDict [] |}] |}.

Definition asks_for (tool : string) : message :=
  {| role := "assistant";
     blocks := [BToolUse {| name := tool; input := JDict [];
                            toolUseId := "tooluse_1" |}] |}.

Definition says (t : string) : message :=
  {| role := "assistant"; blocks := [BText t] |}.

(** A model that answers every request, also the follow-up, with a
    request for the current-weather tool; the tools work. *)
Definition eager_model : services :=
  {| converse := fun _ _ => Ret (asks_for "get_hk_current_weather");
     call_tool := fun _ _ _ =>
                    Ret (envelope (Json.dumps false sunny_payload) [] None) |}.


(** A model endpoint that cannot be reached; the tools work. *)
Definition unreachable_model : services :=
  {| converse := fun _ _ => Raise "Could not connect to the endpoint URL";
     call_tool := fun _ _ _ =>
                    Ret (envelope (Json.dumps false sunny_payload) [] None) |}.


(** The message that carries a tool result back to the model. *)
Definition tool_result_message (tu : tool_use) (answer : tool_response) : message :=
  {| role := "user";
     blocks := [BToolResult (toolUseId tu)
                  (AgenticWeatherAssistant.result_for_bedrock (name tu)
                     (AgenticWeatherAssistant.extract_response_data answer))] |}.

(* ================================================================= *)
(** ** The session shell of the two clients

    [connect_to_server], [close], [interactive_session], [main] and the
    start-up code of agentic_weather_assistant.py and
    hk_weather_mcp_client.py.  Here the console matters: the shell's own
    [print] and [input] calls are events of the log.  The progress lines
    that are printed while a query is processed are still left out. *)

Module Host.

(** One entry of [session.list_tools().tools]. *)
Record listed_tool : Type := {
  listed_name : string;
  listed_description : string;
  inputSchema : json
}.

(** The contexts that [connect_to_server] enters on the exit stack. *)
Inductive resource : Type := Transport | Session.

(** The outside world of a client process.  [None] is a normal return.
    The two [__aexit__] methods are taken not to swallow a pending
    exception. *)
Record host : Type := {
  (** [stdio_client(StdioServerParameters(command, args, env)).__aenter__] *)
  spawn : string -> list string -> option exn;
  (** [ClientSession(stdio, write).__aenter__] *)
  open_session : option exn;
  (** [session.initialize()] *)
  initialize : option exn;
  (** [session.list_tools().tools] *)
  list_tools : outcome (list listed_tool);
  (** [ClientSession.__aexit__] *)
  close_session : option exn;
  (** the [__aexit__] of [stdio_client] *)
  close_transport : option exn;
  (** [boto3.client(service_name="bedrock-runtime", ..)] *)
  bedrock_client : option exn;
  (** [os.getenv("NOVA_ACT_API_KEY")] *)
  nova_act_api_key : option string;
  (** the model endpoint and the tool session *)
  remote : services
}.

Inductive event : Type :=
| ESpawn (command : string) (args : list string)
| EOpenSession
| EInitialize
| EListTools
| ECloseSession
| ECloseTransport
| EPrint (text : string)
| EInput (prompt : string) (line : outcome string)
| ERemote (call : Client.event).

(** The log of the process and [self.exit_stack], innermost context
    first. *)
Record state : Type := {
  trace : list event;
  exit_stack : list resource
}.

Definition initial : state := {| trace := []; exit_stack := [] |}.

Definition emit (ev : event) (st : state) : state :=
  {| trace := trace st ++ [ev]; exit_stack := exit_stack st |}.

(** [print(text)] *)
Definition print (text : string) : M state unit :=
  fun st => (Ret tt, emit (EPrint text) st).

(** A call that returns nothing. *)
Definition signal (ev : event) (answer : option exn) : M state unit :=
  fun st =>
    match answer with
    | None => (Ret tt, emit ev st)
    | Some e => (Raise e, emit ev st)
    end.

(** [await self.exit_stack.enter_async_context(cm)]: the context is
    pushed once its [__aenter__] has returned. *)
Definition enter_async_context (r : resource) (ev : event)
  (answer : option exn) : M state unit :=
  fun st =>
    match answer with
    | None => (Ret tt, {| trace := trace st ++ [ev];
                          exit_stack := r :: exit_stack st |})
    | Some e => (Raise e, emit ev st)
    end.

Definition exit_event (r : resource) : event :=
  match r with
  | Session => ECloseSession
  | Transport => ECloseTransport
  end.

Definition exit_answer (h : host) (r : resource) : option exn :=
  match r with
  | Session => close_session h
  | Transport => close_transport h
  end.

(** The callbacks of an exit stack, innermost first: every one runs, and
    the exception raised last is the one left pending. *)
Fixpoint run_exits (h : host) (stack : list resource) (pending : option exn)
  (t : list event) : option exn * list event :=
  match stack with
  | [] => (pending, t)
  | r :: rest =>
      run_exits h rest
        (match exit_answer h r with
         | Some e => Some e
         | None => pending
         end)
        (t ++ [exit_event r])
  end.

(** [await self.exit_stack.aclose()] *)
Definition aclose (h : host) : M state unit :=
  fun st =>
    match run_exits h (exit_stack st) None (trace st) with
    | (Some e, t) => (Raise e, {| trace := t; exit_stack := [] |})
    | (None, t) => (Ret tt, {| trace := t; exit_stack := [] |})
    end.

(** [try: body / finally: cleanup] *)
Definition try_finally {A} (body : M state A) (cleanup : M state unit)
  : M state A :=
  fun st =>
    match body st with
    | (res, st1) =>
        match cleanup st1 with
        | (Ret _, st2) => (res, st2)
        | (Raise e, st2) => (Raise e, st2)
        end
    end.

(** The calls to the model endpoint and the tool session in a log. *)
Fixpoint remote_calls (t : list event) : Client.log :=
  match t with
  | [] => []
  | ERemote c :: rest => c :: remote_calls rest
  | _ :: rest => remote_calls rest
  end.

(** A computation of the query processing, run inside the process: the
    calls it makes join the log of the process. *)
Definition processing {A} (m : M Client.log A) : M state A :=
  fun st =>
    let before := remote_calls (trace st) in
    match m before with
    | (res, after) =>
        (res, {| trace := trace st
                          ++ map ERemote (skipn (List.length before) after);
                 exit_stack := exit_stack st |})
    end.

(** [s.endswith(suffix)] *)
Definition ends_with (suffix s : string) : bool :=
  prefixb (rev (chars suffix)) (rev (chars s)).

(** [query.lower() in ["exit", "quit"]] *)
Definition is_exit (query : string) : bool :=
  String.eqb (lower query) "exit" || String.eqb (lower query) "quit".

(** [print("\nConnected to server with tools:", [tool.name for tool in tools])] *)
Definition connected_line (tools : list listed_tool) : string :=
  (nl ++ "Connected to server with tools: "
   ++ str_of (repr_chars (JList (map (fun tool => JStr (listed_name tool)) tools))))%string.

Definition prompt : string :=
  (nl ++ "What would you like to know about Hong Kong's weather? ")%string.

(** [input(prompt)] on a console that still has the lines [stdin] to
    give: the line read, or [EOFError] at the end of the input. *)
Definition input (stdin : list string) : M state string :=
  fun st =>
    match stdin with
    | line :: _ => (Ret line, emit (EInput prompt (Ret line)) st)
    | [] => (Raise "EOF when reading a line",
             emit (EInput prompt (Raise "EOF when reading a line")) st)
    end.

(** The first steps of [connect_to_server], the same in both clients:
    the check of the path, the transport, the session, its
    initialisation and the listing of the tools. *)
Definition open_and_list (h : host) (server_script_path : string)
  : M state (list listed_tool) :=
  (if negb (ends_with ".py" server_script_path)
   then lift (Raise "Server script must be a .py file")
   else
     enter_async_context Transport
       (ESpawn "python3" [server_script_path])
       (spawn h "python3" [server_script_path]) ;;;
     enter_async_context Session EOpenSession (open_session h) ;;;
     signal EInitialize (initialize h) ;;;
     tools <- (fun st => (list_tools h, emit EListTools st)) ;;
     print (connected_line tools) ;;;
     ret tools)%eff.

(** The [while True] loop of [interactive_session], which the two
    clients share but for the method [process_query] that answers a
    line.  The loop ends at the first line that says exit or quit;
    [input] raises when the console has no line left. *)
Fixpoint query_loop (process_query : string -> M Client.log string)
  (stdin : list string) : M state unit :=
  (query <- input stdin ;;
   match stdin with
   | [] => ret tt
   | _ :: rest =>
       if is_exit query then ret tt
       else
         print (nl ++ "Processing your request...")%string ;;;
         response <- processing (process_query query) ;;
         print (nl ++ response)%string ;;;
         query_loop process_query rest
   end)%eff.

End Host.

(** **** agentic_weather_assistant.py *)

Module AssistantShell.

Import Host.

Local Open Scope string_scope.
Local Open Scope eff_scope.

(** The assistant once [self.available_tools] holds the schemas of the
    listed tools. *)
Definition with_tools (tools : list listed_tool)
  : AgenticWeatherAssistant.assistant :=
  {| AgenticWeatherAssistant.available_tools :=
       map (fun tool => {| spec_name := listed_name tool;
                           description := listed_description tool;
                           input_schema := inputSchema tool |}) tools |}.

Definition connect_to_server (h : host) (server_script_path : string)
  : M state AgenticWeatherAssistant.assistant :=
  tools <- open_and_list h server_script_path ;;
  ret (with_tools tools).

Definition close (h : host) : M state unit := aclose h.

(** The [while True] loop of [interactive_session]. *)
Definition session_loop (h : host) (self : AgenticWeatherAssistant.assistant)
  (stdin : list string) : M state unit :=
  query_loop
    (AgenticWeatherAssistant.process_query_with_llm (remote h) self) stdin.

Definition interactive_session (h : host) (server_script_path : string)
  (stdin : list string) : M state unit :=
  try_finally
    (self <- connect_to_server h server_script_path ;;
     print (nl ++ "=== Agentic Hong Kong Weather Assistant ===") ;;;
     print "Type 'exit' or 'quit' to end the session" ;;;
     print "This assistant uses LLM to understand your queries and call appropriate tools" ;;;
     session_loop h self stdin)
    (close h).

(** [main()]; the result is the status of [sys.exit], if it is called. *)
Definition main (h : host) (argv stdin : list string) : M state (option Z) :=
  match argv with
  | _ :: server_script_path :: _ =>
      interactive_session h server_script_path stdin ;;; ret None
  | _ =>
      print "Usage: python agentic_weather_assistant.py <server_script_path>" ;;;
      ret (Some 1%Z)
  end.

(** The module run as a script: the checks made on import, then
    [asyncio.run(main())]. *)
Definition program (h : host) (argv stdin : list string) : M state (option Z) :=
  if match nova_act_api_key h with
     | Some key => String.eqb key ""
     | None => true
     end
  then
    print "Error: NOVA_ACT_API_KEY environment variable not set" ;;;
    print "Please set it with: export NOVA_ACT_API_KEY=your_api_key" ;;;
    ret (Some 1%Z)
  else
    match bedrock_client h with
    | Some e =>
        print ("Error initializing Bedrock client: " ++ e) ;;;
        print "Please ensure you have AWS credentials configured correctly" ;;;
        ret (Some 1%Z)
    | None => main h argv stdin
    end.

End AssistantShell.

(** **** hk_weather_mcp_client.py *)

Module ClientShell.

Import Host.

Local Open Scope string_scope.
Local Open Scope eff_scope.

Definition connect_to_server (h : host) (server_script_path : string)
  : M state unit :=
  tools <- open_and_list h server_script_path ;;
  ret tt.

Definition close (h : host) : M state unit := aclose h.

(** The [while True] loop of [interactive_session]. *)
Definition session_loop (h : host) (stdin : list string) : M state unit :=
  query_loop (HKWeatherMCPClient.process_query (remote h)) stdin.

Definition interactive_session (h : host) (server_script_path : string)
  (stdin : list string) : M state unit :=
  try_finally
    (connect_to_server h server_script_path ;;;
     print (nl ++ "=== Hong Kong Weather Forecast Assistant ===") ;;;
     print "Type 'exit' or 'quit' to end the session" ;;;
     session_loop h stdin)
    (close h).

Definition main (h : host) (argv stdin : list string) : M state (option Z) :=
  match argv with
  | _ :: server_script_path :: _ =>
      interactive_session h server_script_path stdin ;;; ret None
  | _ =>
      print "Usage: python hk_weather_mcp_client.py <server_script_path>" ;;;
      ret (Some 1%Z)
  end.

Definition program (h : host) (argv stdin : list string) : M state (option Z) :=
  if match nova_act_api_key h with
     | Some key => String.eqb key ""
     | None => true
     end
  then
    print "Error: NOVA_ACT_API_KEY environment variable not set" ;;;
    print "Please set it with: export NOVA_ACT_API_KEY=your_api_key" ;;;
    ret (Some 1%Z)
  else main h argv stdin.

End ClientShell.

(** *** Further vocabulary: the fetches as the client sees them *)

(** The screenshot path in the result of a fetch whose extraction
    succeeded: the path of the capture, or [None]. *)
Definition reported_path (b : Server.browser) (f : fetch)
  (take_screenshot : bool) : json :=
  if take_screenshot then
    match Server.page_screenshot b (capture_path b (fetch_shot_name f)) with
    | None => JStr (capture_path b (fetch_shot_name f))
    | Some _ => JNull
    end
  else JNull.

(** A browser whose capture works. *)
Definition working_browser : Server.browser :=
  a_browser None (Ret (JStr "Sunny periods. 28 degrees, humidity 80 percent."))
    None None.

(** A browser whose page cannot be read. *)
Definition broken_page : Server.browser :=
  a_browser None (Raise "ActError: page not loaded") None None.

(** A process whose worker pool has been shut down. *)
Definition pool_shut_down : Server.browser :=
  {| Server.nova_start := fun _ _ => None;
     Server.nova_act_response := fun _ => Ret (JStr "Sunny");
     Server.page_screenshot := fun _ => None;
     Server.nova_stop := None;
     Server.gettempdir := "/tmp";
     Server.uuid_hex8 := "0123abcd";
     Server.pool_submit := Some "cannot schedule new futures after shutdown" |}.


(** What every fetch result looks like. *)
Definition well_shaped (f : fetch) (o : outcome json) : Prop :=
  exists d ok message,
    o = Ret (JDict d)
    /\ distinct_keys d = true
    /\ dict_get "success" d = Some (JBool ok)
    /\ dict_get "message" d = Some (JStr message)
    /\ (ok = true ->
        dict_has (data_key (fetch_category f)) d = true
        /\ dict_has "screenshot_path" d = true
        /\ dict_has "error" d = false)
    /\ (ok = false ->
        (exists e, dict_get "error" d = Some (JStr e))
        /\ dict_has (data_key (fetch_category f)) d = false
        /\ dict_has "screenshot_path" d = false).


(** A browser on which the capture fails and everything else works. *)
Definition capture_fails : Server.browser :=
  a_browser None (Ret (JStr "No warnings in force.")) (Some "page crashed") None.

(** An assistant connected to a server that lists no tool. *)
Definition no_tools : AgenticWeatherAssistant.assistant :=
  {| AgenticWeatherAssistant.available_tools := [] |}.

(** A model endpoint that cannot be reached and a tool session that has
    lost its connection. *)
Definition all_down : services :=
  {| converse := fun _ _ => Raise "Could not connect to the endpoint URL";
     call_tool := fun _ _ _ => Raise "Connection closed" |}.

(** *** The conversation of model-directed dispatch *)

(** The message lists of the calls of the model in a log, in order. *)
Fixpoint requests (l : Client.log) : list (list message) :=
  match l with
  | [] => []
  | EConverse messages _ :: rest => messages :: requests rest
  | ECallTool _ _ _ :: rest => requests rest
  end.

(** [chain reply prev tus reqs]: the follow-up requests [reqs] answer
    the first tool-use blocks of [tus], in order, and each is the
    request before it (at first [prev]) extended by the reply of the
    model and the result message of its block. *)
Inductive chain (reply : message)
  : list message -> list tool_use -> list (list message) -> Prop :=
| chain_stop prev tus : chain reply prev tus []
| chain_step prev tu tus answer reqs :
    chain reply (prev ++ [reply; tool_result_message tu answer]) tus reqs ->
    chain reply prev (tu :: tus)
      ((prev ++ [reply; tool_result_message tu answer]) :: reqs).

(** The texts that the follow-up calls in a log returned. *)
Fixpoint followup_texts (l : Client.log) : list string :=
  match l with
  | [] => []
  | EConverse _ (Ret m) :: rest =>
      match AgenticWeatherAssistant.first_text m with
      | Ret t => t :: followup_texts rest
      | Raise _ => followup_texts rest
      end
  | _ :: rest => followup_texts rest
  end.

Definition calling (tu : tool_use) : string :=
  ("[Calling tool " ++ name tu ++ "]")%string.

(** The parts of the answer for the blocks of a reply, given the texts
    of the follow-up calls: a text block is itself, a tool-use block is
    its marker followed by the text of its follow-up. *)
Fixpoint transcript (content_blocks : list content_block)
  (followups : list string) : list string :=
  match content_blocks with
  | [] => []
  | BText t :: rest => t :: transcript rest followups
  | BToolUse tu :: rest =>
      match followups with
      | f :: fs => calling tu :: f :: transcript rest fs
      | [] => [calling tu]
      end
  | _ :: rest => transcript rest followups
  end.

(** A model that first says a word and asks for two tools, and then
    comments each result; the tools work. *)
Definition two_requests : message :=
  {| role := "assistant";
     blocks := [BText "Let me check.";
                BToolUse {| name := "get_hk_current_weather";
                            input := JDict [("headless", JBool true)];
                            toolUseId := "tooluse_1" |};
                BToolUse {| name := "get_hk_weather_warnings";
                            input := JDict [];
                            toolUseId := "tooluse_2" |}] |}.

Definition thorough_model : services :=
  {| converse := fun n _ =>
                   match n with
                   | O => Ret two_requests
                   | 1 => Ret (says "It is sunny.")
                   | _ => Ret (says "No warning is in force.")
                   end;
     call_tool := fun _ _ _ =>
                    Ret (envelope (Json.dumps false sunny_payload) [] None) |}.

(** *** The forecast formatter *)

(** A day the formatter can render: a dict with a date. *)
Definition dated (day : json) : bool :=
  match day with
  | JDict m => dict_has "date" m
  | _ => false
  end.


Definition forecast_key : string := "9-day_weather_forecast".


(** The same forecast with a day that has no date in the middle. *)
Definition broken_days : list json :=
  [JDict [("date", JStr "4 November")];
   JDict [("weather", JStr "Low")];
   JDict [("date", JStr "6 November")]].

(** *** Sessions at the console *)

(** The events of the conversation: console output, console input and
    calls to the model endpoint or the tool session. *)
Definition talk (ev : Host.event) : bool :=
  match ev with
  | Host.EPrint _ | Host.EInput _ _ | Host.ERemote _ => true
  | _ => false
  end.

(** The contexts that a connection attempt leaves on the exit stack,
    innermost first. *)
Definition opened (h : Host.host) (server_script_path : string)
  : list Host.resource :=
  if negb (Host.ends_with ".py" server_script_path) then []
  else
    match Host.spawn h "python3" [server_script_path] with
    | Some _ => []
    | None =>
        match Host.open_session h with
        | Some _ => [Host.Transport]
        | None => [Host.Session; Host.Transport]
        end
    end.

(** A method that answers every line: it returns a text and only adds
    to the log of calls. *)
Definition answers (process_query : string -> M Client.log string) : Prop :=
  forall query l, exists out tr, process_query query l = (Ret out, l ++ tr).

(** The lines of the console that are queries: those before the first
    line that says exit or quit. *)
Fixpoint queries (stdin : list string) : list string :=
  match stdin with
  | [] => []
  | line :: rest =>
      if Host.is_exit line then [] else line :: queries rest
  end.

(** The names of the tools called in a log, in order. *)
Fixpoint tools_called (l : Client.log) : list string :=
  match l with
  | [] => []
  | ECallTool tool_name _ _ :: rest => tool_name :: tools_called rest
  | EConverse _ _ :: rest => tools_called rest
  end.

(** A connection that works: the server starts, the session opens and
    initialises, and the tools are listed. *)
Definition connects (h : Host.host) (server_script_path : string) : Prop :=
  Host.ends_with ".py" server_script_path = true
  /\ Host.spawn h "python3" [server_script_path] = None
  /\ Host.open_session h = None
  /\ Host.initialize h = None
  /\ exists tools, Host.list_tools h = Ret tools.

(** A host on which everything works, with the given tools and
    services. *)
Definition a_host (tools : list Host.listed_tool) (env : services)
  : Host.host :=
  {| Host.spawn := fun _ _ => None;
     Host.open_session := None;
     Host.initialize := None;
     Host.list_tools := Ret tools;
     Host.close_session := None;
     Host.close_transport := None;
     Host.bedrock_client := None;
     Host.nova_act_api_key := Some "test-key";
     Host.remote := env |}.

(** A host whose session fails to initialise. *)
Definition failing_handshake : Host.host :=
  {| Host.spawn := fun _ _ => None;
     Host.open_session := None;
     Host.initialize := Some "Connection closed";
     Host.list_tools := Ret [];
     Host.close_session := None;
     Host.close_transport := None;
     Host.bedrock_client := None;
     Host.nova_act_api_key := Some "test-key";
     Host.remote := eager_model |}.

(** The events that close a context. *)
Definition closing (ev : Host.event) : bool :=
  match ev with
  | Host.ECloseSession | Host.ECloseTransport => true
  | _ => false
  end.

(** A computation that only talks: it leaves the exit stack alone and
    adds nothing but events of the conversation to the log. *)
Definition quiet {A} (m : M Host.state A) : Prop :=
  forall st, exists tr,
    snd (m st) = {| Host.trace := Host.trace st ++ tr;
                    Host.exit_stack := Host.exit_stack st |}
    /\ forallb talk tr = true.

(** The state after [close]: every context on the stack has been
    exited, innermost first. *)
Definition closed (st : Host.state) : Host.state :=
  {| Host.trace := Host.trace st ++ map Host.exit_event (Host.exit_stack st);
     Host.exit_stack := [] |}.

(** The events of a connection that works, in order. *)
Definition handshake (h : Host.host) (server_script_path : string)
  : list Host.event :=
  [Host.ESpawn "python3" [server_script_path];
   Host.EOpenSession; Host.EInitialize; Host.EListTools;
   Host.EPrint (Host.connected_line
                  match Host.list_tools h with
                  | Ret tools => tools
                  | Raise _ => []
                  end)].

(** The state after a connection that works. *)
Definition connected (h : Host.host) (server_script_path : string)
  (st : Host.state) : Host.state :=
  {| Host.trace := Host.trace st ++ handshake h server_script_path;
     Host.exit_stack := Host.Session :: Host.Transport :: Host.exit_stack st |}.

(** A session from [st] to [st']: whatever happened, nothing was closed
    before the end, and at the end every context that was on the stack
    or was entered has been exited once, innermost first. *)
Definition closes_what_it_opened (h : Host.host) (server_script_path : string)
  (st st' : Host.state) : Prop :=
  Host.exit_stack st' = []
  /\ exists body,
       Host.trace st'
       = Host.trace st ++ body
         ++ map Host.exit_event (opened h server_script_path ++ Host.exit_stack st)
       /\ forallb (fun ev => negb (closing ev)) body = true.

(** The checks that stand before the start of a server: an API key that
    is set and not empty, a second command-line argument, and a path
    that ends in .py, which is then run with python3. *)
Definition guarded (h : Host.host) (argv : list string) (command : string)
  (args : list string) : Prop :=
  (exists key, Host.nova_act_api_key h = Some key /\ key <> ""%string)
  /\ command = "python3"%string
  /\ exists path,
       nth_error argv 1 = Some path
       /\ args = [path]
       /\ Host.ends_with ".py" path = true.

(* ================================================================= *)
(** ** [json.loads] reads back what [json.dumps] writes *)

Lemma chars_str_of l : chars (str_of l) = l.
Proof. apply list_ascii_of_string_of_list_ascii. Qed.

Lemma str_of_chars s : str_of (chars s) = s.
Proof. apply string_of_list_ascii_of_string. Qed.

(** *** Strings: every escape that [dumps] writes is read back as the
    character it stands for. *)

Lemma scan_escape_char c r acc :
  Json.scan_string (Json.escape_char c ++ r) acc = Json.scan_string r (c :: acc).
Proof.
  destruct c as [[] [] [] [] [] [] [] []]; reflexivity.
Qed.

Lemma scan_escaped cs r acc :
  Json.scan_string (flat_map Json.escape_char cs ++ dquote :: r) acc
  = Ret (str_of (rev acc ++ cs), r).
Proof.
  revert acc; induction cs as [|c cs IH]; intros acc; simpl.
  - rewrite List.app_nil_r. reflexivity.
  - rewrite <- List.app_assoc, scan_escape_char, IH. simpl.
    rewrite <- List.app_assoc. reflexivity.
Qed.

Lemma scan_dumps_str s r :
  Json.scan_string (tl (Json.dumps_str s) ++ r) [] = Ret (s, r).
Proof.
  unfold Json.dumps_str. simpl. rewrite <- List.app_assoc. simpl.
  rewrite scan_escaped. simpl. rewrite str_of_chars. reflexivity.
Qed.

(** *** Numbers: the decimal numeral of an integer is read back as that
    integer, whatever non-numeric text follows. *)


Lemma digit_cons_not_digit c : is_digit c = false -> Json.digit_cons c = None.
Proof. destruct c as [[] [] [] [] [] [] [] []]; simpl; intros H; try reflexivity; discriminate H. Qed.

Lemma scan_digits_uint u rest :
  match rest with [] => True | c :: _ => is_digit c = false end ->
  Json.scan_digits (uint_chars u ++ rest) = (u, rest).
Proof.
  intros Hrest. induction u; simpl; try (rewrite IHu; reflexivity).
  destruct rest as [|c r]; [reflexivity|].
  simpl. rewrite (digit_cons_not_digit c Hrest). reflexivity.
Qed.

Lemma nzhead_not_D0 u u' : Decimal.nzhead u <> Decimal.D0 u'.
Proof. induction u; simpl; try discriminate. exact IHu. Qed.

Lemma pos_to_uint_head p :
  exists c cs, uint_chars (Pos.to_uint p) = c :: cs
               /\ is_digit c = true /\ Ascii.eqb c "0" = false.
Proof.
  assert (Hn : Decimal.unorm (Pos.to_uint p) = Pos.to_uint p).
  { pose proof (DecimalPos.Unsigned.to_of (Pos.to_uint p)) as H.
    rewrite DecimalPos.Unsigned.of_to in H. simpl in H. symmetry. exact H. }
  pose proof (DecimalPos.Unsigned.to_uint_nonzero p) as Hz.
  destruct (Pos.to_uint p) as [|u|u|u|u|u|u|u|u|u|u] eqn:E; simpl;
    try (eexists; eexists; split; [reflexivity|split; reflexivity]).
  - exfalso. apply Hz. unfold Decimal.unorm in Hn. simpl in Hn.
    destruct (Decimal.nzhead Decimal.Nil); discriminate.
  - exfalso. unfold Decimal.unorm in Hn. simpl in Hn.
    destruct (Decimal.nzhead u) eqn:En.
    + injection Hn as Hn. subst u. apply Hz. reflexivity.
    + exact (nzhead_not_D0 _ _ En).
    + discriminate. + discriminate. + discriminate. + discriminate.
    + discriminate. + discriminate. + discriminate. + discriminate. + discriminate.
Qed.

Lemma num_end_digit rest :
  num_end rest = true -> match rest with [] => True | c :: _ => is_digit c = false end.
Proof.
  destruct rest as [|c r]; simpl; [trivial|].
  destruct (is_digit c); simpl; [discriminate|reflexivity].
Qed.

Lemma scan_frac_end rest : num_end rest = true -> Json.scan_frac rest = None.
Proof.
  destruct rest as [|c [|d r]]; simpl; try reflexivity.
  destruct (Ascii.eqb c "."); simpl; [|reflexivity].
  rewrite andb_false_r. simpl. discriminate.
Qed.

Lemma scan_exp_end rest : num_end rest = true -> Json.scan_exp rest = None.
Proof.
  destruct rest as [|c r]; simpl; try reflexivity.
  destruct (Ascii.eqb c "e"), (Ascii.eqb c "E"); simpl;
    rewrite ?andb_false_r; simpl; try discriminate. reflexivity.
Qed.

Lemma scan_number_int z rest :
  num_end rest = true ->
  Json.scan_number (int_chars z ++ rest) = Some (JInt z, rest).
Proof.
  intros Hend. pose proof (num_end_digit _ Hend) as Hd.
  unfold int_chars. destruct z as [|p|p]; simpl Z.to_int.
  - simpl. unfold Json.scan_number, Json.scan_magnitude. simpl.
    rewrite (scan_frac_end _ Hend), (scan_exp_end _ Hend). reflexivity.
  - destruct (pos_to_uint_head p) as (c & cs & E & Hc & H0).
    unfold Json.scan_number.
    assert (Hm : Ascii.eqb c "-" = false).
    { destruct c as [[] [] [] [] [] [] [] []]; try reflexivity; discriminate Hc. }
    pose proof (scan_digits_uint (Pos.to_uint p) rest Hd) as Hs.
    rewrite E in *. cbn [app] in *. rewrite Hm.
    unfold Json.scan_magnitude, Json.scan_int_part. rewrite H0, Hc, Hs.
    rewrite (scan_frac_end _ Hend), (scan_exp_end _ Hend).
    change (Decimal.Pos (Pos.to_uint p)) with (Z.to_int (Z.pos p)).
    rewrite DecimalZ.of_to. reflexivity.
  - destruct (pos_to_uint_head p) as (c & cs & E & Hc & H0).
    unfold Json.scan_number. cbn [app].
    change (Ascii.eqb "-" "-") with true. cbv iota.
    pose proof (scan_digits_uint (Pos.to_uint p) rest Hd) as Hs.
    rewrite E in *. cbn [app] in *.
    unfold Json.scan_magnitude, Json.scan_int_part. rewrite H0, Hc, Hs.
    rewrite (scan_frac_end _ Hend), (scan_exp_end _ Hend).
    change (Decimal.Neg (Pos.to_uint p)) with (Z.to_int (Z.neg p)).
    rewrite DecimalZ.of_to. reflexivity.
Qed.

(** A number read whole from a text is read the same, up to what
    follows, from a longer text. *)
Lemma digit_cons_is_digit c d : Json.digit_cons c = Some d -> is_digit c = true.
Proof.
  destruct c as [[] [] [] [] [] [] [] []]; simpl; intros H;
    try discriminate H; reflexivity.
Qed.

Lemma scan_digits_ext s :
  forall u r' rest,
    Json.scan_digits s = (u, r') ->
    (r' = [] -> match rest with [] => True | c :: _ => is_digit c = false end) ->
    Json.scan_digits (s ++ rest) = (u, r' ++ rest).
Proof.
  induction s as [|c s IH]; intros u r' rest Hs Hr.
  - cbn in Hs. injection Hs as Hu Hr'. subst u r'. cbn [app].
    specialize (Hr eq_refl). destruct rest as [|c rest]; [reflexivity|].
    cbn. rewrite (digit_cons_not_digit c Hr). reflexivity.
  - cbn [Json.scan_digits] in Hs. cbn [app Json.scan_digits].
    destruct (Json.digit_cons c) as [d|].
    + destruct (Json.scan_digits s) as [u0 r0] eqn:E0.
      injection Hs as Hu Hr'. subst u r'.
      rewrite (IH u0 r0 rest eq_refl Hr). reflexivity.
    + injection Hs as Hu Hr'. subst u r'. reflexivity.
Qed.

Lemma scan_int_part_ext s u r1 rest :
  Json.scan_int_part s = Some (u, r1) ->
  (r1 = [] -> match rest with [] => True | c :: _ => is_digit c = false end) ->
  Json.scan_int_part (s ++ rest) = Some (u, r1 ++ rest).
Proof.
  destruct s as [|c s]; [discriminate|]. unfold Json.scan_int_part.
  cbn [app]. destruct (Ascii.eqb c "0").
  - intros H _. injection H as Hu Hr. subst u r1. reflexivity.
  - destruct (is_digit c); [|discriminate].
    intros H Hr. injection H as H.
    change (c :: s ++ rest) with ((c :: s) ++ rest).
    rewrite (scan_digits_ext (c :: s) u r1 rest H Hr). reflexivity.
Qed.

Lemma scan_frac_ext s f r2 rest :
  Json.scan_frac s = Some (f, r2) ->
  (r2 = [] -> match rest with [] => True | c :: _ => is_digit c = false end) ->
  Json.scan_frac (s ++ rest) = Some (f, r2 ++ rest).
Proof.
  destruct s as [|p [|d t]]; try discriminate. unfold Json.scan_frac.
  cbn [app]. destruct (Ascii.eqb p "." && is_digit d); [|discriminate].
  intros H Hr. injection H as H.
  change (d :: t ++ rest) with ((d :: t) ++ rest).
  rewrite (scan_digits_ext (d :: t) f r2 rest H Hr). reflexivity.
Qed.

Lemma scan_frac_none_ext s rest :
  Json.scan_frac s = None -> num_end rest = true ->
  Json.scan_frac (s ++ rest) = None.
Proof.
  intros Hs Hend. destruct s as [|p [|d t]].
  - apply scan_frac_end, Hend.
  - cbn [app]. destruct rest as [|c rest]; [reflexivity|].
    unfold Json.scan_frac. apply num_end_digit in Hend. rewrite Hend.
    rewrite andb_false_r. reflexivity.
  - unfold Json.scan_frac in *. cbn [app].
    destruct (Ascii.eqb p "." && is_digit d); [discriminate Hs|reflexivity].
Qed.

Lemma scan_exp_ext s ex r3 rest :
  Json.scan_exp s = Some (ex, r3) ->
  (r3 = [] -> match rest with [] => True | c :: _ => is_digit c = false end) ->
  Json.scan_exp (s ++ rest) = Some (ex, r3 ++ rest).
Proof.
  destruct s as [|e t]; [discriminate|]. unfold Json.scan_exp. cbn [app].
  destruct (Ascii.eqb e "e" || Ascii.eqb e "E"); [|discriminate].
  destruct t as [|sg [|d t']].
  - discriminate.
  - destruct (is_digit sg) eqn:Esg; [|discriminate].
    destruct (Json.scan_digits [sg]) as [u r'] eqn:E1.
    intros H Hr. injection H as Hex Hr3. subst ex r3.
    pose proof (scan_digits_ext [sg] u r' rest E1 Hr) as Hx.
    cbn [app] in *. destruct rest as [|c rest].
    + rewrite Esg, Hx. reflexivity.
    + assert (Hsign : (Ascii.eqb sg "-" || Ascii.eqb sg "+") = false).
      { destruct sg as [[] [] [] [] [] [] [] []]; try reflexivity;
          discriminate Esg. }
      rewrite Hsign, Esg. cbn [andb]. rewrite Hx. reflexivity.
  - cbn [app].
    destruct ((Ascii.eqb sg "-" || Ascii.eqb sg "+") && is_digit d).
    + destruct (Json.scan_digits (d :: t')) as [u r'] eqn:E1.
      intros H Hr. injection H as Hex Hr3. subst ex r3.
      change (d :: t' ++ rest) with ((d :: t') ++ rest).
      rewrite (scan_digits_ext (d :: t') u r' rest E1 Hr). reflexivity.
    + destruct (is_digit sg); [|discriminate].
      destruct (Json.scan_digits (sg :: d :: t')) as [u r'] eqn:E1.
      intros H Hr. injection H as Hex Hr3. subst ex r3.
      change (sg :: d :: t' ++ rest) with ((sg :: d :: t') ++ rest).
      rewrite (scan_digits_ext (sg :: d :: t') u r' rest E1 Hr). reflexivity.
Qed.

Lemma scan_number_head c s res :
  Json.scan_number (c :: s) = Some res ->
  (is_digit c || Ascii.eqb c "-") = true.
Proof.
  unfold Json.scan_number. destruct (Ascii.eqb c "-") eqn:Em.
  - intros _. apply orb_true_r.
  - unfold Json.scan_magnitude, Json.scan_int_part.
    destruct (Ascii.eqb c "0") eqn:E0.
    + apply Ascii.eqb_eq in E0. subst c. reflexivity.
    + destruct (is_digit c); [reflexivity|discriminate].
Qed.

Lemma scan_magnitude_float neg s1 l rest :
  Json.scan_magnitude neg s1 = Some (JFloat l, []) ->
  num_end rest = true ->
  Json.scan_magnitude neg (s1 ++ rest) = Some (JFloat l, rest).
Proof.
  intros Hs Hend. pose proof (num_end_digit _ Hend) as Hd.
  unfold Json.scan_magnitude in *.
  destruct (Json.scan_int_part s1) as [[u r1]|] eqn:Ei; [|discriminate Hs].
  destruct (Json.scan_frac r1) as [[f r2]|] eqn:Ef.
  - assert (Hr1 : r1 <> []) by (intros ->; discriminate Ef).
    rewrite (scan_int_part_ext s1 u r1 rest Ei) by (intros ->; contradiction).
    destruct (Json.scan_exp r2) as [[ex r3]|] eqn:Ee.
    + injection Hs as Hl Hr3. subst r3.
      assert (Hr2 : r2 <> []) by (intros ->; discriminate Ee).
      rewrite (scan_frac_ext r1 f r2 rest Ef) by (intros ->; contradiction).
      rewrite (scan_exp_ext r2 ex [] rest Ee (fun _ => Hd)).
      rewrite Hl. reflexivity.
    + injection Hs as Hl Hr2. subst r2.
      rewrite (scan_frac_ext r1 f [] rest Ef (fun _ => Hd)).
      cbn [app]. rewrite (scan_exp_end rest Hend), Hl. reflexivity.
  - destruct (Json.scan_exp r1) as [[ex r3]|] eqn:Ee; [|discriminate Hs].
    injection Hs as Hl Hr3. subst r3.
    assert (Hr1 : r1 <> []) by (intros ->; discriminate Ee).
    rewrite (scan_int_part_ext s1 u r1 rest Ei) by (intros ->; contradiction).
    rewrite (scan_frac_none_ext r1 rest Ef Hend).
    rewrite (scan_exp_ext r1 ex [] rest Ee (fun _ => Hd)).
    rewrite Hl. reflexivity.
Qed.

Lemma scan_number_float s l rest :
  Json.scan_number s = Some (JFloat l, []) ->
  num_end rest = true ->
  Json.scan_number (s ++ rest) = Some (JFloat l, rest).
Proof.
  intros Hs Hend. destruct s as [|c s]; [discriminate Hs|].
  unfold Json.scan_number in *. cbn [app].
  destruct (Ascii.eqb c "-").
  - apply scan_magnitude_float; assumption.
  - change (c :: s ++ rest) with ((c :: s) ++ rest).
    apply scan_magnitude_float; assumption.
Qed.

Lemma float_literal_scan lex rest :
  float_literal lex = true -> num_end rest = true ->
  exists c cs,
    chars lex = c :: cs
    /\ (is_digit c || Ascii.eqb c "-") = true
    /\ Json.scan_number (c :: cs ++ rest) = Some (JFloat lex, rest).
Proof.
  unfold float_literal. intros Hl Hend.
  destruct (Json.scan_number (chars lex)) as [[v r]|] eqn:Es; [|discriminate Hl].
  destruct v as [| | |l| | |]; try discriminate Hl.
  destruct r; [|discriminate Hl].
  apply String.eqb_eq in Hl. subst l.
  destruct (chars lex) as [|c cs] eqn:Ec; [discriminate Es|].
  exists c, cs. split; [reflexivity|]. split.
  - exact (scan_number_head c cs _ Es).
  - exact (scan_number_float (c :: cs) lex rest Es Hend).
Qed.

(** *** Values: by induction on the value, with the arrays and objects
    read element by element. *)

Local Arguments Json.scan_number : simpl never.
Local Arguments Json.scan_string : simpl never.

Lemma int_chars_head z :
  exists c cs, int_chars z = c :: cs /\ (is_digit c || Ascii.eqb c "-") = true.
Proof.
  unfold int_chars. destruct z as [|p|p]; simpl Z.to_int.
  - eexists; eexists; split; reflexivity.
  - destruct (pos_to_uint_head p) as (c & cs & E & Hc & _).
    exists c, cs. rewrite E, Hc. split; reflexivity.
  - eexists; eexists; split; reflexivity.
Qed.

Lemma dumps_head cp v :
  json_ok v = true ->
  exists c cs, Json.dumps_chars cp v = c :: cs /\ value_head c = true.
Proof.
  destruct v as [|[]|z|x|s|l|m]; simpl; intros Hok;
    try (eexists; eexists; split; reflexivity).
  - destruct (int_chars_head z) as (c & cs & E & Hc).
    exists c, cs. split; [exact E|]. unfold value_head.
    destruct (is_digit c); [reflexivity|]. simpl in Hc. rewrite Hc. reflexivity.
  - destruct (float_literal_scan x [] Hok eq_refl) as (c & cs & E & Hc & _).
    exists c, cs. split; [exact E|]. unfold value_head.
    destruct (is_digit c); [reflexivity|]. simpl in Hc. rewrite Hc. reflexivity.
Qed.

Lemma value_head_facts c :
  value_head c = true ->
  Json.is_ws c = false /\ Ascii.eqb c "]" = false /\ Ascii.eqb c "239" = false
  /\ Ascii.eqb c "}" = false.
Proof.
  destruct c as [[] [] [] [] [] [] [] []]; intros H;
    try discriminate H; repeat split; reflexivity.
Qed.

Lemma skip_ws_head c r : value_head c = true -> Json.skip_ws (c :: r) = c :: r.
Proof.
  intros H. destruct (value_head_facts c H) as (Hw & _).
  simpl. rewrite Hw. reflexivity.
Qed.

Lemma skip_ws_dumps cp v r :
  json_ok v = true ->
  Json.skip_ws (Json.dumps_chars cp v ++ r) = Json.dumps_chars cp v ++ r.
Proof.
  intros Hok. destruct (dumps_head cp v Hok) as (c & cs & E & Hc).
  rewrite E. apply (skip_ws_head c (cs ++ r) Hc).
Qed.

Lemma parse_value_number f c r res :
  (is_digit c || Ascii.eqb c "-") = true ->
  Json.scan_number (c :: r) = Some res ->
  Json.parse_value (S f) (c :: r) = Ret res.
Proof.
  intros Hc Hs.
  destruct c as [[] [] [] [] [] [] [] []]; try discriminate Hc;
    simpl; rewrite Hs; reflexivity.
Qed.

Lemma parse_value_array f c r :
  value_head c = true ->
  Json.parse_value (S f) ("["%char :: c :: r) = Json.parse_array f (c :: r) [].
Proof.
  intros Hc.
  destruct c as [[] [] [] [] [] [] [] []]; try discriminate Hc; reflexivity.
Qed.

Lemma parse_value_object f r :
  Json.parse_value (S f) ("{"%char :: dquote :: r) = Json.parse_object f r [].
Proof. reflexivity. Qed.

Lemma size_pos v : 1 <= size v.
Proof. destruct v; simpl; lia. Qed.

Lemma parse_array_items cp l :
  Forall (roundtrips cp) l -> forallb json_ok l = true -> l <> [] ->
  forall f acc rest,
    1 + list_sum (map size l) <= f ->
    Json.parse_array f
      (sep_by (item_sep cp) (map (Json.dumps_chars cp) l) ++ "]"%char :: rest) acc
    = Ret (JList (acc ++ l), rest).
Proof.
  induction l as [|e l IH]; intros HF Hok Hne f acc rest Hf; [contradiction|].
  inversion HF as [|? ? He HF']; subst.
  simpl in Hok. apply andb_true_iff in Hok. destruct Hok as [Hoke Hokl].
  destruct f as [|f]; [simpl in Hf; lia|].
  destruct l as [|e' l'].
  - simpl in Hf. simpl. rewrite (He Hoke f ("]"%char :: rest)); [|lia|reflexivity].
    reflexivity.
  - change (sep_by (item_sep cp) (map (Json.dumps_chars cp) (e :: e' :: l')))
      with (Json.dumps_chars cp e ++ item_sep cp
            ++ sep_by (item_sep cp) (map (Json.dumps_chars cp) (e' :: l'))).
    rewrite <- !List.app_assoc.
    cbn [Json.parse_array].
    pose proof (size_pos e') as Hp.
    rewrite (He Hoke f); [|simpl in *; lia|destruct cp; reflexivity].
    assert (Hsk : forall t,
      Json.skip_ws (item_sep cp ++ t) = ","%char :: (if cp then t else " "%char :: t)).
    { intros t. destruct cp; reflexivity. }
    rewrite Hsk.
    change (Ascii.eqb "," "]") with false. change (Ascii.eqb "," ",") with true.
    cbv iota.
    assert (Hsk2 : forall t, Json.skip_ws (if cp then t else " "%char :: t) = Json.skip_ws t).
    { intros t. destruct cp; reflexivity. }
    rewrite Hsk2.
    assert (Hnext : exists c cs,
      sep_by (item_sep cp) (map (Json.dumps_chars cp) (e' :: l')) ++ "]"%char :: rest
      = c :: cs /\ value_head c = true).
    { simpl in Hokl. apply andb_true_iff in Hokl. destruct Hokl as [Hoke' _].
      destruct (dumps_head cp e' Hoke') as (c & cs & E & Hc).
      simpl map. destruct l' as [|e'' l'']; simpl sep_by; rewrite E;
        eexists; eexists; (split; [reflexivity|exact Hc]). }
    destruct Hnext as (c & cs & E & Hc).
    rewrite E, (skip_ws_head c cs Hc), <- E.
    rewrite (IH HF' Hokl); [|discriminate|pose proof (size_pos e); simpl in *; lia].
    rewrite <- List.app_assoc. reflexivity.
Qed.

Lemma dict_has_app_false k xs k' v ys :
  dict_has k (xs ++ (k', v) :: ys) = false -> String.eqb k k' = false.
Proof.
  unfold dict_has. induction xs as [|[ka va] xs IH]; simpl.
  - destruct (String.eqb k k'); [discriminate|reflexivity].
  - destruct (String.eqb k ka); [discriminate|exact IH].
Qed.

Lemma distinct_keys_fresh acc k v m :
  distinct_keys (acc ++ (k, v) :: m) = true -> dict_set k v acc = acc ++ [(k, v)].
Proof.
  induction acc as [|[ka va] acc IH]; simpl; intros H; [reflexivity|].
  apply andb_true_iff in H. destruct H as [Hk Hd].
  apply negb_true_iff in Hk. apply dict_has_app_false in Hk.
  rewrite String.eqb_sym, Hk. rewrite (IH Hd). reflexivity.
Qed.

Lemma tl_dumps_str_app k t :
  tl (Json.dumps_str k ++ t) = tl (Json.dumps_str k) ++ t.
Proof. reflexivity. Qed.

Lemma parse_object_items cp m :
  Forall (fun kv => roundtrips cp (snd kv)) m ->
  forallb (fun kv => json_ok (snd kv)) m = true -> m <> [] ->
  forall f acc rest,
    distinct_keys (acc ++ m) = true ->
    1 + list_sum (map (fun kv => size (snd kv)) m) <= f ->
    Json.parse_object f
      (tl (sep_by (item_sep cp) (map (entry_chars cp) m)) ++ "}"%char :: rest) acc
    = Ret (JDict (acc ++ m), rest).
Proof.
  induction m as [|[k v] m IH]; intros HF Hok Hne f acc rest Hd Hf; [contradiction|].
  inversion HF as [|? ? He HF']; subst. simpl in He.
  simpl in Hok. apply andb_true_iff in Hok. destruct Hok as [Hokv Hokm].
  destruct f as [|f]; [simpl in Hf; lia|].
  pose proof (size_pos v) as Hpv.
  assert (Hks : forall t, Json.skip_ws (key_sep cp ++ t)
                          = ":"%char :: (if cp then t else " "%char :: t)).
  { intros t. destruct cp; reflexivity. }
  assert (Hsk2 : forall t, Json.skip_ws (if cp then t else " "%char :: t) = Json.skip_ws t).
  { intros t. destruct cp; reflexivity. }
  destruct m as [|[k' v'] m'].
  - simpl in Hf. cbn [map sep_by]. unfold entry_chars at 1. cbn [fst snd].
    rewrite tl_dumps_str_app, <- !List.app_assoc.
    cbn [Json.parse_object]. rewrite scan_dumps_str, Hks.
    change (Ascii.eqb ":" ":") with true. cbv iota.
    rewrite Hsk2, (skip_ws_dumps cp v _ Hokv).
    rewrite (He Hokv f); [|lia|reflexivity].
    cbn [Json.skip_ws Json.is_ws]. simpl.
    rewrite (distinct_keys_fresh _ _ _ _ Hd). reflexivity.
  - change (sep_by (item_sep cp) (map (entry_chars cp) ((k, v) :: (k', v') :: m')))
      with (entry_chars cp (k, v) ++ item_sep cp
            ++ sep_by (item_sep cp) (map (entry_chars cp) ((k', v') :: m'))).
    unfold entry_chars at 1. cbn [fst snd].
    rewrite <- !List.app_assoc, tl_dumps_str_app, <- !List.app_assoc.
    cbn [Json.parse_object]. rewrite scan_dumps_str, Hks.
    change (Ascii.eqb ":" ":") with true. cbv iota.
    rewrite Hsk2, (skip_ws_dumps cp v _ Hokv).
    rewrite (He Hokv f); [|simpl in *; lia|destruct cp; reflexivity].
    assert (Hsk : forall t,
      Json.skip_ws (item_sep cp ++ t) = ","%char :: (if cp then t else " "%char :: t)).
    { intros t. destruct cp; reflexivity. }
    rewrite Hsk.
    change (Ascii.eqb "," "}") with false. change (Ascii.eqb "," ",") with true.
    cbv iota. rewrite Hsk2.
    assert (Hnext :
      sep_by (item_sep cp) (map (entry_chars cp) ((k', v') :: m')) ++ "}"%char :: rest
      = dquote :: tl (sep_by (item_sep cp) (map (entry_chars cp) ((k', v') :: m')))
                  ++ "}"%char :: rest).
    { simpl map. destruct m'; reflexivity. }
    rewrite Hnext.
    change (Json.skip_ws (dquote :: ?t)) with (dquote :: t).
    change (Ascii.eqb dquote dquote) with true. cbv iota.
    rewrite (distinct_keys_fresh _ _ _ _ Hd).
    rewrite (IH HF' Hokm); [| discriminate | | simpl in *; lia].
    + rewrite <- List.app_assoc. reflexivity.
    + rewrite <- List.app_assoc. exact Hd.
Qed.

Lemma sep_by_entries_head cp k v m :
  sep_by (item_sep cp) (map (entry_chars cp) ((k, v) :: m))
  = dquote :: tl (sep_by (item_sep cp) (map (entry_chars cp) ((k, v) :: m))).
Proof. simpl map. destruct m; reflexivity. Qed.

Theorem parse_dumps cp v : roundtrips cp v.
Proof.
  induction v as [|b|z|x|s|l IH|m IH] using json_ind;
    unfold roundtrips; intros Hok f rest Hf Hend;
    (destruct f as [|f]; [simpl in Hf; lia|]).
  - reflexivity.
  - destruct b; reflexivity.
  - destruct (int_chars_head z) as (c & cs & E & Hc).
    pose proof (scan_number_int z rest Hend) as Hs.
    cbn [Json.dumps_chars] in *. rewrite E in *. cbn [app] in *.
    apply (parse_value_number f c _ _ Hc Hs).
  - cbn [json_ok] in Hok.
    destruct (float_literal_scan x rest Hok Hend) as (c & cs & E & Hc & Hs).
    cbn [Json.dumps_chars]. rewrite E. cbn [app].
    apply (parse_value_number f c _ _ Hc Hs).
  - cbn [Json.dumps_chars].
    change (Json.dumps_str s ++ rest) with (dquote :: tl (Json.dumps_str s) ++ rest).
    change (Json.parse_value (S f) (dquote :: ?t))
      with (match Json.scan_string t [] with
            | Ret (t0, r') => Ret (JStr t0, r')
            | Raise e => Raise e
            end).
    rewrite scan_dumps_str. reflexivity.
  - cbn [json_ok] in Hok. destruct l as [|e l].
    + reflexivity.
    + cbn [Json.dumps_chars].
      fold (item_sep cp).
      rewrite <- List.app_comm_cons, <- List.app_assoc. cbn [app].
      assert (Hnext : exists c cs,
        sep_by (item_sep cp) (map (Json.dumps_chars cp) (e :: l)) ++ "]"%char :: rest
        = c :: cs /\ value_head c = true).
      { cbn [forallb] in Hok. apply andb_true_iff in Hok. destruct Hok as [Hoke _].
        destruct (dumps_head cp e Hoke) as (c & cs & E & Hc).
        simpl map. destruct l; simpl sep_by; rewrite E;
          eexists; eexists; (split; [reflexivity|exact Hc]). }
      destruct Hnext as (c & cs & E & Hc).
      rewrite E, (parse_value_array f c cs Hc), <- E.
      rewrite (parse_array_items cp (e :: l) IH Hok); [reflexivity|discriminate|].
      simpl in Hf. simpl. lia.
  - cbn [json_ok] in Hok. apply andb_true_iff in Hok. destruct Hok as [Hd Hok].
    destruct m as [|[k v] m].
    + reflexivity.
    + cbn [Json.dumps_chars].
      fold (item_sep cp). fold (key_sep cp).
      change (fun kv : string * json =>
                Json.dumps_str (fst kv) ++ key_sep cp ++ Json.dumps_chars cp (snd kv))
        with (entry_chars cp).
      rewrite <- List.app_comm_cons, <- List.app_assoc. cbn [app].
      rewrite sep_by_entries_head, <- List.app_comm_cons.
      rewrite parse_value_object.
      rewrite (parse_object_items cp ((k, v) :: m) IH Hok); [reflexivity|discriminate|exact Hd|].
      simpl in Hf. simpl. lia.
Qed.

Lemma sep_by_length sep xs :
  list_sum (map (@List.length ascii) xs) <= List.length (sep_by sep xs).
Proof.
  induction xs as [|x xs IH]; simpl; [lia|].
  destruct xs as [|y ys]; [simpl; lia|].
  rewrite !List.length_app. simpl in *. lia.
Qed.

Lemma size_le_length cp v :
  json_ok v = true -> size v <= List.length (Json.dumps_chars cp v).
Proof.
  induction v as [|b|z|x|s|l IH|m IH] using json_ind; intros Hok.
  - simpl. lia.
  - destruct b; simpl; lia.
  - destruct (int_chars_head z) as (c & cs & E & _).
    cbn [Json.dumps_chars size]. rewrite E. simpl. lia.
  - destruct (float_literal_scan x [] Hok eq_refl) as (c & cs & E & _ & _).
    cbn [Json.dumps_chars size]. rewrite E. simpl. lia.
  - cbn [Json.dumps_chars size]. unfold Json.dumps_str. simpl. lia.
  - cbn [Json.dumps_chars size json_ok] in *. fold (item_sep cp).
    cbn [List.length]. rewrite List.length_app. cbn [List.length].
    pose proof (sep_by_length (item_sep cp) (map (Json.dumps_chars cp) l)) as Hs.
    assert (Hsum : list_sum (map size l)
                   <= list_sum (map (@List.length ascii) (map (Json.dumps_chars cp) l))).
    { clear Hs. induction l as [|e l IHl]; simpl; [lia|].
      inversion IH as [|? ? He IH']; subst.
      simpl in Hok. apply andb_true_iff in Hok. destruct Hok as [Hoke Hokl].
      specialize (He Hoke). specialize (IHl IH' Hokl). lia. }
    lia.
  - cbn [Json.dumps_chars size json_ok] in *.
    apply andb_true_iff in Hok. destruct Hok as [_ Hok].
    fold (item_sep cp). fold (key_sep cp).
    change (fun kv : string * json =>
              Json.dumps_str (fst kv) ++ key_sep cp ++ Json.dumps_chars cp (snd kv))
      with (entry_chars cp).
    cbn [List.length]. rewrite List.length_app. cbn [List.length].
    pose proof (sep_by_length (item_sep cp) (map (entry_chars cp) m)) as Hs.
    assert (Hsum : list_sum (map (fun kv => size (snd kv)) m)
                   <= list_sum (map (@List.length ascii) (map (entry_chars cp) m))).
    { clear Hs. induction m as [|[k v] m IHm]; simpl; [lia|].
      inversion IH as [|? ? He IH']; subst.
      simpl in Hok. apply andb_true_iff in Hok. destruct Hok as [Hokv Hokm].
      specialize (He Hokv). specialize (IHm IH' Hokm).
      unfold entry_chars at 1. simpl fst. simpl snd.
      rewrite !List.length_app. simpl in He. unfold entry_chars in *. lia. }
    lia.
Qed.

Theorem loads_dumps cp v : json_ok v = true -> Json.loads (Json.dumps cp v) = Ret v.
Proof.
  intros Hok. unfold Json.loads, Json.dumps. rewrite chars_str_of.
  destruct (dumps_head cp v Hok) as (c & cs & E & Hc).
  destruct (value_head_facts c Hc) as (_ & _ & Hbom & _).
  assert (Hb : prefixb ["239"%char; "187"%char; "191"%char] (Json.dumps_chars cp v) = false).
  { rewrite E. cbn [prefixb]. rewrite Ascii.eqb_sym, Hbom. reflexivity. }
  rewrite Hb. rewrite <- (List.app_nil_r (Json.dumps_chars cp v)) at 2.
  rewrite (skip_ws_dumps cp v [] Hok).
  rewrite (parse_dumps cp v Hok); [reflexivity| |reflexivity].
  pose proof (size_le_length cp v Hok). lia.
Qed.

(* ================================================================= *)
(** ** The response normaliser *)

Lemma extract_response_data_same r :
  HKWeatherMCPClient.extract_response_data r
  = AgenticWeatherAssistant.extract_response_data r.
Proof. reflexivity. Qed.

Lemma loads_empty : Json.loads "" = Raise "Expecting value".
Proof. reflexivity. Qed.

Lemma extract_envelope_loads t v more val :
  Json.loads t = Ret v ->
  AgenticWeatherAssistant.extract_response_data (envelope t more val) = v.
Proof.
  intros H. unfold AgenticWeatherAssistant.extract_response_data, envelope.
  cbn [content item_text value].
  destruct (String.eqb t "") eqn:E.
  - apply String.eqb_eq in E. subst t. rewrite loads_empty in H. discriminate H.
  - cbn [negb]. rewrite H. reflexivity.
Qed.



(** C4, as amended.  A raw result with no usable content list (no content
    attribute, an empty list, or a first element without text or with
    empty text) and no value field normalises to the failure "Could not
    extract response data".  A raw result whose first content element
    carries non-empty text that is not valid JSON normalises to the
    failure that carries the message of the parse error; nothing is
    raised. *)
Theorem normalizer_degradation :
  forall (r : tool_response),
    (usable_content r = false -> value r = None ->
     AgenticWeatherAssistant.extract_response_data r
     = tagged_failure "Could not extract response data")
    /\ (forall item more t e,
          content r = Some (item :: more) ->
          item_text item = Some t ->
          t <> "" ->
          Json.loads t = Raise e ->
          AgenticWeatherAssistant.extract_response_data r = tagged_failure e).
Proof.
  intros [c val]. split.
  - unfold usable_content, AgenticWeatherAssistant.extract_response_data.
    cbn [content value]. intros Hu Hv. subst val.
    destruct c as [[|[[t|]] more]|]; try reflexivity.
    cbn [item_text] in *.
    destruct (String.eqb t ""); [reflexivity|discriminate Hu].
  - intros [ot] more t e Hc Ht Hne Hl. cbn in Hc, Ht. subst c ot.
    unfold AgenticWeatherAssistant.extract_response_data.
    cbn [content item_text value].
    destruct (String.eqb t "") eqn:E.
    + apply String.eqb_eq in E. contradiction.
    + cbn [negb]. rewrite Hl. reflexivity.
Qed.

Lemma normalizer_degradation_witness :
  AgenticWeatherAssistant.extract_response_data
    {| content := None; value := None |}
  = tagged_failure "Could not extract response data"
  /\ AgenticWeatherAssistant.extract_response_data (envelope "not json" [] None)
     = tagged_failure "Expecting value".
Proof.
  split.
  - apply (proj1 (normalizer_degradation {| content := None; value := None |}));
      reflexivity.
  - apply (proj2 (normalizer_degradation (envelope "not json" [] None))
             {| item_text := Some "not json" |} [] "not json" "Expecting value");
      try reflexivity.
    discriminate.
Defined.

(** C4 read literally fails on empty text: the empty string is not valid
    JSON, yet the normaliser does not try to parse it and reports that
    nothing could be extracted (or hands back the value field). *)
Lemma parse_error_not_always_reported : ~ parse_error_always_reported.
Proof.
  intros H.
  specialize (H (envelope "" [] (Some (JInt 42))) {| item_text := Some "" |}
                [] "" "Expecting value" eq_refl eq_refl eq_refl).
  discriminate H.
Qed.

(* ================================================================= *)
(** ** The weather fetcher *)

Ltac unfold_fetch :=
  unfold run_tool, run_fetch,
    Server.get_hk_current_weather, Server.get_hk_forecast,
    Server.get_hk_weather_warnings, Server.in_thread_pool,
    Server.run_nova_act_current_weather, Server.run_nova_act_forecast,
    Server.run_nova_act_warnings, Server.with_NovaAct, Server.act,
    Server.capture_screenshot, Server.signal, try_except, bind, ret,
    capture_path, fetch_url, fetch_instruction, fetch_shot_name,
    current_url, forecast_url, warnings_url, current_instruction,
    forecast_instruction, warnings_instruction in *.

Lemma run_fetch_eq b f headless take_screenshot l :
  run_fetch b f headless take_screenshot l
  = (Ret (fetch_result b f headless take_screenshot),
     l ++ fetch_events b f headless take_screenshot).
Proof.
  unfold fetch_result, fetch_events.
  destruct f as [|days|]; unfold_fetch;
    (destruct (Server.nova_start b _ headless) as [e0|]; cbn;
     [reflexivity|]);
    (destruct (Server.nova_act_response b _) as [data|e1]; cbn;
     [destruct take_screenshot; cbn;
      [destruct (Server.page_screenshot b _) as [e2|]; cbn|];
      destruct (Server.nova_stop b) as [e3|]; cbn;
      rewrite <- ?List.app_assoc; reflexivity
     |destruct (Server.nova_stop b) as [e3|]; cbn;
      rewrite <- ?List.app_assoc; reflexivity]).
Qed.

Lemma run_tool_eq b f headless take_screenshot l :
  run_tool b f headless take_screenshot l
  = match Server.pool_submit b with
    | Some e => (Ret (fetch_failure (fetch_error_prefix f) e), l ++ [Server.ESubmit])
    | None =>
        (Ret (fetch_result b f headless take_screenshot),
         l ++ Server.ESubmit :: fetch_events b f headless take_screenshot)
    end.
Proof.
  assert (H : run_tool b f headless take_screenshot l
              = match Server.pool_submit b with
                | Some e => (Ret (fetch_failure (fetch_error_prefix f) e),
                             l ++ [Server.ESubmit])
                | None => run_fetch b f headless take_screenshot
                            (l ++ [Server.ESubmit])
                end).
  { destruct f; unfold run_tool, run_fetch, Server.get_hk_current_weather,
      Server.get_hk_forecast, Server.get_hk_weather_warnings,
      Server.in_thread_pool, Server.signal, try_except, bind, ret;
      destruct (Server.pool_submit b); cbn;
      try reflexivity;
      match goal with
      | |- context [?run b ?h ?s (l ++ [Server.ESubmit])] =>
          destruct (run b h s (l ++ [Server.ESubmit])) as [[v|e] l'] eqn:E
      | |- context [?run b ?d ?h ?s (l ++ [Server.ESubmit])] =>
          destruct (run b d h s (l ++ [Server.ESubmit])) as [[v|e] l'] eqn:E
      end; try reflexivity;
      match type of E with
      | ?lhs = _ =>
          match lhs with
          | Server.run_nova_act_current_weather _ _ _ _ =>
              change lhs with (run_fetch b FCurrent headless take_screenshot
                                 (l ++ [Server.ESubmit])) in E
          | Server.run_nova_act_forecast _ ?d _ _ _ =>
              change lhs with (run_fetch b (FForecast d) headless take_screenshot
                                 (l ++ [Server.ESubmit])) in E
          | Server.run_nova_act_warnings _ _ _ _ =>
              change lhs with (run_fetch b FWarnings headless take_screenshot
                                 (l ++ [Server.ESubmit])) in E
          end
      end; rewrite run_fetch_eq in E; discriminate E. }
  rewrite H. destruct (Server.pool_submit b); [reflexivity|].
  rewrite run_fetch_eq, <- List.app_assoc. reflexivity.
Qed.

Lemma fetch_failure_shape prefix e :
  exists d, fetch_failure prefix e = JDict d
            /\ dict_get "success" d = Some (JBool false)
            /\ dict_get "error" d = Some (JStr e)
            /\ dict_get "message" d = Some (JStr (prefix ++ e)).
Proof. eexists. repeat split. Qed.

(** C5, as amended.  No category fetch and no tool of the registry ever
    raises: each returns a value.  An exception raised while the session
    is set up, by the extraction or while the session is closed comes
    back as the failure value of the category: [success] is false,
    [error] is the message of the exception (empty when the exception
    has none) and [message] is the category prefix followed by it.  An
    exception raised by the capture is caught inside
    [capture_screenshot] and does not turn the fetch into a failure. *)
Theorem fetch_fault_isolation :
  forall b f headless take_screenshot l,
    let result := fst (run_fetch b f headless take_screenshot l) in
    (exists v, result = Ret v)
    /\ (exists v, fst (run_tool b f headless take_screenshot l) = Ret v)
    /\ (forall e,
          Server.nova_start b (fetch_url f) headless = Some e ->
          result = Ret (fetch_failure (fetch_error_prefix f) e))
    /\ (forall e,
          Server.nova_start b (fetch_url f) headless = None ->
          Server.nova_act_response b (fetch_instruction f) = Raise e ->
          Server.nova_stop b = None ->
          result = Ret (fetch_failure (fetch_error_prefix f) e))
    /\ (forall e,
          Server.nova_start b (fetch_url f) headless = None ->
          Server.nova_stop b = Some e ->
          result = Ret (fetch_failure (fetch_error_prefix f) e))
    /\ (forall e data,
          Server.nova_start b (fetch_url f) headless = None ->
          Server.nova_act_response b (fetch_instruction f) = Ret data ->
          Server.page_screenshot b (capture_path b (fetch_shot_name f)) = Some e ->
          Server.nova_stop b = None ->
          take_screenshot = true ->
          result = Ret (fetch_succeeded f data JNull))
    /\ (forall e, exists d,
          fetch_failure (fetch_error_prefix f) e = JDict d
          /\ dict_get "success" d = Some (JBool false)
          /\ dict_get "error" d = Some (JStr e)
          /\ dict_get "message" d = Some (JStr (fetch_error_prefix f ++ e))).
Proof.
  intros b f headless take_screenshot l result. subst result.
  rewrite run_fetch_eq, run_tool_eq. cbn [fst].
  repeat split.
  - eexists. reflexivity.
  - destruct (Server.pool_submit b); eexists; reflexivity.
  - intros e H. unfold fetch_result. rewrite H. reflexivity.
  - intros e H1 H2 H3. unfold fetch_result. rewrite H1, H2, H3. reflexivity.
  - intros e H1 H2. unfold fetch_result. rewrite H1, H2. reflexivity.
  - intros e data H1 H2 H3 H4 H5. unfold fetch_result.
    rewrite H1, H2, H3, H4, H5. reflexivity.
  - intros e. apply fetch_failure_shape.
Qed.

Lemma fetch_fault_isolation_witness :
  fst (run_fetch (a_browser (Some "Timeout 30000ms exceeded") (Ret JNull) None None)
         FCurrent false true [])
  = Ret (fetch_failure "Error retrieving current weather: "
           "Timeout 30000ms exceeded").
Proof.
  exact (proj1 (proj2 (proj2
           (fetch_fault_isolation
              (a_browser (Some "Timeout 30000ms exceeded") (Ret JNull) None None)
              FCurrent false true [])))
           "Timeout 30000ms exceeded" eq_refl).
Defined.

(** C5 read literally fails: an exception without a message (a bare
    [TimeoutError()], say) comes back with an empty error string. *)
Lemma faults_may_give_empty_error : ~ faults_give_nonempty_error.
Proof.
  intros H.
  destruct (H (a_browser (Some "") (Ret JNull) None None) FCurrent false true []
              "" (or_introl eq_refl))
    as (d & msg & Hr & _ & He & Hne).
  cbv in Hr. injection Hr as Hr. subst d. cbv in He.
  injection He as He. apply Hne. symmetry. exact He.
Qed.





(* ================================================================= *)
(** ** Keyword dispatch *)

Lemma prefixb_app p s : prefixb p (p ++ s) = true.
Proof.
  induction p as [|a p IH]; [reflexivity|].
  simpl. rewrite Ascii.eqb_refl. exact IH.
Qed.

Lemma prefixb_inv p s : prefixb p s = true -> exists t, s = p ++ t.
Proof.
  revert s; induction p as [|a p IH]; intros s H.
  - exists s. reflexivity.
  - destruct s as [|b s]; [discriminate H|]. simpl in H.
    apply andb_true_iff in H. destruct H as [Hab Hp].
    apply Ascii.eqb_eq in Hab. subst b.
    destruct (IH s Hp) as [t Ht]. exists t. rewrite Ht. reflexivity.
Qed.

Lemma infixb_app needle pre post : infixb needle (pre ++ needle ++ post) = true.
Proof.
  induction pre as [|c pre IH].
  - simpl app. destruct (needle ++ post) eqn:E; simpl;
      rewrite <- E, prefixb_app; reflexivity.
  - simpl app. simpl infixb. rewrite IH. apply orb_true_r.
Qed.

Lemma infixb_inv needle hay :
  infixb needle hay = true -> exists pre post, hay = pre ++ needle ++ post.
Proof.
  induction hay as [|c hay IH]; simpl; intros H.
  - rewrite orb_false_r in H. destruct (prefixb_inv _ _ H) as [t Ht].
    exists [], t. exact Ht.
  - apply orb_true_iff in H. destruct H as [H|H].
    + destruct (prefixb_inv _ _ H) as [t Ht]. exists [], t. exact Ht.
    + destruct (IH H) as (pre & post & E). exists (c :: pre), post.
      rewrite E. reflexivity.
Qed.

Lemma chars_app s t : chars (s ++ t)%string = chars s ++ chars t.
Proof.
  unfold chars. induction s as [|c s IH]; simpl; [reflexivity|].
  rewrite IH. reflexivity.
Qed.

Lemma contains_iff needle hay :
  contains needle hay = true
  <-> exists pre post, hay = (pre ++ needle ++ post)%string.
Proof.
  unfold contains. split.
  - intros H. destruct (infixb_inv _ _ H) as (pre & post & E).
    exists (str_of pre), (str_of post).
    rewrite <- (str_of_chars hay), E.
    rewrite <- (str_of_chars (str_of pre ++ needle ++ str_of post)%string).
    rewrite !chars_app, !chars_str_of. reflexivity.
  - intros (pre & post & E). subst hay. rewrite !chars_app. apply infixb_app.
Qed.

Lemma append_assoc (s t u : string) : ((s ++ t) ++ u = s ++ (t ++ u))%string.
Proof. induction s as [|c s IH]; simpl; [reflexivity|]. rewrite IH. reflexivity. Qed.

Lemma contains_trans a b c :
  contains a b = true -> contains b c = true -> contains a c = true.
Proof.
  rewrite !contains_iff. intros (p1 & q1 & E1) (p2 & q2 & E2). subst b c.
  exists (p2 ++ p1)%string, (q1 ++ q2)%string.
  rewrite !append_assoc. reflexivity.
Qed.

(** [lower] goes through the query from left to right and never joins an
    ASCII character to what precedes it. *)
Lemma ascii_not_lead x :
  (N_of_ascii x <? 128)%N = true ->
  Ascii.eqb x "132" = false /\ Ascii.eqb x "170" = false
  /\ Ascii.eqb x "176" = false /\ Ascii.eqb x "226" = false
  /\ Ascii.eqb x "196" = false.
Proof.
  destruct x as [[] [] [] [] [] [] [] []]; intros H;
    try discriminate H; repeat split; reflexivity.
Qed.

Lemma lower_chars_cons_ascii x r :
  (N_of_ascii x <? 128)%N = true ->
  lower_chars (x :: r) = lower_ascii x :: lower_chars r.
Proof.
  intros H. destruct (ascii_not_lead x H) as (_ & _ & _ & H1 & H2).
  destruct r as [|c1 [|c2 r2]]; cbn [lower_chars]; rewrite ?H1, ?H2;
    reflexivity.
Qed.

Lemma lower_chars_app_ascii_aux n :
  forall a x r, List.length a <= n ->
    (N_of_ascii x <? 128)%N = true ->
    lower_chars (a ++ x :: r) = lower_chars a ++ lower_chars (x :: r).
Proof.
  induction n as [|n IH]; intros a x r Hlen Hx.
  - destruct a; [reflexivity|simpl in Hlen; lia].
  - destruct (ascii_not_lead x Hx) as (H132 & H170 & H176 & _ & _).
    destruct a as [|c [|c1 [|c2 a2]]].
    + reflexivity.
    + cbn [app]. destruct r as [|y r'];
        cbn [lower_chars]; rewrite ?H132, ?H176, ?andb_false_r; reflexivity.
    + cbn [app].
      assert (E : lower_chars (c :: c1 :: x :: r)
                  = if Ascii.eqb c "196" && Ascii.eqb c1 "176"
                    then "i"%char :: "204"%char :: "135"%char :: lower_chars (x :: r)
                    else lower_ascii c :: lower_chars (c1 :: x :: r)).
      { cbn [lower_chars]. rewrite H170, !andb_false_r. reflexivity. }
      assert (E2 : lower_chars [c; c1]
                   = if Ascii.eqb c "196" && Ascii.eqb c1 "176"
                     then ["i"%char; "204"%char; "135"%char]
                     else lower_ascii c :: lower_chars [c1]).
      { reflexivity. }
      rewrite E, E2.
      destruct (Ascii.eqb c "196" && Ascii.eqb c1 "176"); [reflexivity|].
      change (c1 :: x :: r) with ([c1] ++ x :: r).
      rewrite (IH [c1] x r); [reflexivity|simpl in *; lia|exact Hx].
    + cbn [app].
      assert (E : forall t,
                lower_chars (c :: c1 :: c2 :: t)
                = if Ascii.eqb c "226" && Ascii.eqb c1 "132" && Ascii.eqb c2 "170"
                  then "k"%char :: lower_chars t
                  else if Ascii.eqb c "196" && Ascii.eqb c1 "176"
                  then "i"%char :: "204"%char :: "135"%char :: lower_chars (c2 :: t)
                  else lower_ascii c :: lower_chars (c1 :: c2 :: t)).
      { intros t. reflexivity. }
      rewrite !E.
      destruct (Ascii.eqb c "226" && Ascii.eqb c1 "132" && Ascii.eqb c2 "170").
      { rewrite (IH a2 x r); [reflexivity|simpl in *; lia|exact Hx]. }
      destruct (Ascii.eqb c "196" && Ascii.eqb c1 "176").
      { change (c2 :: a2 ++ x :: r) with ((c2 :: a2) ++ x :: r).
        rewrite (IH (c2 :: a2) x r); [reflexivity|simpl in *; lia|exact Hx]. }
      change (c1 :: c2 :: a2 ++ x :: r) with ((c1 :: c2 :: a2) ++ x :: r).
      rewrite (IH (c1 :: c2 :: a2) x r); [reflexivity|simpl in *; lia|exact Hx].
Qed.

Lemma lower_chars_plain w r :
  forallb plain w = true -> lower_chars (w ++ r) = w ++ lower_chars r.
Proof.
  induction w as [|x w IH]; intros H; [reflexivity|].
  simpl in H. apply andb_true_iff in H. destruct H as [Hx Hw].
  unfold plain in Hx. apply andb_true_iff in Hx. destruct Hx as [Hx Hu].
  cbn [app]. rewrite (lower_chars_cons_ascii x _ Hx), (IH Hw).
  unfold lower_ascii. apply negb_true_iff in Hu. rewrite Hu. reflexivity.
Qed.

(** A run of plain characters in the query is still there once the query
    is lowered. *)
Lemma contains_lower needle query :
  forallb plain (chars needle) = true ->
  contains needle query = true ->
  contains needle (lower query) = true.
Proof.
  unfold contains, lower. intros Hp H. rewrite chars_str_of.
  destruct (infixb_inv _ _ H) as (pre & post & E). rewrite E.
  destruct (chars needle) as [|x w] eqn:En.
  - destruct (lower_chars (pre ++ [] ++ post)); reflexivity.
  - assert (Hx : (N_of_ascii x <? 128)%N = true).
    { simpl in Hp. apply andb_true_iff in Hp. destruct Hp as [Hx _].
      unfold plain in Hx. apply andb_true_iff in Hx. apply Hx. }
    cbn [app]. rewrite (lower_chars_app_ascii_aux (List.length pre) pre x _ (le_n _) Hx).
    change (x :: w ++ post) with ((x :: w) ++ post).
    rewrite (lower_chars_plain (x :: w) post Hp).
    apply infixb_app.
Qed.

Lemma mentions_current query :
  contains "current" (lower query) || contains "now" (lower query)
  || contains "today" (lower query) = mentions current_keywords query.
Proof.
  unfold mentions, current_keywords. cbn [existsb].
  destruct (contains "current" (lower query)), (contains "now" (lower query)),
    (contains "today" (lower query)); reflexivity.
Qed.

Lemma mentions_forecast query :
  contains "forecast" (lower query) || contains "week" (lower query)
  || contains "days" (lower query) || contains "tomorrow" (lower query)
  = mentions forecast_keywords query.
Proof.
  unfold mentions, forecast_keywords. cbn [existsb].
  destruct (contains "forecast" (lower query)), (contains "week" (lower query)),
    (contains "days" (lower query)), (contains "tomorrow" (lower query));
    reflexivity.
Qed.

Lemma mentions_warning query :
  contains "warning" (lower query) || contains "alert" (lower query)
  = mentions warning_keywords query.
Proof.
  unfold mentions, warning_keywords. cbn [existsb].
  destruct (contains "warning" (lower query)), (contains "alert" (lower query));
    reflexivity.
Qed.

Lemma mentions_intro keywords kw query pre post :
  In kw keywords -> lower query = (pre ++ kw ++ post)%string ->
  mentions keywords query = true.
Proof.
  intros Hin E. unfold mentions. apply existsb_exists. exists kw.
  split; [exact Hin|]. apply contains_iff. exists pre, post. exact E.
Qed.

(** One run of keyword dispatch: one tool call, chosen by the category
    of the query, and the rendered answer. *)
Lemma process_query_direct_eq env query l :
  AgenticWeatherAssistant.process_query_direct env query l
  = let tool := tool_of (keyword_category query) in
    let answer := next_tool_answer env l tool in
    (Ret (answer_with render_direct query answer),
     l ++ [ECallTool tool default_arguments answer]).
Proof.
  unfold AgenticWeatherAssistant.process_query_direct.
  rewrite mentions_current, mentions_forecast, mentions_warning.
  unfold next_tool_answer, answer_with, try_except, bind, ret,
    session_call_tool, render_direct, screenshot_note.
  unfold keyword_category, keyword_match.
  destruct (mentions current_keywords query);
    [|destruct (mentions forecast_keywords query);
      [|destruct (mentions warning_keywords query)]];
    cbn [tool_of keyword_match];
    match goal with
    | |- context [call_tool env ?n ?t ?a] =>
        destruct (call_tool env n t a) as [resp|e]
    end; cbn; try reflexivity;
    destruct (reports_success
                (AgenticWeatherAssistant.extract_response_data resp));
    reflexivity.
Qed.

Lemma process_query_eq env query l :
  HKWeatherMCPClient.process_query env query l
  = let tool := tool_of (keyword_category query) in
    let answer := next_tool_answer env l tool in
    (Ret (answer_with render_client query answer),
     l ++ [ECallTool tool default_arguments answer]).
Proof.
  unfold HKWeatherMCPClient.process_query.
  rewrite mentions_current, mentions_forecast, mentions_warning.
  unfold next_tool_answer, answer_with, try_except, bind, ret,
    session_call_tool, render_client, render_direct, screenshot_note.
  unfold keyword_category, keyword_match.
  destruct (mentions current_keywords query);
    [|destruct (mentions forecast_keywords query);
      [|destruct (mentions warning_keywords query)]];
    cbn [tool_of keyword_match];
    match goal with
    | |- context [call_tool env ?n ?t ?a] =>
        destruct (call_tool env n t a) as [resp|e]
    end; cbn; try reflexivity;
    rewrite ?extract_response_data_same;
    destruct (reports_success
                (AgenticWeatherAssistant.extract_response_data resp));
    reflexivity.
Qed.

Lemma dispatches_to_category env query l :
  dispatches_to env query l (tool_of (keyword_category query)).
Proof.
  unfold dispatches_to.
  rewrite process_query_direct_eq, process_query_eq. split; reflexivity.
Qed.

Lemma category_of_current query :
  mentions current_keywords query = true -> keyword_category query = Current.
Proof. intros H. unfold keyword_category, keyword_match. rewrite H. reflexivity. Qed.

(** C2.  Keyword dispatch is a total function of the query: both
    dispatchers return an answer for every query and make exactly one
    tool call, with the default arguments, to the tool of the category
    of the query.  The category is found on the lowercased query in
    fixed priority: "current", "now" or "today" gives the current
    weather; otherwise "forecast", "week", "days" or "tomorrow" gives the
    forecast; otherwise "warning" or "alert" gives the warnings;
    otherwise the current weather, as for the query "xyz". *)
Theorem keyword_dispatch_total :
  forall env query l,
    let tool := tool_of (keyword_category query) in
    (exists out answer,
        AgenticWeatherAssistant.process_query_direct env query l
        = (Ret out, l ++ [ECallTool tool default_arguments answer]))
    /\ (exists out answer,
          HKWeatherMCPClient.process_query env query l
          = (Ret out, l ++ [ECallTool tool default_arguments answer]))
    /\ (mentions current_keywords query = true ->
        keyword_category query = Current)
    /\ (mentions current_keywords query = false ->
        mentions forecast_keywords query = true ->
        keyword_category query = Forecast)
    /\ (mentions current_keywords query = false ->
        mentions forecast_keywords query = false ->
        mentions warning_keywords query = true ->
        keyword_category query = Warnings)
    /\ (mentions current_keywords query = false ->
        mentions forecast_keywords query = false ->
        mentions warning_keywords query = false ->
        keyword_category query = Current)
    /\ dispatches_to env "xyz" l "get_hk_current_weather".
Proof.
  intros env query l tool. subst tool.
  rewrite process_query_direct_eq, process_query_eq.
  split; [eexists; eexists; reflexivity|].
  split; [eexists; eexists; reflexivity|].
  unfold keyword_category, keyword_match.
  split; [intros H; rewrite H; reflexivity|].
  split; [intros H1 H2; rewrite H1, H2; reflexivity|].
  split; [intros H1 H2 H3; rewrite H1, H2, H3; reflexivity|].
  split; [intros H1 H2 H3; rewrite H1, H2, H3; reflexivity|].
  exact (dispatches_to_category env "xyz" l).
Qed.

Lemma keyword_dispatch_total_witness :
  keyword_category "weather alert this week" = Forecast.
Proof.
  exact (proj1 (proj2 (proj2 (proj2
           (keyword_dispatch_total (session_answering JNull)
              "weather alert this week" []))))
           eq_refl eq_refl).
Defined.

(** C9.  Keyword matching is substring containment on the lowercased
    query, with no regard for word boundaries: a query whose lowercased
    text has a keyword anywhere inside it, also inside another word,
    goes to the category of that keyword, the categories being tried in
    the order current, forecast, warnings.  A query that contains "know"
    goes to the current weather, through "now"; so does a query that
    contains "nowadays", although it also contains "days". *)
Theorem keyword_match_is_substring :
  forall env query l,
    (forall kw pre post,
        In kw current_keywords ->
        lower query = (pre ++ kw ++ post)%string ->
        dispatches_to env query l "get_hk_current_weather")
    /\ (forall kw pre post,
          In kw forecast_keywords ->
          lower query = (pre ++ kw ++ post)%string ->
          mentions current_keywords query = false ->
          dispatches_to env query l "get_hk_forecast")
    /\ (forall kw pre post,
          In kw warning_keywords ->
          lower query = (pre ++ kw ++ post)%string ->
          mentions current_keywords query = false ->
          mentions forecast_keywords query = false ->
          dispatches_to env query l "get_hk_weather_warnings")
    /\ (contains "know" query = true \/ contains "know" (lower query) = true ->
        dispatches_to env query l "get_hk_current_weather")
    /\ (contains "nowadays" query = true
        \/ contains "nowadays" (lower query) = true ->
        contains "days" (lower query) = true
        /\ dispatches_to env query l "get_hk_current_weather").
Proof.
  intros env query l.
  pose proof (dispatches_to_category env query l) as Hd.
  assert (Hnow : forall w, forallb plain (chars w) = true ->
                           contains "now" w = true ->
                           contains w query = true \/ contains w (lower query) = true ->
                           dispatches_to env query l "get_hk_current_weather").
  { intros w Hp Hw H.
    assert (Hl : contains w (lower query) = true).
    { destruct H as [H|H]; [apply contains_lower; assumption|exact H]. }
    pose proof (contains_trans _ _ _ Hw Hl) as Hn.
    apply contains_iff in Hn. destruct Hn as (pre & post & E).
    rewrite (category_of_current query) in Hd; [exact Hd|].
    apply (mentions_intro current_keywords "now" query pre post);
      [right; left; reflexivity|exact E]. }
  repeat split.
  - rewrite (category_of_current query) in Hd; [apply Hd|].
    apply (mentions_intro _ kw query pre post); assumption.
  - rewrite (category_of_current query) in Hd; [apply Hd|].
    apply (mentions_intro _ kw query pre post); assumption.
  - pose proof (mentions_intro _ kw query pre post H H0) as Hf.
    unfold keyword_category, keyword_match in Hd. rewrite H1, Hf in Hd. apply Hd.
  - pose proof (mentions_intro _ kw query pre post H H0) as Hf.
    unfold keyword_category, keyword_match in Hd. rewrite H1, Hf in Hd. apply Hd.
  - pose proof (mentions_intro _ kw query pre post H H0) as Hf.
    unfold keyword_category, keyword_match in Hd. rewrite H1, H2, Hf in Hd.
    apply Hd.
  - pose proof (mentions_intro _ kw query pre post H H0) as Hf.
    unfold keyword_category, keyword_match in Hd. rewrite H1, H2, Hf in Hd.
    apply Hd.
  - apply (Hnow "know"); [reflexivity|reflexivity|exact H].
  - apply (Hnow "know"); [reflexivity|reflexivity|exact H].
  - assert (Hl : contains "nowadays" (lower query) = true).
    { destruct H as [H|H]; [apply contains_lower; [reflexivity|exact H]|exact H]. }
    apply (contains_trans "days" "nowadays"); [reflexivity|exact Hl].
  - apply (Hnow "nowadays"); [reflexivity|reflexivity|exact H].
  - apply (Hnow "nowadays"); [reflexivity|reflexivity|exact H].
Qed.

Lemma keyword_match_is_substring_witness :
  dispatches_to (session_answering JNull)
    "Do you KNOW the forecast for the next days?" []
    "get_hk_current_weather".
Proof.
  exact (proj1 (proj2 (proj2 (proj2
           (keyword_match_is_substring (session_answering JNull)
              "Do you KNOW the forecast for the next days?" []))))
           (or_intror eq_refl)).
Defined.

(* ================================================================= *)
(** ** Rendering of the answer *)




(* ================================================================= *)
(** ** Model-directed dispatch *)

Lemma count_call_tool_app l1 l2 :
  count_call_tool (l1 ++ l2) = count_call_tool l1 + count_call_tool l2.
Proof. unfold count_call_tool. rewrite filter_app, List.length_app. reflexivity. Qed.

Lemma count_converse_app l1 l2 :
  count_converse (l1 ++ l2) = count_converse l1 + count_converse l2.
Proof. unfold count_converse. rewrite filter_app, List.length_app. reflexivity. Qed.

(** One turn of the loop on a tool-use block. *)
Lemma process_blocks_tool_use env rm tu rest fr msgs l :
  AgenticWeatherAssistant.process_blocks env rm (BToolUse tu :: rest) fr msgs l
  = let a1 := call_tool env (count_call_tool l) (name tu) (input tu) in
    let l1 := l ++ [ECallTool (name tu) (input tu) a1] in
    match a1 with
    | Raise e => (Raise e, l1)
    | Ret answer =>
        let msgs' := msgs ++ [rm; tool_result_message tu answer] in
        let a2 := converse env (count_converse l1) msgs' in
        let l2 := l1 ++ [EConverse msgs' a2] in
        match a2 with
        | Raise e => (Raise e, l2)
        | Ret follow_up =>
            match AgenticWeatherAssistant.first_text follow_up with
            | Raise e => (Raise e, l2)
            | Ret t =>
                AgenticWeatherAssistant.process_blocks env rm rest
                  ((fr ++ [("[Calling tool " ++ name tu ++ "]")%string]) ++ [t])
                  msgs' l2
            end
        end
    end.
Proof.
  cbn [AgenticWeatherAssistant.process_blocks].
  unfold bind, session_call_tool, bedrock_converse, lift, tool_result_message.
  destruct (call_tool env (count_call_tool l) (name tu) (input tu)) as [answer|e];
    [|reflexivity].
  cbv zeta.
  match goal with
  | |- context [converse env ?n ?m] => destruct (converse env n m) as [fu|e]
  end; [|reflexivity].
  destruct (AgenticWeatherAssistant.first_text fu); reflexivity.
Qed.

(** The loop only ever extends the log; the calls it adds are bounded by
    the tool-use blocks it is given, and no follow-up call is made
    without the tool call before it. *)
Lemma process_blocks_bounds env rm :
  forall content_blocks fr msgs l,
  exists tr,
    snd (AgenticWeatherAssistant.process_blocks env rm content_blocks fr msgs l)
    = l ++ tr
    /\ count_call_tool tr <= List.length (tool_uses content_blocks)
    /\ count_converse tr <= count_call_tool tr.
Proof.
  induction content_blocks as [|blk rest IH]; intros fr msgs l.
  - exists []. cbn. rewrite List.app_nil_r. repeat split; lia.
  - destruct blk as [t|tu|id rj|]; try (cbn [AgenticWeatherAssistant.process_blocks tool_uses]; apply IH).
    rewrite process_blocks_tool_use. cbv zeta. cbn [tool_uses List.length].
    destruct (call_tool env (count_call_tool l) (name tu) (input tu)) as [answer|e].
    + match goal with
      | |- context [converse env ?n ?m] =>
          destruct (converse env n m) as [fu|e] eqn:E2
      end.
      * destruct (AgenticWeatherAssistant.first_text fu) as [t|e].
        -- match goal with
           | |- context [AgenticWeatherAssistant.process_blocks env rm rest ?a ?b ?c] =>
               destruct (IH a b c) as (tr & Hs & H1 & H2)
           end.
           eexists. split; [rewrite Hs, <- !List.app_assoc; reflexivity|].
           cbn [app]. unfold count_call_tool, count_converse in *.
           cbn. split; lia.
        -- eexists. split; [cbn [snd]; rewrite <- !List.app_assoc; reflexivity|].
           cbn. split; lia.
      * eexists. split; [cbn [snd]; rewrite <- !List.app_assoc; reflexivity|].
        cbn. split; lia.
    + eexists. split; [cbn [snd]; reflexivity|]. cbn. split; lia.
Qed.


(** Where a fault of a remote party can sit in the log of the loop: at
    its end, and then the loop raises it. *)
Lemma process_blocks_faults env rm :
  forall content_blocks fr msgs l,
  exists tr,
    snd (AgenticWeatherAssistant.process_blocks env rm content_blocks fr msgs l)
    = l ++ tr
    /\ (Forall clean tr
        \/ exists tr0 ev e,
             tr = tr0 ++ [ev] /\ Forall clean tr0 /\ fault_of ev = Some e
             /\ fst (AgenticWeatherAssistant.process_blocks env rm
                       content_blocks fr msgs l) = Raise e).
Proof.
  induction content_blocks as [|blk rest IH]; intros fr msgs l.
  - exists []. cbn. rewrite List.app_nil_r. split; [reflexivity|left; constructor].
  - destruct blk as [t|tu|id rj|]; try (cbn [AgenticWeatherAssistant.process_blocks]; apply IH).
    rewrite process_blocks_tool_use. cbv zeta.
    destruct (call_tool env (count_call_tool l) (name tu) (input tu)) as [answer|e].
    + match goal with
      | |- context [converse env ?n ?m] =>
          destruct (converse env n m) as [fu|e] eqn:E2
      end.
      * destruct (AgenticWeatherAssistant.first_text fu) as [t|e].
        -- match goal with
           | |- context [AgenticWeatherAssistant.process_blocks env rm rest ?a ?b ?c] =>
               destruct (IH a b c) as (tr & Hs & Hf)
           end.
           eexists. split; [rewrite Hs, <- !List.app_assoc; reflexivity|].
           cbn [app].
           destruct Hf as [Hf|(tr0 & ev & e & Ht & Hc & Hfe & Hr)].
           ++ left. repeat constructor. exact Hf.
           ++ right. eexists (_ :: _ :: tr0), ev, e. subst tr.
              repeat split; try assumption. repeat constructor. exact Hc.
        -- eexists. split; [cbn [snd]; rewrite <- !List.app_assoc; reflexivity|].
           left. repeat constructor.
      * eexists. split; [cbn [snd]; rewrite <- !List.app_assoc; reflexivity|].
        right. eexists [_], _, e. cbn [app]. repeat split. repeat constructor.
    + eexists. split; [cbn [snd]; reflexivity|].
      right. exists [], (ECallTool (name tu) (input tu) (Raise e)), e.
      repeat split. constructor.
Qed.

(** With remote parties that do not fault, the loop makes one round per
    tool-use block. *)
Lemma process_blocks_rounds env rm first_followup :
  fault_free env first_followup ->
  forall content_blocks fr msgs l,
    first_followup <= count_converse l ->
    exists out tr,
      AgenticWeatherAssistant.process_blocks env rm content_blocks fr msgs l
      = (Ret out, l ++ tr)
      /\ rounds (tool_uses content_blocks) tr.
Proof.
  intros [Htool Hmodel].
  induction content_blocks as [|blk rest IH]; intros fr msgs l Hl.
  - exists fr, []. cbn. rewrite List.app_nil_r. split; [reflexivity|constructor].
  - destruct blk as [t|tu|id rj|]; try (cbn [AgenticWeatherAssistant.process_blocks tool_uses]; apply IH; exact Hl).
    rewrite process_blocks_tool_use. cbv zeta. cbn [tool_uses].
    destruct (Htool (count_call_tool l) (name tu) (input tu)) as [answer Ha].
    rewrite Ha.
    match goal with
    | |- context [converse env ?n ?m] =>
        destruct (Hmodel n m) as (fu & Hfu & t & more & Ht)
    end.
    { rewrite count_converse_app. lia. }
    rewrite Hfu. unfold AgenticWeatherAssistant.first_text. rewrite Ht.
    match goal with
    | |- context [AgenticWeatherAssistant.process_blocks env rm rest ?a ?b ?c] =>
        destruct (IH a b c) as (out & tr & Hs & Hr)
    end.
    { rewrite !count_converse_app. lia. }
    eexists out, _. split.
    + rewrite Hs, <- !List.app_assoc. reflexivity.
    + cbn [app]. constructor. exact Hr.
Qed.


(** One run of model-directed dispatch, for an assistant that has tools:
    the first call of the model, the loop over the reply, and keyword
    dispatch from where a fault stopped them. *)
Lemma process_query_with_llm_eq env self query l :
  AgenticWeatherAssistant.available_tools self <> [] ->
  AgenticWeatherAssistant.process_query_with_llm env self query l
  = let msgs := [user_message query] in
    let a0 := converse env (count_converse l) msgs in
    let l0 := l ++ [EConverse msgs a0] in
    match a0 with
    | Raise _ => AgenticWeatherAssistant.process_query_direct env query l0
    | Ret reply =>
        match AgenticWeatherAssistant.process_blocks env reply (blocks reply)
                [] msgs l0 with
        | (Ret final_responses, l1) => (Ret (join nl final_responses), l1)
        | (Raise _, l1) =>
            AgenticWeatherAssistant.process_query_direct env query l1
        end
    end.
Proof.
  intros Htools.
  unfold AgenticWeatherAssistant.process_query_with_llm.
  destruct (AgenticWeatherAssistant.available_tools self) as [|tool tools];
    [contradiction|].
  unfold AgenticWeatherAssistant.converse_and_process, try_except, bind, ret,
    bedrock_converse, user_message.
  cbv zeta.
  destruct (converse env (count_converse l) _) as [reply|e].
  - destruct (AgenticWeatherAssistant.process_blocks env reply (blocks reply) [] _ _)
      as [[fr|e] l1]; [reflexivity|].
    rewrite process_query_direct_eq. reflexivity.
  - rewrite process_query_direct_eq. reflexivity.
Qed.

Lemma faulty_converse_clean ev : clean ev -> faulty_converse ev = false.
Proof. destruct ev as [m [r|e]|n a [r|e]]; cbv; intros H; congruence. Qed.

Lemma no_fault_in xs pre x post :
  Forall (fun ev => faulty_converse ev = false) xs ->
  faulty_converse x = true ->
  pre ++ x :: post = xs -> False.
Proof.
  intros Hf Hx E. subst xs. apply Forall_app in Hf. destruct Hf as [_ Hf].
  inversion Hf as [|? ? Hx' _]; subst. congruence.
Qed.

Lemma fault_position xs ys ev pre x post :
  Forall (fun ev => faulty_converse ev = false) xs ->
  Forall (fun ev => faulty_converse ev = false) ys ->
  faulty_converse x = true ->
  pre ++ x :: post = xs ++ ev :: ys ->
  pre = xs /\ x = ev /\ post = ys.
Proof.
  intros Hxs Hys Hx. revert pre.
  induction xs as [|a xs IH]; intros pre E.
  - destruct pre as [|p pre]; cbn in E.
    + injection E as E1 E2. repeat split; assumption.
    + injection E as E1 E2. exfalso.
      exact (no_fault_in ys pre x post Hys Hx E2).
  - inversion Hxs as [|? ? Ha Hxs']; subst.
    destruct pre as [|p pre]; cbn in E.
    + injection E as E1 E2. subst a. congruence.
    + injection E as E1 E2. subst p.
      destruct (IH Hxs' pre E2) as (H1 & H2 & H3). subst. repeat split.
Qed.

Lemma Forall_clean_no_fault tr :
  Forall clean tr -> Forall (fun ev => faulty_converse ev = false) tr.
Proof. apply Forall_impl. exact faulty_converse_clean. Qed.

(** C7.  Model-fault fallback.  Take any run of model-directed
    dispatch.  If a call of the model raised in it, the first call or a
    follow-up, then from that call on the run is exactly keyword
    dispatch for the same query: same answer, same log.  The answer is
    then the rendering of what the tool session replied to the one call
    keyword dispatch makes; the fault of the model is not the answer.
    In particular, when the assistant has tools and the first call of
    the model raises, the run is that call followed by keyword
    dispatch. *)
Theorem model_fault_falls_back :
  forall env self query l,
    (forall pre messages e post,
        snd (AgenticWeatherAssistant.process_query_with_llm env self query l)
        = l ++ pre ++ EConverse messages (Raise e) :: post ->
        AgenticWeatherAssistant.process_query_with_llm env self query l
        = AgenticWeatherAssistant.process_query_direct env query
            (l ++ pre ++ [EConverse messages (Raise e)])
        /\ exists answer,
             post = [ECallTool (tool_of (keyword_category query))
                       default_arguments answer]
             /\ fst (AgenticWeatherAssistant.process_query_with_llm env self query l)
                = Ret (answer_with render_direct query answer))
    /\ (forall e,
          AgenticWeatherAssistant.available_tools self <> [] ->
          converse env (count_converse l) [user_message query] = Raise e ->
          AgenticWeatherAssistant.process_query_with_llm env self query l
          = AgenticWeatherAssistant.process_query_direct env query
              (l ++ [EConverse [user_message query] (Raise e)])).
Proof.
  intros env self query l. split.
  - intros pre messages e post Hlog.
    assert (Htools : AgenticWeatherAssistant.available_tools self <> []).
    { intros Hnone. unfold AgenticWeatherAssistant.process_query_with_llm in Hlog.
      rewrite Hnone in Hlog. cbn in Hlog.
      rewrite <- (List.app_nil_r l) in Hlog at 1.
      apply List.app_inv_head in Hlog. destruct pre; discriminate Hlog. }
    rewrite (process_query_with_llm_eq env self query l Htools) in *.
    cbv zeta in *.
    destruct (converse env (count_converse l) [user_message query])
      as [reply|e0] eqn:E0.
    + destruct (process_blocks_faults env reply (blocks reply) []
                  [user_message query]
                  (l ++ [EConverse [user_message query] (Ret reply)]))
        as (tr & Hs & Hf).
      destruct (AgenticWeatherAssistant.process_blocks env reply (blocks reply) []
                  [user_message query]
                  (l ++ [EConverse [user_message query] (Ret reply)]))
        as [[fr|e1] l1] eqn:Eb; cbn [fst snd] in *;
        rewrite Hs in Hlog |- *; clear Hs.
      * exfalso. rewrite <- List.app_assoc in Hlog.
        apply List.app_inv_head in Hlog. cbn [app] in Hlog.
        destruct Hf as [Hf|(tr0 & ev & e2 & _ & _ & _ & Hr)];
          [|discriminate Hr].
        apply (no_fault_in (EConverse [user_message query] (Ret reply) :: tr)
                 pre (EConverse messages (Raise e)) post);
          [constructor; [reflexivity|apply Forall_clean_no_fault, Hf]
          |reflexivity|symmetry; exact Hlog].
      * rewrite process_query_direct_eq in Hlog. cbv zeta in Hlog.
        cbn [snd] in Hlog. rewrite <- !List.app_assoc in Hlog.
        apply List.app_inv_head in Hlog. cbn [app] in Hlog.
        destruct Hf as [Hf|(tr0 & ev & e2 & Ht & Hc & Hfe & Hr)].
        -- exfalso.
           refine (no_fault_in _ pre _ post _ _ (eq_sym Hlog));
             [|reflexivity].
           constructor; [reflexivity|]. apply Forall_app. split;
             [apply Forall_clean_no_fault, Hf|repeat constructor].
        -- subst tr. rewrite <- List.app_assoc in Hlog. cbn [app] in Hlog.
           change (EConverse [user_message query] (Ret reply)
                   :: tr0 ++ ev :: ?t)
             with ((EConverse [user_message query] (Ret reply) :: tr0)
                   ++ ev :: t) in Hlog.
           symmetry in Hlog.
           apply fault_position in Hlog;
             [|constructor; [reflexivity|apply Forall_clean_no_fault, Hc]
              |repeat constructor|reflexivity].
           destruct Hlog as (Hpre & Hev & Hpost). subst pre ev.
           split.
           ++ f_equal. cbn [app]. rewrite <- !List.app_assoc. reflexivity.
           ++ eexists. split; [exact Hpost|].
              rewrite process_query_direct_eq. cbv zeta. cbn [fst].
              rewrite <- !List.app_assoc. reflexivity.
    + rewrite process_query_direct_eq in Hlog. cbv zeta in Hlog.
      cbn [snd] in Hlog. rewrite <- !List.app_assoc in Hlog.
      apply List.app_inv_head in Hlog. cbn [app] in Hlog.
      symmetry in Hlog.
      apply (fault_position [] _ _ pre) in Hlog;
        [|constructor|repeat constructor|reflexivity].
      destruct Hlog as (Hpre & Hev & Hpost). subst pre.
      injection Hev as Hm He. subst messages e0.
      split; [reflexivity|].
      eexists. split; [exact Hpost|].
      rewrite process_query_direct_eq. reflexivity.
  - intros e Htools He.
    rewrite (process_query_with_llm_eq env self query l Htools).
    cbv zeta. rewrite He. reflexivity.
Qed.

Lemma model_fault_falls_back_witness :
  AgenticWeatherAssistant.process_query_with_llm unreachable_model
    weather_assistant "Will it rain tomorrow?" []
  = AgenticWeatherAssistant.process_query_direct unreachable_model
      "Will it rain tomorrow?"
      [EConverse [user_message "Will it rain tomorrow?"]
         (Raise "Could not connect to the endpoint URL")].
Proof.
  refine (proj2 (model_fault_falls_back unreachable_model weather_assistant
                   "Will it rain tomorrow?" []) _ _ _).
  - discriminate.
  - reflexivity.
Defined.





(* ================================================================= *)
(** ** More on the weather fetcher and the tools *)





(** X2.  The browser session of a fetch: the fetch opens one session on
    the page of its category; when that fails nothing else is called;
    otherwise it issues the instruction of the category once, takes at
    most one screenshot, and only when one was asked for and the
    extraction returned, and closes the session as its last call,
    whatever happened in between. *)
Theorem fetch_session_discipline :
  forall b f headless take_screenshot l,
  exists rest,
    snd (run_fetch b f headless take_screenshot l)
    = l ++ Server.EStart (fetch_url f) headless :: rest
    /\ (forall e, Server.nova_start b (fetch_url f) headless = Some e ->
                  rest = [])
    /\ (Server.nova_start b (fetch_url f) headless = None ->
        exists shots,
          rest = Server.EAct (fetch_instruction f) :: shots ++ [Server.EStop]
          /\ (shots = []
              \/ shots = [Server.EScreenshot (capture_path b (fetch_shot_name f))])
          /\ (shots <> [] <->
              take_screenshot = true
              /\ exists data,
                   Server.nova_act_response b (fetch_instruction f) = Ret data)).
Proof.
  intros b f headless take_screenshot l.
  rewrite run_fetch_eq. cbn [snd]. unfold fetch_events.
  eexists. split; [reflexivity|].
  destruct (Server.nova_start b (fetch_url f) headless) as [e0|].
  - split; [reflexivity|discriminate].
  - split; [discriminate|]. intros _.
    destruct (Server.nova_act_response b (fetch_instruction f)) as [data|e1].
    + destruct take_screenshot.
      * exists [Server.EScreenshot (capture_path b (fetch_shot_name f))].
        split; [reflexivity|]. split; [right; reflexivity|].
        split; [intros _; split; [reflexivity|exists data; reflexivity]
               |discriminate].
      * exists []. split; [reflexivity|]. split; [left; reflexivity|].
        split; [intros H; contradiction|intros [H _]; discriminate H].
    + exists []. split; [reflexivity|]. split; [left; reflexivity|].
      split; [intros H; contradiction|intros [_ [data H]]; discriminate H].
Qed.

(** X3.  A tool of the registry hands its fetch to the worker pool and
    returns what the fetch returns, unchanged.  When the pool refuses
    the job, the browser is never started and the tool returns the
    failure value of its category with the message of the refusal. *)
Theorem tool_returns_fetch_verbatim :
  forall b f headless take_screenshot l,
    (Server.pool_submit b = None ->
     run_tool b f headless take_screenshot l
     = run_fetch b f headless take_screenshot (l ++ [Server.ESubmit]))
    /\ (forall e,
          Server.pool_submit b = Some e ->
          run_tool b f headless take_screenshot l
          = (Ret (fetch_failure (fetch_error_prefix f) e),
             l ++ [Server.ESubmit])).
Proof.
  intros b f headless take_screenshot l.
  rewrite run_tool_eq, run_fetch_eq. split.
  - intros H. rewrite H, <- List.app_assoc. reflexivity.
  - intros e H. rewrite H. reflexivity.
Qed.

Lemma tool_returns_fetch_verbatim_witness :
  Server.get_hk_forecast pool_shut_down 3 true true []
  = (Ret (fetch_failure "Error retrieving forecast: "
            "cannot schedule new futures after shutdown"),
     [Server.ESubmit]).
Proof.
  exact (proj2 (tool_returns_fetch_verbatim pool_shut_down (FForecast 3)
                  true true [])
           "cannot schedule new futures after shutdown" eq_refl).
Defined.

Lemma fetch_result_cases b f headless take_screenshot :
  (exists e, fetch_result b f headless take_screenshot
             = fetch_failure (fetch_error_prefix f) e)
  \/ (exists data,
        Server.nova_act_response b (fetch_instruction f) = Ret data
        /\ fetch_result b f headless take_screenshot
           = fetch_succeeded f data (reported_path b f take_screenshot)).
Proof.
  unfold fetch_result, reported_path.
  destruct (Server.nova_start b (fetch_url f) headless) as [e|];
    [left; exists e; reflexivity|].
  destruct (Server.nova_stop b) as [e|]; [left; exists e; reflexivity|].
  destruct (Server.nova_act_response b (fetch_instruction f)) as [data|e];
    [|left; exists e; reflexivity].
  right. exists data. split; reflexivity.
Qed.

(** X4.  The shape of what a fetch and its tool return: always a dict
    with distinct keys whose [success] is a boolean and whose [message]
    is a string.  When [success] is true the dict has the data field of
    its category and [screenshot_path] and no [error]; when it is false
    the dict has [error], a string, and neither the data field nor
    [screenshot_path]. *)
Theorem fetch_result_shape :
  forall b f headless take_screenshot l,
    well_shaped f (fst (run_fetch b f headless take_screenshot l))
    /\ well_shaped f (fst (run_tool b f headless take_screenshot l)).
Proof.
  intros b f headless take_screenshot l.
  assert (Hfail : forall e,
            well_shaped f (Ret (fetch_failure (fetch_error_prefix f) e))).
  { intros e. eexists. exists false. eexists.
    split; [reflexivity|]. split; [reflexivity|]. split; [reflexivity|].
    split; [reflexivity|]. split; [discriminate|]. intros _.
    split; [eexists; reflexivity|]. destruct f; split; reflexivity. }
  assert (Hres : well_shaped f (Ret (fetch_result b f headless take_screenshot))).
  { destruct (fetch_result_cases b f headless take_screenshot)
      as [[e E]|(data & _ & E)]; rewrite E; [apply Hfail|].
    eexists. exists true. eexists.
    split; [reflexivity|].
    split; [destruct f; reflexivity|].
    split; [reflexivity|]. split; [reflexivity|].
    split; [|discriminate]. intros _. destruct f; repeat split. }
  rewrite run_fetch_eq, run_tool_eq. split; [exact Hres|].
  destruct (Server.pool_submit b) as [e|]; cbn [fst]; [apply Hfail|exact Hres].
Qed.

Lemma fetch_result_ok b f headless take_screenshot :
  (forall data, Server.nova_act_response b (fetch_instruction f) = Ret data ->
                json_ok data = true) ->
  json_ok (fetch_result b f headless take_screenshot) = true.
Proof.
  intros Hdata.
  destruct (fetch_result_cases b f headless take_screenshot)
    as [[e E]|(data & Hd & E)]; rewrite E.
  - destruct f; reflexivity.
  - specialize (Hdata data Hd). unfold reported_path.
    destruct take_screenshot;
      [destruct (Server.page_screenshot b _)|];
      destruct f; cbn; rewrite Hdata; reflexivity.
Qed.

Lemma fetch_session_discipline_witness :
  exists rest,
    snd (run_fetch broken_page FWarnings false true [])
    = Server.EStart warnings_url false :: rest
    /\ rest = [Server.EAct warnings_instruction; Server.EStop].
Proof.
  destruct (fetch_session_discipline broken_page FWarnings false true [])
    as (rest & Hs & _ & Hshots).
  destruct (Hshots eq_refl) as (shots & Hrest & _ & Hiff).
  exists rest. split; [exact Hs|].
  destruct shots as [|s shots]; [exact Hrest|].
  exfalso. destruct (proj1 Hiff ltac:(discriminate)) as (_ & data & Hd).
  discriminate Hd.
Defined.



(* ================================================================= *)
(** ** More on the two dispatchers *)

Lemma process_query_with_llm_returns env self query l :
  exists out tr,
    AgenticWeatherAssistant.process_query_with_llm env self query l
    = (Ret out, l ++ tr).
Proof.
  destruct (AgenticWeatherAssistant.available_tools self) as [|t ts] eqn:Et.
  - exists "No tools available on the server.", [].
    unfold AgenticWeatherAssistant.process_query_with_llm. rewrite Et.
    cbn. rewrite List.app_nil_r. reflexivity.
  - rewrite process_query_with_llm_eq by (rewrite Et; discriminate).
    cbv zeta.
    destruct (converse env (count_converse l) [user_message query])
      as [reply|e].
    + set (l0 := l ++ [EConverse [user_message query] (Ret reply)]).
      destruct (process_blocks_bounds env reply (blocks reply) []
                  [user_message query] l0) as (tr & Hs & _).
      destruct (AgenticWeatherAssistant.process_blocks env reply (blocks reply)
                  [] [user_message query] l0) as [[fr|e] l1];
        cbn [snd] in Hs; subst l1.
      * eexists. eexists. unfold l0. rewrite <- List.app_assoc. reflexivity.
      * rewrite process_query_direct_eq. cbv zeta.
        eexists. eexists. unfold l0. rewrite <- !List.app_assoc. reflexivity.
    + rewrite process_query_direct_eq. cbv zeta.
      eexists. eexists. rewrite <- List.app_assoc. reflexivity.
Qed.

(** X6.  Model-directed dispatch always answers: whatever the model
    endpoint and the tool session do, [process_query_with_llm] returns a
    string and only adds to the log.  For an assistant without tools the
    answer is "No tools available on the server." and no call is made,
    neither to the model nor to the tool session. *)
Theorem llm_dispatch_always_answers :
  forall env self query l,
  exists out tr,
    AgenticWeatherAssistant.process_query_with_llm env self query l
    = (Ret out, l ++ tr)
    /\ (AgenticWeatherAssistant.available_tools self = [] ->
        out = "No tools available on the server." /\ tr = []).
Proof.
  intros env self query l.
  destruct (process_query_with_llm_returns env self query l) as (out & tr & H).
  exists out, tr. split; [exact H|]. intros Hnone.
  unfold AgenticWeatherAssistant.process_query_with_llm in H.
  rewrite Hnone in H. cbn in H. injection H as Hout Hl.
  split; [symmetry; exact Hout|].
  apply (List.app_inv_head l). rewrite List.app_nil_r. symmetry. exact Hl.
Qed.

Lemma llm_dispatch_always_answers_witness :
  AgenticWeatherAssistant.process_query_with_llm all_down no_tools
    "Is it raining now?" []
  = (Ret "No tools available on the server.", []).
Proof.
  destruct (llm_dispatch_always_answers all_down no_tools "Is it raining now?" [])
    as (out & tr & H & Hnone).
  destruct (Hnone eq_refl) as [Hout Htr].
  rewrite H, Hout, Htr. reflexivity.
Defined.

(** X7.  A fault of the tool session is what the user is told.  When
    the one tool call of keyword dispatch raises, both dispatchers
    answer "Error processing query: " followed by the message of that
    exception, for every query.  The same holds for model-directed
    dispatch after a fault of the model: the answer carries the message
    of the tool fault, not that of the model. *)
Theorem tool_fault_is_reported :
  forall env query l e,
    next_tool_answer env l (tool_of (keyword_category query)) = Raise e ->
    fst (AgenticWeatherAssistant.process_query_direct env query l)
    = Ret ("Error processing query: " ++ e)%string
    /\ fst (HKWeatherMCPClient.process_query env query l)
       = Ret ("Error processing query: " ++ e)%string
    /\ (forall self e_model,
          AgenticWeatherAssistant.available_tools self <> [] ->
          converse env (count_converse l) [user_message query] = Raise e_model ->
          fst (AgenticWeatherAssistant.process_query_with_llm env self query l)
          = Ret ("Error processing query: " ++ e)%string).
Proof.
  intros env query l e He.
  rewrite process_query_direct_eq, process_query_eq. cbv zeta. cbn [fst].
  rewrite He. split; [reflexivity|]. split; [reflexivity|].
  intros self e_model Htools Hm.
  rewrite (process_query_with_llm_eq env self query l Htools). cbv zeta.
  rewrite Hm, process_query_direct_eq. cbv zeta. cbn [fst].
  unfold next_tool_answer in *. rewrite count_call_tool_app.
  change (count_call_tool [EConverse ?m ?a]) with 0.
  rewrite Nat.add_0_r, He. reflexivity.
Qed.

Lemma tool_fault_is_reported_witness :
  fst (AgenticWeatherAssistant.process_query_with_llm all_down weather_assistant
         "Any typhoon warning?" [])
  = Ret "Error processing query: Connection closed".
Proof.
  refine (proj2 (proj2 (tool_fault_is_reported all_down "Any typhoon warning?" []
                          "Connection closed" eq_refl))
            weather_assistant "Could not connect to the endpoint URL" _ eq_refl).
  discriminate.
Defined.

(** X8.  The layers of the normaliser.  The value field is a fallback
    only: it is returned, as it is, exactly when the content list is not
    usable (absent, empty, or with a first element without text or with
    empty text); when the content list is usable the value field is
    never looked at, also when the text fails to parse.  Of the content
    list only the first element counts. *)
Theorem value_field_is_a_fallback :
  forall (r : tool_response),
    (usable_content r = false ->
     forall v, value r = Some v ->
               AgenticWeatherAssistant.extract_response_data r = v)
    /\ (usable_content r = true ->
        forall v',
          AgenticWeatherAssistant.extract_response_data r
          = AgenticWeatherAssistant.extract_response_data
              {| content := content r; value := v' |})
    /\ (forall first more more',
          content r = Some (first :: more) ->
          AgenticWeatherAssistant.extract_response_data r
          = AgenticWeatherAssistant.extract_response_data
              {| content := Some (first :: more'); value := value r |}).
Proof.
  intros [c val]. unfold usable_content,
    AgenticWeatherAssistant.extract_response_data. cbn [content value].
  split; [|split].
  - intros Hu v Hv. subst val.
    destruct c as [[|[[t|]] more]|]; try reflexivity.
    cbn [item_text] in *.
    destruct (String.eqb t ""); [reflexivity|discriminate Hu].
  - intros Hu v'.
    destruct c as [[|[[t|]] more]|]; try discriminate Hu.
    cbn [item_text] in *.
    destruct (String.eqb t ""); [discriminate Hu|reflexivity].
  - intros first more more' Hc. cbn [content] in Hc. subst c. reflexivity.
Qed.

Lemma value_field_is_a_fallback_witness :
  AgenticWeatherAssistant.extract_response_data
    {| content := Some [{| item_text := None |}]; value := Some (JInt 7) |}
  = JInt 7
  /\ AgenticWeatherAssistant.extract_response_data
       (envelope "oops" [] (Some (JInt 7)))
     = AgenticWeatherAssistant.extract_response_data
         (envelope "oops" [] None).
Proof.
  split.
  - exact (proj1 (value_field_is_a_fallback
                    {| content := Some [{| item_text := None |}];
                       value := Some (JInt 7) |})
             eq_refl (JInt 7) eq_refl).
  - exact (proj1 (proj2 (value_field_is_a_fallback
                           (envelope "oops" [] (Some (JInt 7)))))
             eq_refl None).
Defined.

Lemma requests_app l1 l2 : requests (l1 ++ l2) = requests l1 ++ requests l2.
Proof.
  induction l1 as [|[m a|n a r] l1 IH]; cbn; rewrite ?IH; reflexivity.
Qed.

Lemma process_blocks_chain env rm :
  forall content_blocks fr msgs l,
  exists tr,
    snd (AgenticWeatherAssistant.process_blocks env rm content_blocks fr msgs l)
    = l ++ tr
    /\ chain rm msgs (tool_uses content_blocks) (requests tr).
Proof.
  induction content_blocks as [|blk rest IH]; intros fr msgs l.
  - exists []. cbn. rewrite List.app_nil_r. split; [reflexivity|constructor].
  - destruct blk as [t|tu|id rj|];
      try (cbn [AgenticWeatherAssistant.process_blocks tool_uses]; apply IH).
    rewrite process_blocks_tool_use. cbv zeta. cbn [tool_uses].
    destruct (call_tool env (count_call_tool l) (name tu) (input tu)) as [answer|e].
    + match goal with
      | |- context [converse env ?n ?m] =>
          destruct (converse env n m) as [fu|e] eqn:E2
      end.
      * destruct (AgenticWeatherAssistant.first_text fu) as [t|e].
        -- match goal with
           | |- context [AgenticWeatherAssistant.process_blocks env rm rest ?a ?b ?c] =>
               destruct (IH a b c) as (tr & Hs & Hc)
           end.
           eexists. split; [rewrite Hs, <- !List.app_assoc; reflexivity|].
           cbn [app requests]. constructor. exact Hc.
        -- eexists. split; [cbn [snd]; rewrite <- !List.app_assoc; reflexivity|].
           cbn [app requests]. constructor. constructor.
      * eexists. split; [cbn [snd]; rewrite <- !List.app_assoc; reflexivity|].
        cbn [app requests]. constructor. constructor.
    + eexists. split; [cbn [snd]; reflexivity|]. cbn. constructor.
Qed.

Lemma chain_growth reply :
  forall prev tus reqs,
    chain reply prev tus reqs ->
    forall k req,
      nth_error reqs k = Some req ->
      List.length req = List.length prev + 2 * (k + 1)
      /\ firstn (List.length prev) req = prev.
Proof.
  induction 1 as [prev tus|prev tu tus answer reqs Hc IH]; intros k req Hk.
  - destruct k; discriminate Hk.
  - destruct k as [|k]; cbn in Hk.
    + injection Hk as Hk. subst req. rewrite List.length_app. cbn.
      split; [lia|]. rewrite List.firstn_app, Nat.sub_diag, List.firstn_all.
      cbn. apply List.app_nil_r.
    + destruct (IH k req Hk) as [Hlen Hpre].
      rewrite List.length_app in Hlen, Hpre. cbn [List.length] in Hlen, Hpre.
      split; [lia|].
      assert (E : firstn (List.length prev)
                    (firstn (List.length prev + 2) req)
                  = firstn (List.length prev) req).
      { rewrite List.firstn_firstn. f_equal. lia. }
      rewrite <- E, Hpre, List.firstn_app, Nat.sub_diag, List.firstn_all.
      cbn. apply List.app_nil_r.
Qed.

(** X9.  The conversation grows with every tool round.  In any run of
    model-directed dispatch whose first call returned [reply], the
    follow-up requests answer the tool-use blocks of [reply] in order,
    and each one is the request before it, starting from the user's
    message, extended by two messages: [reply] itself, again, and the
    result message of the block, which carries the toolUseId of the
    block.  So the request of follow-up number k (counting from 0) has
    2k+3 messages and begins with the user's message. *)
Theorem followup_conversation_grows :
  forall env self query l reply,
    AgenticWeatherAssistant.available_tools self <> [] ->
    converse env (count_converse l) [user_message query] = Ret reply ->
    exists tr,
      snd (AgenticWeatherAssistant.process_query_with_llm env self query l)
      = l ++ EConverse [user_message query] (Ret reply) :: tr
      /\ chain reply [user_message query] (tool_uses (blocks reply))
           (requests tr)
      /\ (forall k req,
            nth_error (requests tr) k = Some req ->
            List.length req = 2 * k + 3
            /\ firstn 1 req = [user_message query]).
Proof.
  intros env self query l reply Htools Hreply.
  rewrite (process_query_with_llm_eq env self query l Htools).
  cbv zeta. rewrite Hreply.
  set (l0 := l ++ [EConverse [user_message query] (Ret reply)]).
  destruct (process_blocks_chain env reply (blocks reply) []
              [user_message query] l0) as (tr & Hs & Hc).
  assert (Hgoal : forall tr',
            requests tr' = requests tr ->
            chain reply [user_message query] (tool_uses (blocks reply))
              (requests tr')
            /\ (forall k req,
                  nth_error (requests tr') k = Some req ->
                  List.length req = 2 * k + 3
                  /\ firstn 1 req = [user_message query])).
  { intros tr' E. rewrite E. split; [exact Hc|]. intros k req Hk.
    destruct (chain_growth reply _ _ _ Hc k req Hk) as [Hlen Hpre].
    cbn [List.length] in Hlen, Hpre. split; [lia|exact Hpre]. }
  destruct (AgenticWeatherAssistant.process_blocks env reply (blocks reply) []
              [user_message query] l0) as [[fr|e] l1];
    cbn [snd] in Hs; subst l1.
  - exists tr. cbn [snd]. unfold l0. rewrite <- List.app_assoc.
    split; [reflexivity|]. apply Hgoal. reflexivity.
  - rewrite process_query_direct_eq. cbv zeta. cbn [snd].
    eexists (tr ++ [_]). unfold l0. rewrite <- !List.app_assoc.
    split; [reflexivity|]. apply Hgoal.
    rewrite requests_app. cbn. apply List.app_nil_r.
Qed.

Lemma followup_conversation_grows_witness :
  exists tr,
    snd (AgenticWeatherAssistant.process_query_with_llm thorough_model
           weather_assistant "How is it outside?" [])
    = EConverse [user_message "How is it outside?"] (Ret two_requests) :: tr
    /\ forall k req, nth_error (requests tr) k = Some req ->
                     List.length req = 2 * k + 3.
Proof.
  destruct (followup_conversation_grows thorough_model weather_assistant
              "How is it outside?" [] two_requests)
    as (tr & Hs & _ & Hlen).
  - discriminate.
  - reflexivity.
  - exists tr. split; [exact Hs|]. intros k req Hk. apply (Hlen k req Hk).
Defined.

Lemma process_blocks_transcript env rm :
  forall content_blocks fr msgs l,
  exists tr,
    snd (AgenticWeatherAssistant.process_blocks env rm content_blocks fr msgs l)
    = l ++ tr
    /\ forall out,
         fst (AgenticWeatherAssistant.process_blocks env rm content_blocks
                fr msgs l) = Ret out ->
         out = fr ++ transcript content_blocks (followup_texts tr)
         /\ List.length (followup_texts tr)
            = List.length (tool_uses content_blocks).
Proof.
  induction content_blocks as [|blk rest IH]; intros fr msgs l.
  - exists []. cbn. rewrite !List.app_nil_r. split; [reflexivity|].
    intros out H. injection H as H. split; [symmetry; exact H|reflexivity].
  - destruct blk as [t|tu|id rj|].
    + cbn [AgenticWeatherAssistant.process_blocks transcript tool_uses].
      destruct (IH (fr ++ [t]) msgs l) as (tr & Hs & Ho).
      exists tr. split; [exact Hs|]. intros out H.
      destruct (Ho out H) as [Hout Hlen]. split; [|exact Hlen].
      rewrite Hout, <- List.app_assoc. reflexivity.
    + rewrite process_blocks_tool_use. cbv zeta. cbn [tool_uses].
      destruct (call_tool env (count_call_tool l) (name tu) (input tu))
        as [answer|e].
      * match goal with
        | |- context [converse env ?n ?m] =>
            destruct (converse env n m) as [fu|e] eqn:E2
        end.
        -- destruct (AgenticWeatherAssistant.first_text fu) as [t|e] eqn:Et.
           ++ match goal with
              | |- context [AgenticWeatherAssistant.process_blocks env rm rest ?a ?b ?c] =>
                  destruct (IH a b c) as (tr & Hs & Ho)
              end.
              eexists. split; [rewrite Hs, <- !List.app_assoc; reflexivity|].
              intros out H. destruct (Ho out H) as [Hout Hlen].
              cbn [app followup_texts transcript]. rewrite Et.
              cbn [List.length]. rewrite Hlen. split; [|reflexivity].
              rewrite Hout, <- !List.app_assoc. reflexivity.
           ++ eexists. split; [cbn [snd]; rewrite <- !List.app_assoc; reflexivity|].
              intros out H. discriminate H.
        -- eexists. split; [cbn [snd]; rewrite <- !List.app_assoc; reflexivity|].
           intros out H. discriminate H.
      * eexists. split; [cbn [snd]; reflexivity|]. intros out H. discriminate H.
    + cbn [AgenticWeatherAssistant.process_blocks transcript tool_uses]. apply IH.
    + cbn [AgenticWeatherAssistant.process_blocks transcript tool_uses]. apply IH.
Qed.

Lemma thorough_model_fault_free : fault_free thorough_model 1.
Proof.
  split.
  - intros n tool_name arguments. eexists. reflexivity.
  - intros n messages Hn. destruct n as [|[|n]]; [lia| |];
      (eexists; split; [reflexivity|]; eexists; eexists; reflexivity).
Qed.

(** X10.  What the answer of model-directed dispatch is made of.  When
    no call raises and every follow-up reply opens with text, the answer
    is, joined by newlines and in the order of the blocks of the first
    reply: each text block as it is, and for each tool-use block the
    marker "[Calling tool <name>]" followed by the opening text of its
    follow-up reply.  Blocks of other kinds leave no trace, and there is
    one follow-up text for each tool-use block. *)
Theorem answer_follows_the_blocks :
  forall env self query l reply,
    AgenticWeatherAssistant.available_tools self <> [] ->
    converse env (count_converse l) [user_message query] = Ret reply ->
    fault_free env (S (count_converse l)) ->
    exists tr,
      snd (AgenticWeatherAssistant.process_query_with_llm env self query l)
      = l ++ EConverse [user_message query] (Ret reply) :: tr
      /\ fst (AgenticWeatherAssistant.process_query_with_llm env self query l)
         = Ret (join nl (transcript (blocks reply) (followup_texts tr)))
      /\ List.length (followup_texts tr)
         = List.length (tool_uses (blocks reply)).
Proof.
  intros env self query l reply Htools Hreply Hff.
  rewrite (process_query_with_llm_eq env self query l Htools).
  cbv zeta. rewrite Hreply.
  set (l0 := l ++ [EConverse [user_message query] (Ret reply)]).
  destruct (process_blocks_rounds env reply (S (count_converse l)) Hff
              (blocks reply) [] [user_message query] l0)
    as (out & tr & Hrun & _).
  { unfold l0. rewrite count_converse_app. cbn. lia. }
  destruct (process_blocks_transcript env reply (blocks reply) []
              [user_message query] l0) as (tr' & Hs & Ho).
  rewrite Hrun in Hs, Ho. cbn [fst snd] in Hs, Ho.
  apply List.app_inv_head in Hs. subst tr'.
  destruct (Ho out eq_refl) as [Hout Hlen].
  rewrite Hrun. exists tr. cbn [fst snd]. unfold l0.
  rewrite <- List.app_assoc. split; [reflexivity|].
  split; [rewrite Hout; reflexivity|exact Hlen].
Qed.

Lemma answer_follows_the_blocks_witness :
  exists tr,
    fst (AgenticWeatherAssistant.process_query_with_llm thorough_model
           weather_assistant "How is it outside?" [])
    = Ret (join nl (transcript (blocks two_requests) (followup_texts tr)))
    /\ List.length (followup_texts tr) = 2.
Proof.
  destruct (answer_follows_the_blocks thorough_model weather_assistant
              "How is it outside?" [] two_requests)
    as (tr & _ & Ha & Hlen).
  - discriminate.
  - reflexivity.
  - exact thorough_model_fault_free.
  - exists tr. split; [exact Ha|exact Hlen].
Defined.

(** ** The forecast formatter of the keyword client *)


Lemma format_days_undated :
  forall days acc,
    forallb dated days = false ->
    exists e, HKWeatherMCPClient.format_days days acc = Raise e.
Proof.
  induction days as [|day rest IH]; intros acc Hd; [discriminate Hd|].
  cbn [forallb] in Hd. apply andb_false_iff in Hd.
  destruct (dated day) eqn:Eday.
  - destruct Hd as [Hd|Hd]; [discriminate Hd|].
    destruct day as [| | | | | |m]; try discriminate Eday.
    cbn [dated] in Eday. unfold dict_has in Eday.
    cbn [HKWeatherMCPClient.format_days HKWeatherMCPClient.py_getitem
           HKWeatherMCPClient.py_get].
    destruct (dict_get "date" m) as [date|]; [|discriminate Eday].
    apply IH. exact Hd.
  - clear Hd IH.
    destruct day as [| | | | | |m]; cbn; try (eexists; reflexivity).
    cbn [dated] in Eday. unfold dict_has in Eday.
    destruct (dict_get "date" m); [discriminate Eday|].
    eexists; reflexivity.
Qed.



(** X12.  The formatter renders all days or none.  When one day of the
    list is not a dict with a date, no partial text is returned: the
    result is the input itself, whatever the days before the bad one
    were. *)
Theorem forecast_all_or_nothing :
  forall cp m days,
    json_ok (JDict m) = true ->
    dict_get forecast_key m = Some (JList days) ->
    forallb dated days = false ->
    HKWeatherMCPClient.format_forecast_data (JStr (Json.dumps cp (JDict m)))
    = JStr (Json.dumps cp (JDict m)).
Proof.
  intros cp m days Hok Hkey Hd.
  unfold HKWeatherMCPClient.format_forecast_data. cbv zeta.
  cbn [HKWeatherMCPClient.loads_any]. rewrite (loads_dumps cp _ Hok).
  cbn [HKWeatherMCPClient.py_in HKWeatherMCPClient.py_getitem].
  unfold dict_has. fold forecast_key. rewrite Hkey.
  cbn [HKWeatherMCPClient.py_iter].
  destruct (format_days_undated days "" Hd) as [e He]. rewrite He.
  reflexivity.
Qed.

Lemma forecast_all_or_nothing_witness :
  HKWeatherMCPClient.format_forecast_data
    (JStr (Json.dumps false (JDict [(forecast_key, JList broken_days)])))
  = JStr (Json.dumps false (JDict [(forecast_key, JList broken_days)])).
Proof.
  apply (forecast_all_or_nothing false
           [(forecast_key, JList broken_days)] broken_days);
    reflexivity.
Defined.

Lemma format_days_head :
  forall days acc t,
    HKWeatherMCPClient.format_days days acc = Ret t ->
    t = acc \/ exists rest, t = (acc ++ "Date: " ++ rest)%string.
Proof.
  induction days as [|day rest IH]; intros acc t H.
  - cbn in H. injection H as H. left. symmetry. exact H.
  - cbn [HKWeatherMCPClient.format_days] in H.
    destruct (HKWeatherMCPClient.py_getitem day "date") as [date|e];
      [|discriminate H].
    destruct (HKWeatherMCPClient.py_get day "daytime_temperature" (JStr "N/A"));
      [|discriminate H].
    destruct (HKWeatherMCPClient.py_get day "nighttime_temperature" (JStr "N/A"));
      [|discriminate H].
    destruct (HKWeatherMCPClient.py_get day "humidity" (JStr "N/A"));
      [|discriminate H].
    destruct (HKWeatherMCPClient.py_get day "weather" (JStr "N/A"));
      [|discriminate H].
    right. destruct (IH _ _ H) as [E|[more E]]; subst t.
    + eexists. reflexivity.
    + rewrite append_assoc. eexists. reflexivity.
Qed.

Lemma format_forecast_data_cases x :
  HKWeatherMCPClient.format_forecast_data x = x
  \/ HKWeatherMCPClient.format_forecast_data x = JStr ""
  \/ exists rest,
       HKWeatherMCPClient.format_forecast_data x = JStr ("Date: " ++ rest).
Proof.
  unfold HKWeatherMCPClient.format_forecast_data. cbv zeta.
  destruct (HKWeatherMCPClient.loads_any x) as [v|e]; [|left; reflexivity].
  destruct (HKWeatherMCPClient.py_in "9-day_weather_forecast" v) as [[|]|e];
    [|left; reflexivity|left; reflexivity].
  destruct (HKWeatherMCPClient.py_getitem v "9-day_weather_forecast")
    as [days|e]; [|left; reflexivity].
  destruct (HKWeatherMCPClient.py_iter days) as [items|e]; [|left; reflexivity].
  destruct (HKWeatherMCPClient.format_days items "") as [t|e] eqn:E;
    [|left; reflexivity].
  right. destruct (format_days_head _ _ _ E) as [Ht|[rest Ht]]; subst t.
  - left. reflexivity.
  - right. exists rest. reflexivity.
Qed.

(** X13.  Formatting is idempotent.  Whatever value the formatter is
    given, str or not, JSON or not, formatting its result again changes
    nothing: the result is either the input itself or a text that is
    not JSON, which the formatter returns as it is. *)
Theorem format_forecast_data_idempotent :
  forall x,
    HKWeatherMCPClient.format_forecast_data
      (HKWeatherMCPClient.format_forecast_data x)
    = HKWeatherMCPClient.format_forecast_data x.
Proof.
  intros x.
  destruct (format_forecast_data_cases x) as [E|[E|[rest E]]]; rewrite E.
  - exact E.
  - reflexivity.
  - reflexivity.
Qed.

(* ================================================================= *)
(** ** From the browser to the model *)

Lemma run_tool_value b f headless take_screenshot sl v :
  (forall data,
      Server.nova_act_response b (fetch_instruction f) = Ret data ->
      json_ok data = true) ->
  fst (run_tool b f headless take_screenshot sl) = Ret v ->
  json_ok v = true
  /\ ((exists e, v = fetch_failure (fetch_error_prefix f) e)
      \/ (exists data,
            v = fetch_succeeded f data (reported_path b f take_screenshot))).
Proof.
  intros Hdata Hv. rewrite run_tool_eq in Hv.
  destruct (Server.pool_submit b) as [e|]; cbn [fst] in Hv;
    injection Hv as Hv; subst v.
  - split; [destruct f; reflexivity|]. left. exists e. reflexivity.
  - split; [apply fetch_result_ok; exact Hdata|].
    destruct (fetch_result_cases b f headless take_screenshot)
      as [[e E]|(data & _ & E)]; rewrite E.
    + left. exists e. reflexivity.
    + right. exists data. reflexivity.
Qed.

(** X14.  From the browser to the model.  Let the tool session hand
    over, as JSON text, what a tool of the server returned, in answer to
    a tool-use block that names that tool.  The result message sent back
    to the model then carries the toolUseId of the block and, after a
    fault of the pool, the session or the extraction, only the message
    of that fault under "error"; after a successful extraction, the
    extracted data under "result" and under "screenshot" the path of the
    capture, or null when there was no capture.  The status line of the
    fetch is never passed on, and the placeholder "No screenshot
    available" is never used for a result of this server. *)
Theorem browser_to_model :
  forall b f cp headless take_screenshot sl more val v tu,
    (forall data,
        Server.nova_act_response b (fetch_instruction f) = Ret data ->
        json_ok data = true) ->
    fst (run_tool b f headless take_screenshot sl) = Ret v ->
    name tu = tool_of (fetch_category f) ->
    let sent := tool_result_message tu (envelope (Json.dumps cp v) more val) in
    (forall e,
        v = fetch_failure (fetch_error_prefix f) e ->
        sent = {| role := "user";
                  blocks := [BToolResult (toolUseId tu)
                               (JDict [("error", JStr e)])] |})
    /\ (forall data,
          v = fetch_succeeded f data (reported_path b f take_screenshot) ->
          sent = {| role := "user";
                    blocks := [BToolResult (toolUseId tu)
                                 (JDict [("result", data);
                                         ("screenshot",
                                          reported_path b f take_screenshot)])] |})
    /\ ((exists e, v = fetch_failure (fetch_error_prefix f) e)
        \/ (exists data,
              v = fetch_succeeded f data (reported_path b f take_screenshot))).
Proof.
  intros b f cp headless take_screenshot sl more val v tu Hdata Hv Hname sent.
  destruct (run_tool_value b f headless take_screenshot sl v Hdata Hv)
    as [Hok Hcases].
  subst sent. unfold tool_result_message.
  rewrite (extract_envelope_loads _ v more val (loads_dumps cp v Hok)), Hname.
  split; [|split; [|exact Hcases]].
  - intros e ->. destruct f; reflexivity.
  - intros data ->. destruct f; reflexivity.
Qed.

Lemma browser_to_model_witness :
  tool_result_message
    {| name := "get_hk_weather_warnings"; input := JDict [];
       toolUseId := "tooluse_7" |}
    (envelope (Json.dumps false (fetch_result capture_fails FWarnings false true))
       [] None)
  = {| role := "user";
       blocks := [BToolResult "tooluse_7"
                    (JDict [("result", JStr "No warnings in force.");
                            ("screenshot", JNull)])] |}.
Proof.
  refine (proj1 (proj2
            (browser_to_model capture_fails FWarnings false false true []
               [] None (fetch_result capture_fails FWarnings false true)
               {| name := "get_hk_weather_warnings"; input := JDict [];
                  toolUseId := "tooluse_7" |}
               _ eq_refl eq_refl))
            (JStr "No warnings in force.") eq_refl).
  intros data H. injection H as H. subst data. reflexivity.
Defined.

(* ================================================================= *)
(** ** Sessions at the console *)

Lemma run_exits_trace h :
  forall stack pending t,
    snd (Host.run_exits h stack pending t) = t ++ map Host.exit_event stack.
Proof.
  induction stack as [|r stack IH]; intros pending t; cbn.
  - symmetry. apply List.app_nil_r.
  - rewrite IH, <- List.app_assoc. reflexivity.
Qed.

Lemma aclose_closed h st : snd (Host.aclose h st) = closed st.
Proof.
  unfold Host.aclose, closed.
  pose proof (run_exits_trace h (Host.exit_stack st) None (Host.trace st)) as H.
  destruct (Host.run_exits h (Host.exit_stack st) None (Host.trace st))
    as [[e|] t]; cbn [snd] in *; subst t; reflexivity.
Qed.

Lemma try_finally_aclose {A} (body : M Host.state A) h st :
  snd (Host.try_finally body (Host.aclose h) st) = closed (snd (body st)).
Proof.
  unfold Host.try_finally. destruct (body st) as [res st1]. cbn [snd].
  rewrite <- (aclose_closed h st1).
  destruct (Host.aclose h st1) as [[u|e] st2]; reflexivity.
Qed.

Lemma quiet_ret {A} (a : A) : quiet (ret a).
Proof.
  intros st. exists []. cbn. rewrite List.app_nil_r.
  split; [destruct st; reflexivity|reflexivity].
Qed.

Lemma quiet_bind {A B} (m : M Host.state A) (k : A -> M Host.state B) :
  quiet m -> (forall a, quiet (k a)) -> quiet (bind m k).
Proof.
  intros Hm Hk st. unfold bind.
  destruct (Hm st) as (tr1 & E1 & T1).
  destruct (m st) as [[a|e] st1]; cbn [snd] in E1; subst st1.
  - destruct (Hk a {| Host.trace := Host.trace st ++ tr1;
                      Host.exit_stack := Host.exit_stack st |})
      as (tr2 & E2 & T2).
    exists (tr1 ++ tr2). rewrite E2. cbn [Host.trace Host.exit_stack].
    rewrite List.app_assoc, List.forallb_app, T1, T2.
    split; reflexivity.
  - exists tr1. split; [reflexivity|exact T1].
Qed.

Lemma quiet_print text : quiet (Host.print text).
Proof. intros st. exists [Host.EPrint text]. split; reflexivity. Qed.

Lemma quiet_input stdin : quiet (Host.input stdin).
Proof.
  intros st. destruct stdin as [|line rest]; eexists; split; reflexivity.
Qed.

Lemma forallb_talk_remote l : forallb talk (map Host.ERemote l) = true.
Proof. induction l as [|c l IH]; [reflexivity|exact IH]. Qed.

Lemma quiet_processing {A} (m : M Client.log A) : quiet (Host.processing m).
Proof.
  intros st. unfold Host.processing. cbv zeta.
  destruct (m (Host.remote_calls (Host.trace st))) as [res after].
  eexists. split; [reflexivity|apply forallb_talk_remote].
Qed.

Lemma quiet_query_loop process_query :
  forall stdin, quiet (Host.query_loop process_query stdin).
Proof.
  induction stdin as [|line rest IH]; cbn [Host.query_loop].
  - apply quiet_bind; [apply quiet_input|intros q; apply quiet_ret].
  - apply quiet_bind; [apply quiet_input|intros q].
    destruct (Host.is_exit q); [apply quiet_ret|].
    apply quiet_bind; [apply quiet_print|intros _].
    apply quiet_bind; [apply quiet_processing|intros response].
    apply quiet_bind; [apply quiet_print|intros _]. exact IH.
Qed.

Lemma open_and_list_ok h path tools st :
  connects h path ->
  Host.list_tools h = Ret tools ->
  Host.open_and_list h path st = (Ret tools, connected h path st).
Proof.
  intros (Hpy & Hspawn & Hopen & Hinit & _) Htools.
  unfold Host.open_and_list, connected, handshake.
  rewrite Hpy.
  unfold bind, Host.enter_async_context, Host.signal, Host.print, ret,
    Host.emit.
  rewrite Hspawn, Hopen, Hinit, Htools.
  cbn. rewrite <- !List.app_assoc. reflexivity.
Qed.

Lemma open_and_list_cases h path st :
  (exists tools,
      connects h path /\ Host.list_tools h = Ret tools
      /\ opened h path = [Host.Session; Host.Transport])
  \/ (exists e k,
        Host.open_and_list h path st
        = (Raise e,
           {| Host.trace := Host.trace st ++ firstn k (handshake h path);
              Host.exit_stack := opened h path ++ Host.exit_stack st |})
        /\ k < 5
        /\ (Host.ends_with ".py" path = false -> k = 0)).
Proof.
  unfold connects, opened.
  destruct (Host.ends_with ".py" path) eqn:Hpy.
  - destruct (Host.spawn h "python3" [path]) as [e|] eqn:Hspawn.
    { right. exists e, 1. unfold Host.open_and_list. rewrite Hpy.
      unfold bind, Host.enter_async_context, Host.emit. rewrite Hspawn.
      cbn. repeat split; [lia|discriminate]. }
    destruct (Host.open_session h) as [e|] eqn:Hopen.
    { right. exists e, 2. unfold Host.open_and_list. rewrite Hpy.
      unfold bind, Host.enter_async_context, Host.emit.
      rewrite Hspawn, Hopen.
      cbn. rewrite <- !List.app_assoc. repeat split; [lia|discriminate]. }
    destruct (Host.initialize h) as [e|] eqn:Hinit.
    { right. exists e, 3. unfold Host.open_and_list. rewrite Hpy.
      unfold bind, Host.enter_async_context, Host.signal, Host.emit.
      rewrite Hspawn, Hopen, Hinit.
      cbn. rewrite <- !List.app_assoc. repeat split; [lia|discriminate]. }
    destruct (Host.list_tools h) as [tools|e] eqn:Htools.
    + left. exists tools. repeat split. exists tools. reflexivity.
    + right. exists e, 4. unfold Host.open_and_list. rewrite Hpy.
      unfold bind, Host.enter_async_context, Host.signal, Host.emit.
      rewrite Hspawn, Hopen, Hinit, Htools.
      cbn. rewrite <- !List.app_assoc. repeat split; [lia|discriminate].
  - right. exists "Server script must be a .py file", 0.
    unfold Host.open_and_list. rewrite Hpy. cbn.
    rewrite List.app_nil_r. destruct st. repeat split. lia.
Qed.

Lemma no_closing_in_handshake h path k :
  forallb (fun ev => negb (closing ev)) (firstn k (handshake h path)) = true.
Proof. do 6 (destruct k as [|k]; [reflexivity|]). reflexivity. Qed.

Lemma talk_not_closing tr :
  forallb talk tr = true -> forallb (fun ev => negb (closing ev)) tr = true.
Proof.
  induction tr as [|ev tr IH]; [reflexivity|]. cbn.
  intros H. apply andb_true_iff in H. destruct H as [Hev Htr].
  rewrite (IH Htr). destruct ev; try discriminate Hev; reflexivity.
Qed.

(** The shape of a session: the connection, then, when it worked, the
    rest of the body, then the exits. *)
Lemma session_shape {A} h path (mk : list Host.listed_tool -> A)
  (rest : A -> M Host.state unit) st :
  (forall a, quiet (rest a)) ->
  exists k tr,
    snd (Host.try_finally
           (bind (bind (Host.open_and_list h path) (fun tools => ret (mk tools)))
              rest)
           (Host.aclose h) st)
    = {| Host.trace := Host.trace st ++ firstn k (handshake h path) ++ tr
                       ++ map Host.exit_event (opened h path ++ Host.exit_stack st);
         Host.exit_stack := [] |}
    /\ forallb talk tr = true
    /\ (Host.ends_with ".py" path = false -> k = 0)
    /\ (tr = []
        \/ exists tools,
             Host.list_tools h = Ret tools
             /\ snd (rest (mk tools) (connected h path st))
                = {| Host.trace := Host.trace (connected h path st) ++ tr;
                     Host.exit_stack := Host.exit_stack (connected h path st) |}).
Proof.
  intros Hrest. rewrite try_finally_aclose.
  destruct (open_and_list_cases h path st)
    as [(tools & Hc & Htools & Hopened)|(e & k & Hrun & Hk & Hpy)].
  - unfold bind at 1 2. rewrite (open_and_list_ok h path tools st Hc Htools).
    unfold ret at 1.
    destruct (Hrest (mk tools) (connected h path st)) as (tr & E & T).
    exists 5, tr. rewrite E. unfold closed, connected.
    cbn [Host.trace Host.exit_stack]. rewrite Hopened.
    split; [|split; [exact T|split]].
    + rewrite <- !List.app_assoc. reflexivity.
    + destruct Hc as [Hpy _]. rewrite Hpy. discriminate.
    + right. exists tools. split; [exact Htools|exact E].
  - unfold bind at 1 2. rewrite Hrun. cbn [snd].
    exists k, []. unfold closed. cbn [Host.trace Host.exit_stack app].
    split; [|split; [reflexivity|split; [exact Hpy|left; reflexivity]]].
    rewrite <- !List.app_assoc. reflexivity.
Qed.

Lemma assistant_session_quiet h stdin self :
  quiet (bind (Host.print (nl ++ "=== Agentic Hong Kong Weather Assistant ==="))
           (fun _ =>
              bind (Host.print "Type 'exit' or 'quit' to end the session")
                (fun _ =>
                   bind (Host.print "This assistant uses LLM to understand your queries and call appropriate tools")
                     (fun _ => AssistantShell.session_loop h self stdin)))).
Proof.
  repeat (apply quiet_bind; [apply quiet_print|intros _]).
  apply quiet_query_loop.
Qed.

Lemma client_session_quiet h stdin (u : unit) :
  quiet (bind (Host.print (nl ++ "=== Hong Kong Weather Forecast Assistant ==="))
           (fun _ =>
              bind (Host.print "Type 'exit' or 'quit' to end the session")
                (fun _ => ClientShell.session_loop h stdin))).
Proof.
  repeat (apply quiet_bind; [apply quiet_print|intros _]).
  apply quiet_query_loop.
Qed.

Lemma assistant_session_shape h path stdin st :
  exists k tr,
    snd (AssistantShell.interactive_session h path stdin st)
    = {| Host.trace := Host.trace st ++ firstn k (handshake h path) ++ tr
                       ++ map Host.exit_event (opened h path ++ Host.exit_stack st);
         Host.exit_stack := [] |}
    /\ forallb talk tr = true
    /\ (Host.ends_with ".py" path = false -> k = 0).
Proof.
  destruct (session_shape h path AssistantShell.with_tools _ st
              (assistant_session_quiet h stdin))
    as (k & tr & E & T & Hk & _).
  exists k, tr. split; [exact E|split; [exact T|exact Hk]].
Qed.

Lemma client_session_shape h path stdin st :
  exists k tr,
    snd (ClientShell.interactive_session h path stdin st)
    = {| Host.trace := Host.trace st ++ firstn k (handshake h path) ++ tr
                       ++ map Host.exit_event (opened h path ++ Host.exit_stack st);
         Host.exit_stack := [] |}
    /\ forallb talk tr = true
    /\ (Host.ends_with ".py" path = false -> k = 0).
Proof.
  destruct (session_shape h path (fun _ => tt) _ st (client_session_quiet h stdin))
    as (k & tr & E & T & Hk & _).
  exists k, tr. split; [exact E|split; [exact T|exact Hk]].
Qed.

(** X15.  A session closes what it opened.  Whatever happens in an
    interactive session of either client (a path that is refused, a
    server that does not start, a handshake that fails, a console that
    runs out of lines, exits that raise), nothing is closed before the
    end, and the run ends with the exit of every context on the stack:
    the session first and then the transport, each once and only if it
    was entered.  The exit stack is empty afterwards. *)
Theorem session_closes_what_it_opened :
  forall h path stdin st,
    closes_what_it_opened h path st
      (snd (AssistantShell.interactive_session h path stdin st))
    /\ closes_what_it_opened h path st
         (snd (ClientShell.interactive_session h path stdin st)).
Proof.
  intros h path stdin st. split.
  - destruct (assistant_session_shape h path stdin st) as (k & tr & E & T & _).
    rewrite E. split; [reflexivity|].
    exists (firstn k (handshake h path) ++ tr). cbn [Host.trace].
    split; [rewrite <- !List.app_assoc; reflexivity|].
    rewrite List.forallb_app, no_closing_in_handshake, (talk_not_closing tr T).
    reflexivity.
  - destruct (client_session_shape h path stdin st) as (k & tr & E & T & _).
    rewrite E. split; [reflexivity|].
    exists (firstn k (handshake h path) ++ tr). cbn [Host.trace].
    split; [rewrite <- !List.app_assoc; reflexivity|].
    rewrite List.forallb_app, no_closing_in_handshake, (talk_not_closing tr T).
    reflexivity.
Qed.

Lemma processing_answers process_query query st :
  answers process_query ->
  exists out calls,
    process_query query (Host.remote_calls (Host.trace st))
    = (Ret out, Host.remote_calls (Host.trace st) ++ calls)
    /\ Host.processing (process_query query) st
       = (Ret out,
          {| Host.trace := Host.trace st ++ map Host.ERemote calls;
             Host.exit_stack := Host.exit_stack st |}).
Proof.
  intros Hp. destruct (Hp query (Host.remote_calls (Host.trace st)))
    as (out & calls & E).
  exists out, calls. split; [exact E|].
  unfold Host.processing. cbv zeta. rewrite E.
  rewrite List.skipn_app, List.skipn_all, Nat.sub_diag. reflexivity.
Qed.

Lemma query_loop_stops process_query word rest :
  Host.is_exit word = true ->
  forall lines st,
    Host.query_loop process_query (lines ++ word :: rest) st
    = Host.query_loop process_query (lines ++ [word]) st.
Proof.
  intros Hw. induction lines as [|line lines IH]; intros st.
  - cbn [app Host.query_loop]. unfold bind, Host.input. rewrite Hw.
    reflexivity.
  - cbn [app Host.query_loop]. unfold bind at 1 5. unfold Host.input.
    destruct (Host.is_exit line); [reflexivity|].
    unfold bind at 1 4. unfold Host.print at 1 3.
    unfold bind at 1 3.
    destruct (Host.processing (process_query line)
                (Host.emit (Host.EPrint (nl ++ "Processing your request..."))
                   (Host.emit (Host.EInput Host.prompt (Ret line)) st)))
      as [[response|e] st1]; [|reflexivity].
    unfold bind, Host.print. apply IH.
Qed.

Lemma query_loop_ends process_query word rest :
  answers process_query ->
  Host.is_exit word = true ->
  forall lines st,
    fst (Host.query_loop process_query (lines ++ word :: rest) st) = Ret tt.
Proof.
  intros Hp Hw. induction lines as [|line lines IH]; intros st.
  - cbn [app Host.query_loop]. unfold bind, Host.input. rewrite Hw.
    reflexivity.
  - cbn [app Host.query_loop]. unfold bind at 1. unfold Host.input.
    destruct (Host.is_exit line); [reflexivity|].
    unfold bind at 1. unfold Host.print at 1. unfold bind at 1.
    match goal with
    | |- context [Host.processing (process_query line) ?s] =>
        destruct (processing_answers process_query line s Hp)
          as (out & calls & _ & E)
    end.
    rewrite E. unfold bind, Host.print. apply IH.
Qed.

Lemma process_query_with_llm_answers env self :
  answers (AgenticWeatherAssistant.process_query_with_llm env self).
Proof. intros query l. apply process_query_with_llm_returns. Qed.

Lemma process_query_answers env :
  answers (HKWeatherMCPClient.process_query env).
Proof.
  intros query l. rewrite process_query_eq. cbv zeta.
  eexists. eexists. reflexivity.
Qed.

(** X16.  The session ends at the first exit line.  When the console
    holds a line that says exit or quit, in any case of letters, the
    loop of either client returns normally, since answering a query
    never raises, and what the console holds after that line makes no
    difference to the run: it is never read. *)
Theorem lines_after_exit_are_not_read :
  forall h self path lines word rest st,
    Host.is_exit word = true ->
    (fst (AssistantShell.session_loop h self (lines ++ word :: rest) st) = Ret tt
     /\ AssistantShell.interactive_session h path (lines ++ word :: rest) st
        = AssistantShell.interactive_session h path (lines ++ [word]) st)
    /\ (fst (ClientShell.session_loop h (lines ++ word :: rest) st) = Ret tt
        /\ ClientShell.interactive_session h path (lines ++ word :: rest) st
           = ClientShell.interactive_session h path (lines ++ [word]) st).
Proof.
  intros h self path lines word rest st Hw. split; split.
  - apply query_loop_ends; [apply process_query_with_llm_answers|exact Hw].
  - unfold AssistantShell.interactive_session, Host.try_finally.
    unfold bind at 1 5.
    destruct (AssistantShell.connect_to_server h path st) as [[a|e] st1];
      [|reflexivity].
    unfold bind, Host.print, AssistantShell.session_loop.
    rewrite (query_loop_stops _ word rest Hw). reflexivity.
  - apply query_loop_ends; [apply process_query_answers|exact Hw].
  - unfold ClientShell.interactive_session, Host.try_finally.
    unfold bind at 1 4.
    destruct (ClientShell.connect_to_server h path st) as [[a|e] st1];
      [|reflexivity].
    unfold bind, Host.print, ClientShell.session_loop.
    rewrite (query_loop_stops _ word rest Hw). reflexivity.
Qed.

Lemma lines_after_exit_are_not_read_witness :
  fst (AssistantShell.session_loop (a_host [] eager_model) weather_assistant
         (["How is the weather now?"] ++ "QUIT" :: ["never read"])
         Host.initial)
  = Ret tt.
Proof.
  exact (proj1 (proj1 (lines_after_exit_are_not_read
                         (a_host [] eager_model) weather_assistant "server.py"
                         ["How is the weather now?"] "QUIT" ["never read"]
                         Host.initial eq_refl))).
Defined.

Lemma spawn_in_session h path k tr stack command args :
  forallb talk tr = true ->
  In (Host.ESpawn command args)
    (firstn k (handshake h path) ++ tr ++ map Host.exit_event stack) ->
  k <> 0 /\ command = "python3" /\ args = [path].
Proof.
  intros T H. apply in_app_or in H. destruct H as [H|H].
  - destruct k as [|k]; [destruct H|]. split; [discriminate|].
    cbn [handshake firstn] in H. destruct H as [H|H].
    + injection H as <- <-. split; reflexivity.
    + exfalso. do 5 (destruct k as [|k];
                     [cbn in H; intuition discriminate|]).
      cbn in H. intuition discriminate.
  - exfalso. apply in_app_or in H. destruct H as [H|H].
    + rewrite forallb_forall in T. specialize (T _ H). discriminate T.
    + apply in_map_iff in H. destruct H as (r & Hr & _).
      destruct r; discriminate Hr.
Qed.

Lemma spawn_in_prints command args texts :
  ~ In (Host.ESpawn command args) (map Host.EPrint texts).
Proof.
  intros H. apply in_map_iff in H. destruct H as (t & Ht & _). discriminate Ht.
Qed.

Lemma spawn_in_main_assistant h argv stdin command args :
  In (Host.ESpawn command args)
    (Host.trace (snd (AssistantShell.main h argv stdin Host.initial))) ->
  command = "python3"
  /\ exists path,
       nth_error argv 1 = Some path /\ args = [path]
       /\ Host.ends_with ".py" path = true.
Proof.
  unfold AssistantShell.main.
  destruct argv as [|a0 [|path more]];
    try (cbn; intros H; exfalso; intuition discriminate).
  intros H.
  assert (E : snd (bind (AssistantShell.interactive_session h path stdin)
                     (fun _ => ret (@None Z)) Host.initial)
              = snd (AssistantShell.interactive_session h path stdin Host.initial)).
  { unfold bind.
    destruct (AssistantShell.interactive_session h path stdin Host.initial)
      as [[u|e] st1]; reflexivity. }
  rewrite E in H. clear E.
  destruct (assistant_session_shape h path stdin Host.initial)
    as (k & tr & E & T & Hk).
  rewrite E in H. cbn [Host.trace Host.initial app] in H.
  destruct (spawn_in_session h path k tr _ command args T H)
    as (Hk0 & Hc & Ha).
  split; [exact Hc|]. exists path. split; [reflexivity|split; [exact Ha|]].
  destruct (Host.ends_with ".py" path); [reflexivity|].
  exfalso. apply Hk0, Hk. reflexivity.
Qed.

Lemma spawn_in_main_client h argv stdin command args :
  In (Host.ESpawn command args)
    (Host.trace (snd (ClientShell.main h argv stdin Host.initial))) ->
  command = "python3"
  /\ exists path,
       nth_error argv 1 = Some path /\ args = [path]
       /\ Host.ends_with ".py" path = true.
Proof.
  unfold ClientShell.main.
  destruct argv as [|a0 [|path more]];
    try (cbn; intros H; exfalso; intuition discriminate).
  intros H.
  assert (E : snd (bind (ClientShell.interactive_session h path stdin)
                     (fun _ => ret (@None Z)) Host.initial)
              = snd (ClientShell.interactive_session h path stdin Host.initial)).
  { unfold bind.
    destruct (ClientShell.interactive_session h path stdin Host.initial)
      as [[u|e] st1]; reflexivity. }
  rewrite E in H. clear E.
  destruct (client_session_shape h path stdin Host.initial)
    as (k & tr & E & T & Hk).
  rewrite E in H. cbn [Host.trace Host.initial app] in H.
  destruct (spawn_in_session h path k tr _ command args T H)
    as (Hk0 & Hc & Ha).
  split; [exact Hc|]. exists path. split; [reflexivity|split; [exact Ha|]].
  destruct (Host.ends_with ".py" path); [reflexivity|].
  exfalso. apply Hk0, Hk. reflexivity.
Qed.

(** X17.  No server is started before the checks have passed.  If a run
    of either client, as a script, starts a process at all, then the
    NOVA_ACT_API_KEY of the environment is set and not empty, there is
    a second command-line argument, it ends in .py, and the process is
    python3 on that path and nothing else.  For the assistant the client
    of the model endpoint has been created as well. *)
Theorem server_started_only_after_checks :
  forall h argv stdin command args,
    In (Host.ESpawn command args)
      (Host.trace (snd (AssistantShell.program h argv stdin Host.initial)))
    \/ In (Host.ESpawn command args)
         (Host.trace (snd (ClientShell.program h argv stdin Host.initial))) ->
    guarded h argv command args
    /\ (In (Host.ESpawn command args)
          (Host.trace (snd (AssistantShell.program h argv stdin Host.initial))) ->
        Host.bedrock_client h = None).
Proof.
  intros h argv stdin command args H.
  unfold AssistantShell.program, ClientShell.program in *.
  destruct (Host.nova_act_api_key h) as [key|] eqn:Hkey.
  - destruct (String.eqb key "") eqn:Hempty.
    + exfalso. cbn in H. intuition discriminate.
    + assert (Hk : exists key0, Host.nova_act_api_key h = Some key0
                                /\ key0 <> ""%string).
      { exists key. split; [exact Hkey|].
        intros ->. discriminate Hempty. }
      destruct (Host.bedrock_client h) as [e|] eqn:Hb.
      * split.
        -- destruct H as [H|H]; [exfalso; cbn in H; intuition discriminate|].
           split; [exact Hk|]. exact (spawn_in_main_client _ _ _ _ _ H).
        -- intros H'. exfalso. cbn in H'. intuition discriminate.
      * split; [|reflexivity]. split; [exact Hk|].
        destruct H as [H|H].
        -- exact (spawn_in_main_assistant _ _ _ _ _ H).
        -- exact (spawn_in_main_client _ _ _ _ _ H).
  - exfalso. cbn in H. intuition discriminate.
Qed.

Lemma server_started_only_after_checks_witness :
  guarded (a_host [] eager_model) ["hk_weather_mcp_client.py"; "server.py"]
    "python3" ["server.py"].
Proof.
  refine (proj1 (server_started_only_after_checks (a_host [] eager_model)
                   ["hk_weather_mcp_client.py"; "server.py"] ["exit"]
                   "python3" ["server.py"] (or_intror _))).
  vm_compute. left. reflexivity.
Defined.

Lemma remote_calls_app t1 t2 :
  Host.remote_calls (t1 ++ t2) = Host.remote_calls t1 ++ Host.remote_calls t2.
Proof.
  induction t1 as [|ev t1 IH]; [reflexivity|].
  destruct ev; cbn; rewrite ?IH; reflexivity.
Qed.

Lemma remote_calls_remote l : Host.remote_calls (map Host.ERemote l) = l.
Proof. induction l as [|c l IH]; cbn; rewrite ?IH; reflexivity. Qed.

Lemma remote_calls_handshake h path k :
  Host.remote_calls (firstn k (handshake h path)) = [].
Proof. do 6 (destruct k as [|k]; [reflexivity|]). reflexivity. Qed.

Lemma remote_calls_exits stack :
  Host.remote_calls (map Host.exit_event stack) = [].
Proof. induction stack as [|[|] stack IH]; cbn; exact IH || reflexivity. Qed.

Lemma processing_eq {A} (m : M Client.log A) st res calls :
  m (Host.remote_calls (Host.trace st))
  = (res, Host.remote_calls (Host.trace st) ++ calls) ->
  Host.processing m st
  = (res, {| Host.trace := Host.trace st ++ map Host.ERemote calls;
             Host.exit_stack := Host.exit_stack st |}).
Proof.
  intros E. unfold Host.processing. cbv zeta. rewrite E.
  rewrite List.skipn_app, List.skipn_all, Nat.sub_diag. reflexivity.
Qed.

Lemma process_query_with_llm_no_tools env self query l :
  AgenticWeatherAssistant.available_tools self = [] ->
  AgenticWeatherAssistant.process_query_with_llm env self query l
  = (Ret "No tools available on the server."%string, l).
Proof.
  intros Et. unfold AgenticWeatherAssistant.process_query_with_llm.
  rewrite Et. reflexivity.
Qed.

Lemma session_loop_no_tools h self :
  AgenticWeatherAssistant.available_tools self = [] ->
  forall stdin st,
    Host.remote_calls (Host.trace (snd (AssistantShell.session_loop h self stdin st)))
    = Host.remote_calls (Host.trace st).
Proof.
  intros Et. unfold AssistantShell.session_loop.
  induction stdin as [|line rest IH]; intros st.
  - cbn. rewrite remote_calls_app. cbn. apply List.app_nil_r.
  - cbn [Host.query_loop]. unfold bind at 1. unfold Host.input.
    destruct (Host.is_exit line).
    + cbn. rewrite remote_calls_app. cbn. apply List.app_nil_r.
    + unfold bind at 1. unfold Host.print at 1. unfold bind at 1.
      match goal with
      | |- context [Host.processing ?m ?s] =>
          rewrite (processing_eq m s
                     (Ret "No tools available on the server."%string) [])
      end.
      * unfold bind, Host.print. rewrite IH. cbn.
        rewrite !remote_calls_app. cbn. rewrite !List.app_nil_r. reflexivity.
      * rewrite List.app_nil_r.
        apply process_query_with_llm_no_tools. exact Et.
Qed.

(** X18.  An assistant without tools never calls out.  When the server
    lists no tool, an interactive session of the assistant makes no
    call to the model and none to the tool session, whatever is typed;
    every query is answered by the assistant itself. *)
Theorem no_tools_no_calls :
  forall h path stdin st,
    Host.list_tools h = Ret [] ->
    Host.remote_calls
      (Host.trace (snd (AssistantShell.interactive_session h path stdin st)))
    = Host.remote_calls (Host.trace st).
Proof.
  intros h path stdin st Htools.
  destruct (session_shape h path AssistantShell.with_tools _ st
              (assistant_session_quiet h stdin))
    as (k & tr & E & _ & _ & Htr).
  change (snd (AssistantShell.interactive_session h path stdin st)
          = {| Host.trace := Host.trace st ++ firstn k (handshake h path) ++ tr
                             ++ map Host.exit_event
                                  (opened h path ++ Host.exit_stack st);
               Host.exit_stack := [] |}) in E.
  rewrite E. cbn [Host.trace].
  rewrite !remote_calls_app, remote_calls_handshake, remote_calls_exits.
  assert (Hno : Host.remote_calls tr = []).
  { destruct Htr as [->|(tools & Ht & Hrest)]; [reflexivity|].
    rewrite Htools in Ht. injection Ht as <-.
    apply (f_equal (fun s => Host.remote_calls (Host.trace s))) in Hrest.
    cbn [Host.trace] in Hrest. rewrite remote_calls_app in Hrest.
    unfold bind at 1 2 3 in Hrest. unfold Host.print in Hrest.
    rewrite (session_loop_no_tools h (AssistantShell.with_tools []) eq_refl)
      in Hrest.
    cbn [Host.emit Host.trace] in Hrest.
    rewrite !remote_calls_app in Hrest. cbn [Host.remote_calls] in Hrest.
    rewrite !List.app_nil_r in Hrest.
    rewrite <- (List.app_nil_r (Host.remote_calls
                                  (Host.trace (connected h path st)))) in Hrest at 1.
    apply List.app_inv_head in Hrest. symmetry. exact Hrest. }
  rewrite Hno. cbn. rewrite List.app_nil_r. reflexivity.
Qed.

Lemma no_tools_no_calls_witness :
  Host.remote_calls
    (Host.trace (snd (AssistantShell.interactive_session
                        (a_host [] eager_model) "server.py"
                        ["How is the weather now?"; "exit"] Host.initial)))
  = [].
Proof.
  exact (no_tools_no_calls (a_host [] eager_model) "server.py"
           ["How is the weather now?"; "exit"] Host.initial eq_refl).
Defined.

Lemma tools_called_app l1 l2 :
  tools_called (l1 ++ l2) = tools_called l1 ++ tools_called l2.
Proof.
  induction l1 as [|[m a|n a r] l1 IH]; cbn; rewrite ?IH; reflexivity.
Qed.

Lemma client_loop_calls h :
  forall stdin st,
  exists calls,
    Host.remote_calls (Host.trace (snd (ClientShell.session_loop h stdin st)))
    = Host.remote_calls (Host.trace st) ++ calls
    /\ tools_called calls
       = map (fun query => tool_of (keyword_category query)) (queries stdin)
    /\ count_converse calls = 0.
Proof.
  unfold ClientShell.session_loop.
  induction stdin as [|line rest IH]; intros st.
  - exists []. cbn. rewrite remote_calls_app. cbn.
    split; [|split; reflexivity]. reflexivity.
  - cbn [Host.query_loop queries]. unfold bind at 1. unfold Host.input.
    destruct (Host.is_exit line).
    + exists []. cbn. rewrite remote_calls_app. cbn.
      split; [|split; reflexivity]. reflexivity.
    + unfold bind at 1. unfold Host.print at 1. unfold bind at 1.
      match goal with
      | |- context [Host.processing ?m ?s] =>
          pose proof (process_query_eq (Host.remote h) line
                        (Host.remote_calls (Host.trace s))) as E;
          cbv zeta in E;
          rewrite (processing_eq m s _ _ E)
      end.
      unfold bind, Host.print.
      match goal with
      | |- context [Host.query_loop _ rest ?s] =>
          destruct (IH s) as (calls & Hc & Ht & Hn)
      end.
      eexists (_ :: calls). rewrite Hc. cbn [Host.emit Host.trace map].
      rewrite !remote_calls_app. cbn [Host.remote_calls].
      rewrite !List.app_nil_r, <- !List.app_assoc.
      split; [reflexivity|]. cbn [tools_called map count_converse app].
      rewrite Ht. split; [reflexivity|exact Hn].
Qed.

(** X19.  The lines typed decide the tools called.  In an interactive
    session of the keyword client whose connection works, the tool
    session is called once for each line before the first exit line, in
    order, with the tool that the keywords of the line select (the
    current weather when they select none), and the model is never
    called.  What the server listed as its tools plays no part. *)
Theorem keyword_session_tool_calls :
  forall h path stdin st,
    connects h path ->
    exists calls,
      Host.remote_calls
        (Host.trace (snd (ClientShell.interactive_session h path stdin st)))
      = Host.remote_calls (Host.trace st) ++ calls
      /\ tools_called calls
         = map (fun query => tool_of (keyword_category query)) (queries stdin)
      /\ count_converse calls = 0.
Proof.
  intros h path stdin st Hc.
  destruct (Hc) as (_ & _ & _ & _ & tools & Htools).
  unfold ClientShell.interactive_session. rewrite try_finally_aclose.
  unfold ClientShell.connect_to_server. unfold bind at 1 2.
  rewrite (open_and_list_ok h path tools st Hc Htools).
  unfold ret at 1. unfold bind at 1 2. unfold Host.print.
  match goal with
  | |- context [ClientShell.session_loop h stdin ?s] =>
      destruct (client_loop_calls h stdin s) as (calls & E & Ht & Hn)
  end.
  exists calls. split; [|split; [exact Ht|exact Hn]].
  unfold closed. cbn [Host.trace].
  rewrite remote_calls_app, remote_calls_exits, List.app_nil_r, E.
  cbn [Host.emit Host.trace connected].
  rewrite !remote_calls_app. cbn. rewrite !List.app_nil_r. reflexivity.
Qed.

Lemma keyword_session_tool_calls_witness :
  exists calls,
    Host.remote_calls
      (Host.trace (snd (ClientShell.interactive_session
                          (a_host [] eager_model) "server.py"
                          ["Any alert in force?"; "Hello"; "quit"; "forecast"]
                          Host.initial)))
    = calls
    /\ tools_called calls
       = ["get_hk_weather_warnings"; "get_hk_current_weather"].
Proof.
  destruct (keyword_session_tool_calls (a_host [] eager_model) "server.py"
              ["Any alert in force?"; "Hello"; "quit"; "forecast"]
              Host.initial)
    as (calls & E & Ht & _).
  - repeat split; try reflexivity. exists []. reflexivity.
  - exists calls. split; [exact E|exact Ht].
Defined.
